(** * react-native-skia-binaries: retrieval and staging pipeline

    A shallow embedding of the TypeScript/JavaScript sources

    - [generate-packages.ts]  (module [GeneratePackages]),
    - [download-binaries.ts]  (module [DownloadBinaries]),
    - [postinstall.mjs]       (module [Postinstall]),

    and the properties of the download / retry / extract / copy pipeline
    that they share.

    Modelling conventions.

    - Asynchronous code is run to completion: a promise is an [outcome],
      either fulfilled ([Ok]), rejected ([Throw]) or never settled ([Hang]).
    - The network is a script of replies, one consumed by each [https.get];
      when the script is exhausted the request is never answered.
    - The file system is split in the temporary area ([tmp], the
      directories made by [fs.mkdtempSync]) and the persistent tree
      ([disk]); paths into [disk] are lists of path components.  Symbolic
      links are not part of the model.
    - [console.log] output is not modelled. *)

From Stdlib Require Import String Ascii List ZArith Lia Bool Arith DecimalString.
Import ListNotations.
Open Scope string_scope.

(* ================================================================== *)
(** * JavaScript strings and numbers *)

(** [hay.includes(needle)] *)
Fixpoint includes (needle hay : string) : bool :=
  prefix needle hay ||
  match hay with
  | EmptyString => false
  | String _ rest => includes needle rest
  end.

Fixpoint string_rev_onto (s acc : string) : string :=
  match s with
  | EmptyString => acc
  | String c rest => string_rev_onto rest (String c acc)
  end.

Definition string_rev (s : string) : string := string_rev_onto s EmptyString.

(** [s.endsWith(suffix)] *)
Definition endsWith (suffix s : string) : bool :=
  prefix (string_rev suffix) (string_rev s).

(** Template-literal rendering of an integer-valued number. *)
Definition string_of_Z (z : Z) : string := NilZero.string_of_int (Z.to_int z).

(** Truthiness of an optional string ([undefined] and [""] are falsy). *)
Definition truthy (o : option string) : option string :=
  match o with
  | Some EmptyString => None
  | other => other
  end.

(* ================================================================== *)
(** * Errors and outcomes *)

(** A JavaScript [Error] with the two optional fields the code reads
    ([DownloadError] in the TypeScript sources). *)
Record Error := mkError {
  message : string;
  statusCode : option Z;
  code : option string
}.

Definition newError (msg : string) : Error := mkError msg None None.

Inductive outcome (A : Type) : Type :=
| Ok (a : A)
| Throw (e : Error)
| Hang.
Arguments Ok {A} a.
Arguments Throw {A} e.
Arguments Hang {A}.

Definition is_ok {A} (r : outcome A) : bool :=
  match r with Ok _ => true | _ => false end.

Definition settled {A} (r : outcome A) : bool :=
  match r with Hang => false | _ => true end.

(** State and exception monad: the state survives a [Throw]. *)
Definition M (S A : Type) : Type := S -> outcome A * S.

Definition ret {S A} (a : A) : M S A := fun s => (Ok a, s).
Definition throw {S A} (e : Error) : M S A := fun s => (Throw e, s).
Definition hang {S A} : M S A := fun s => (Hang, s).

Definition bind {S A B} (m : M S A) (k : A -> M S B) : M S B :=
  fun s =>
    match m s with
    | (Ok a, s') => k a s'
    | (Throw e, s') => (Throw e, s')
    | (Hang, s') => (Hang, s')
    end.

(** [try { m } catch (error) { h error }] *)
Definition try_catch {S A} (m : M S A) (h : Error -> M S A) : M S A :=
  fun s =>
    match m s with
    | (Throw e, s') => h e s'
    | other => other
    end.

Definition modify {S} (f : S -> S) : M S unit := fun s => (Ok tt, f s).
Definition gets {S A} (f : S -> A) : M S A := fun s => (Ok (f s), s).

Declare Scope monad_scope.
Delimit Scope monad_scope with monad.
Notation "x <- m ;; k" := (bind m (fun x => k))
  (at level 61, m at next level, right associativity) : monad_scope.
Notation "m ;; k" := (bind m (fun _ => k))
  (at level 61, right associativity) : monad_scope.
Open Scope monad_scope.

(** [for (const x of xs) { body x }] *)
Fixpoint for_of {S A} (xs : list A) (body : A -> M S unit) : M S unit :=
  match xs with
  | [] => ret tt
  | x :: rest => body x ;; for_of rest body
  end.

(* ================================================================== *)
(** * Version derivation ([deriveNpmVersion], generate-packages.ts) *)

Definition isDigit (c : ascii) : bool :=
  (48 <=? nat_of_ascii c)%nat && (nat_of_ascii c <=? 57)%nat.

Definition isLower (c : ascii) : bool :=
  (97 <=? nat_of_ascii c)%nat && (nat_of_ascii c <=? 122)%nat.

(** The longest prefix of decimal digits, and what follows it. *)
Fixpoint span_digits (s : string) : string * string :=
  match s with
  | String c rest =>
      if isDigit c
      then let (ds, tl) := span_digits rest in (String c ds, tl)
      else (EmptyString, s)
  | EmptyString => (EmptyString, EmptyString)
  end.

(** [skiaVersion.match(/^m(\d+)([a-z])?$/)]: the two capture groups. *)
Definition match_version (skiaVersion : string) : option (string * option ascii) :=
  match skiaVersion with
  | String "m"%char rest =>
      match span_digits rest with
      | (EmptyString, _) => None
      | (major, EmptyString) => Some (major, None)
      | (major, String c EmptyString) =>
          if isLower c then Some (major, Some c) else None
      | _ => None
      end
  | _ => None
  end.

Definition invalidVersion (skiaVersion : string) : Error :=
  newError ("Invalid skia version format: " ++ skiaVersion
            ++ ". Expected format: m144 or m144a").

Definition deriveNpmVersion (skiaVersion : string) : outcome string :=
  match match_version skiaVersion with
  | None => Throw (invalidVersion skiaVersion)
  | Some (major, suffix) =>
      (* suffix ? suffix.charCodeAt(0) - "a".charCodeAt(0) + 1 : 0 *)
      let minor :=
        match suffix with
        | Some c => (Z.of_nat (nat_of_ascii c) - Z.of_nat (nat_of_ascii "a") + 1)%Z
        | None => 0%Z
        end in
      Ok (major ++ "." ++ string_of_Z minor ++ ".0")
  end.

(** Specification vocabulary for milestone identifiers. *)
Fixpoint all_digits (s : string) : bool :=
  match s with
  | EmptyString => true
  | String c rest => isDigit c && all_digits rest
  end.

Definition digits (s : string) : Prop := s <> EmptyString /\ all_digits s = true.

Definition alphabet : list ascii :=
  list_ascii_of_string "abcdefghijklmnopqrstuvwxyz".

(** 1-based position of a letter in the alphabet: a is 1, z is 26. *)
Fixpoint position (c : ascii) (l : list ascii) : option nat :=
  match l with
  | [] => None
  | x :: rest => if Ascii.eqb c x then Some 1%nat else option_map S (position c rest)
  end.

Definition letterIndex (c : ascii) : option nat := position c alphabet.

(* ================================================================== *)
(** * File-system trees *)

Inductive special : Type := Socket | FIFO | CharacterDevice | BlockDevice.

#[local] Set Warnings "-register-all".
Inductive node : Type :=
| File (data : string)
| Dir (entries : list (string * node))
| Special (kind : special).

Definition listing : Type := list (string * node).

(** [fs.Stats] / [fs.Dirent] predicates. *)
Definition isDirectory (n : node) : bool :=
  match n with Dir _ => true | _ => false end.
Definition isSocket (n : node) : bool :=
  match n with Special Socket => true | _ => false end.
Definition isFIFO (n : node) : bool :=
  match n with Special FIFO => true | _ => false end.
Definition isCharacterDevice (n : node) : bool :=
  match n with Special CharacterDevice => true | _ => false end.
Definition isBlockDevice (n : node) : bool :=
  match n with Special BlockDevice => true | _ => false end.

Definition names (es : listing) : list string := map fst es.

Fixpoint lookup (name : string) (es : listing) : option node :=
  match es with
  | [] => None
  | (k, n) :: rest => if String.eqb name k then Some n else lookup name rest
  end.

(** Replace the entry called [name], or add it after the existing ones. *)
Fixpoint put (name : string) (n : node) (es : listing) : listing :=
  match es with
  | [] => [(name, n)]
  | (k, old) :: rest =>
      if String.eqb name k then (k, n) :: rest else (k, old) :: put name n rest
  end.

Fixpoint remove (name : string) (es : listing) : listing :=
  match es with
  | [] => []
  | (k, old) :: rest =>
      if String.eqb name k then remove name rest else (k, old) :: remove name rest
  end.

Definition set_child (name : string) (c : option node) (es : listing) : listing :=
  match c with
  | Some n => put name n es
  | None => remove name es
  end.

Definition path : Type := list string.

(** The node a path designates below [d], if any. *)
Fixpoint lookup_path (p : path) (d : option node) : option node :=
  match p with
  | [] => d
  | x :: rest =>
      match d with
      | Some (Dir es) => lookup_path rest (lookup x es)
      | _ => None
      end
  end.

Definition fsError (errno what : string) : Error :=
  mkError (errno ++ ": " ++ what) None (Some errno).

Definition ENOENT : Error := fsError "ENOENT" "no such file or directory".
Definition ENOTDIR : Error := fsError "ENOTDIR" "not a directory".
Definition EEXIST : Error := fsError "EEXIST" "file already exists".
Definition EISDIR : Error := fsError "EISDIR" "illegal operation on a directory".

(** [fs.existsSync(p)] *)
Definition existsSync (p : path) (d : option node) : bool :=
  match lookup_path p d with Some _ => true | None => false end.

(** [fs.readdirSync(p)], with the nodes the names stand for. *)
Definition readdirSync (o : option node) : outcome listing :=
  match o with
  | Some (Dir es) => Ok es
  | Some _ => Throw ENOTDIR
  | None => Throw ENOENT
  end.

(** What the platform does when [copyFileSync] has to read a special
    file, or to write onto one: the open or the transfer fails, blocks,
    or goes through. *)
Inductive ReadSpecial : Type :=
| ReadFails (e : Error)
| ReadBlocks
| ReadYields (data : string).

Inductive WriteSpecial : Type :=
| WriteFails (e : Error)
| WriteBlocks
| WriteAccepted.

(** What a child process does once spawned. *)
Inductive SpawnResult : Type :=
| SpawnError (e : Error)          (* the 'error' event *)
| Closed (exitCode : option Z).   (* the 'close' event; null after a signal *)

(** The host: platform, environment variables, installed programs. *)
Record Env := mkEnv {
  win32 : bool;                         (* process.platform === "win32" *)
  SystemRoot : option string;           (* process.env.SystemRoot *)
  SKIP_SKIA_DOWNLOAD : option string;   (* process.env.SKIP_SKIA_DOWNLOAD *)
  spawn : string -> SpawnResult;
  read_special : special -> ReadSpecial;
  write_special : special -> WriteSpecial
}.

(** ** Operations on the node found at a destination path

    The state of these computations is the node at the path operated on
    ([None] when nothing is there). *)

(** [fs.mkdirSync(dest, { recursive: true })], parents in place. *)
Definition mkdirSync : M (option node) unit :=
  fun d =>
    match d with
    | None => (Ok tt, Some (Dir []))
    | Some (Dir _) => (Ok tt, d)
    | Some _ => (Throw EEXIST, d)
    end.

(** Run [m] on the entry [name] of the directory in the state. *)
Definition at_child {A} (name : string) (m : M (option node) A) : M (option node) A :=
  fun d =>
    match d with
    | Some (Dir es) =>
        let (r, c) := m (lookup name es) in
        (r, Some (Dir (set_child name c es)))
    | Some _ => (Throw ENOTDIR, d)
    | None => (Throw ENOENT, d)
    end.

Fixpoint at_path {A} (p : path) (m : M (option node) A) : M (option node) A :=
  match p with
  | [] => m
  | x :: rest => at_child x (at_path rest m)
  end.

(** [fs.mkdirSync(p, { recursive: true })] from the root of the tree. *)
Fixpoint mkdir_p (p : path) : M (option node) unit :=
  match p with
  | [] => mkdirSync
  | x :: rest => mkdirSync ;; at_child x (mkdir_p rest)
  end.

(** [fs.rmSync(p, { recursive: true, force: true })] *)
Fixpoint rmSync (p : path) (d : option node) : option node :=
  match p with
  | [] => None
  | x :: rest =>
      match d with
      | Some (Dir es) => Some (Dir (set_child x (rmSync rest (lookup x es)) es))
      | _ => d
      end
  end.

Definition write_data (env : Env) (data : string) : M (option node) unit :=
  fun d =>
    match d with
    | None | Some (File _) => (Ok tt, Some (File data))
    | Some (Dir _) => (Throw EISDIR, d)
    | Some (Special k) =>
        match write_special env k with
        | WriteFails e => (Throw e, d)
        | WriteBlocks => (Hang, d)
        | WriteAccepted => (Ok tt, d)
        end
    end.

(** [fs.copyFileSync(srcPath, destPath)]; the state is the node at
    [destPath], [src] is the node at [srcPath]. *)
Definition copyFileSync (env : Env) (src : node) : M (option node) unit :=
  match src with
  | File data => write_data env data
  | Dir _ => throw EISDIR
  | Special k =>
      match read_special env k with
      | ReadFails e => throw e
      | ReadBlocks => hang
      | ReadYields data => write_data env data
      end
  end.

(** [copyDir(src, dest)]: [src] is the node at the source path, the state
    is the node at [dest].
<<
  fs.mkdirSync(dest, { recursive: true });
  const entries = fs.readdirSync(src, { withFileTypes: true });
  for (const entry of entries) {
    const stat = fs.lstatSync(srcPath);
    if (stat.isSocket() || stat.isFIFO() ||
        stat.isCharacterDevice() || stat.isBlockDevice()) continue;
    if (entry.isDirectory()) copyDir(srcPath, destPath);
    else fs.copyFileSync(srcPath, destPath);
  }
>> *)
Fixpoint copyDir (env : Env) (src : node) {struct src} : M (option node) unit :=
  mkdirSync ;;
  match src with
  | Dir entries =>
      (fix loop (es : listing) : M (option node) unit :=
         match es with
         | [] => ret tt
         | (name, stat) :: rest =>
             (if isSocket stat || isFIFO stat ||
                 isCharacterDevice stat || isBlockDevice stat
              then ret tt
              else if isDirectory stat
                   then at_child name (copyDir env stat)
                   else at_child name (copyFileSync env stat)) ;;
             loop rest
         end) entries
  | _ => throw ENOTDIR
  end.

(** The loop that copies the items of the payload root:
<<
  fs.mkdirSync(destDir, { recursive: true });
  const items = fs.readdirSync(sourceDir);
  for (const item of items) {
    if (fs.statSync(srcPath).isDirectory()) copyDir(srcPath, destPath);
    else fs.copyFileSync(srcPath, destPath);
  }
>> *)
Definition copyItem (env : Env) (entry : string * node) : M (option node) unit :=
  let (item, stat) := entry in
  if isDirectory stat
  then at_child item (copyDir env stat)
  else at_child item (copyFileSync env stat).

Definition copyItems (env : Env) (destDir : path) (sourceDir : option node)
  : M (option node) unit :=
  mkdir_p destDir ;;
  items <- (fun d => (readdirSync sourceDir, d)) ;;
  at_path destDir (for_of items (copyItem env)).

(* ================================================================== *)
(** * The world: network, clock, temporary area, persistent tree *)

(** An archive is identified with the tree [tar -xzf] unpacks from it. *)
Definition Archive : Type := listing.

Inductive Body : Type :=
| BodyOk (a : Archive)      (* piped to the file, stream finished and closed *)
| BodyFails (e : Error).    (* 'error' on the response or on the file stream,
                               or a failing close *)

Record Response := mkResponse {
  res_statusCode : option Z;
  res_statusMessage : string;
  res_location : option string;     (* res.headers.location *)
  res_body : Body
}.

Inductive Reply : Type :=
| ReqError (e : Error)              (* 'error' on the request *)
| Resp (res : Response).

Inductive Event : Type :=
| EvGet (url : string)              (* https.get(url, ...) *)
| EvRejected (e : Error)            (* a download attempt was rejected with e *)
| EvSleep (ms : Z)                  (* sleep(ms) *)
| EvSpawn (command : string).       (* spawn(command, args, ...) *)

(** One directory made by [mkdtempSync]: the archive file and the
    extraction directory it may hold. *)
Record Scratch := mkScratch {
  archive : option Archive;
  extracted : option listing
}.

Record World := mkWorld {
  net : list Reply;
  clock : Z;                        (* milliseconds *)
  trace : list Event;               (* oldest first *)
  tmp : list (nat * Scratch);       (* directories under os.tmpdir() *)
  disk : option node
}.

Definition set_net (n : list Reply) (w : World) : World :=
  mkWorld n (clock w) (trace w) (tmp w) (disk w).
Definition set_clock (c : Z) (w : World) : World :=
  mkWorld (net w) c (trace w) (tmp w) (disk w).
Definition set_tmp (t : list (nat * Scratch)) (w : World) : World :=
  mkWorld (net w) (clock w) (trace w) t (disk w).
Definition set_disk (d : option node) (w : World) : World :=
  mkWorld (net w) (clock w) (trace w) (tmp w) d.
Definition log (e : Event) (w : World) : World :=
  mkWorld (net w) (clock w) (trace w ++ [e]) (tmp w) (disk w).

(** Run a computation on the persistent tree. *)
Definition on_disk {A} (m : M (option node) A) : M World A :=
  fun w => let (r, d) := m (disk w) in (r, set_disk d w).

(** ** The temporary area *)

Fixpoint tmp_lookup (id : nat) (t : list (nat * Scratch)) : option Scratch :=
  match t with
  | [] => None
  | (k, s) :: rest => if Nat.eqb id k then Some s else tmp_lookup id rest
  end.

Fixpoint tmp_update (id : nat) (f : Scratch -> Scratch) (t : list (nat * Scratch))
  : list (nat * Scratch) :=
  match t with
  | [] => []
  | (k, s) :: rest =>
      if Nat.eqb id k then (k, f s) :: rest else (k, s) :: tmp_update id f rest
  end.

Fixpoint tmp_remove (id : nat) (t : list (nat * Scratch)) : list (nat * Scratch) :=
  match t with
  | [] => []
  | (k, s) :: rest =>
      if Nat.eqb id k then tmp_remove id rest else (k, s) :: tmp_remove id rest
  end.

(** A name no existing temporary directory has. *)
Definition fresh (t : list (nat * Scratch)) : nat := S (list_max (map fst t)).

(** [fs.mkdtempSync(path.join(os.tmpdir(), "skia-download-"))] *)
Definition mkdtempSync : M World nat :=
  fun w =>
    let id := fresh (tmp w) in
    (Ok id, set_tmp ((id, mkScratch None None) :: tmp w) w).

(** [fs.mkdirSync(path.dirname(destPath), { recursive: true })] *)
Definition mkdir_tmp (id : nat) : M World unit :=
  fun w =>
    match tmp_lookup id (tmp w) with
    | Some _ => (Ok tt, w)
    | None => (Ok tt, set_tmp ((id, mkScratch None None) :: tmp w) w)
    end.

Definition set_archive (id : nat) (a : option Archive) (w : World) : World :=
  set_tmp (tmp_update id (fun s => mkScratch a (extracted s)) (tmp w)) w.

Definition set_extracted (id : nat) (x : option listing) (w : World) : World :=
  set_tmp (tmp_update id (fun s => mkScratch (archive s) x) (tmp w)) w.

(** [fs.rmSync(tempDir, { recursive: true, force: true })] *)
Definition rm_tmp (id : nat) : M World unit :=
  modify (fun w => set_tmp (tmp_remove id (tmp w)) w).

(** [sleep(ms)] *)
Definition sleep (ms : Z) : M World unit :=
  modify (fun w => set_clock (clock w + ms) (log (EvSleep ms) w)).

(* ================================================================== *)
(** * [downloadToFile] (identical in the three sources) *)

Definition redirect_codes : list Z := [301; 302; 303; 307; 308]%Z.

(** [res.statusCode && [301, 302, 303, 307, 308].includes(res.statusCode)] *)
Definition isRedirect (res : Response) : bool :=
  match res_statusCode res with
  | Some c => negb (Z.eqb c 0) && existsb (Z.eqb c) redirect_codes
  | None => false
  end.

(** [res.statusCode !== 200] *)
Definition not200 (res : Response) : bool :=
  match res_statusCode res with
  | Some c => negb (Z.eqb c 200)
  | None => true
  end.

Definition show_status (c : option Z) : string :=
  match c with
  | Some z => string_of_Z z
  | None => "undefined"
  end.

Definition redirectError (currentUrl : string) : Error :=
  newError ("Redirect without location for " ++ currentUrl).

Definition statusError (res : Response) : Error :=
  mkError ("Failed to download: " ++ show_status (res_statusCode res)
           ++ " " ++ res_statusMessage res)
          (res_statusCode res) None.

(** [request(currentUrl)] inside [attemptDownload]: [script] is the list
    of replies still to come, one per [https.get]. *)
Fixpoint request (script : list Reply) (destPath : nat) (currentUrl : string)
  (w : World) : outcome unit * World :=
  let w := log (EvGet currentUrl) w in
  match script with
  | [] => (Hang, w)
  | reply :: rest =>
      let w := set_net rest w in
      match reply with
      | ReqError e => (Throw e, w)
      | Resp res =>
          if isRedirect res then
            match truthy (res_location res) with
            | Some location => request rest destPath location w
            | None => (Throw (redirectError currentUrl), w)
            end
          else if not200 res then (Throw (statusError res), w)
          else
            match res_body res with
            | BodyOk a => (Ok tt, set_archive destPath (Some a) w)
            | BodyFails e => (Throw e, set_archive destPath None w)
            end
      end
  end.

Definition attemptDownload (url : string) (destPath : nat) : M World unit :=
  fun w => request (net w) destPath url w.

Definition opt_string_eqb (o : option string) (s : string) : bool :=
  match o with Some x => String.eqb x s | None => false end.

Definition opt_Z_eqb (o : option Z) (z : Z) : bool :=
  match o with Some x => Z.eqb x z | None => false end.

Definition isRateLimit (error : Error) : bool :=
  opt_Z_eqb (statusCode error) 403 || includes "rate limit" (message error).

(** The failure classes that are retried. *)
Definition isRetryable (error : Error) : bool :=
  isRateLimit error ||
  opt_string_eqb (code error) "ECONNRESET" ||
  opt_string_eqb (code error) "ETIMEDOUT".

Definition shouldRetry (retryCount maxRetries : nat) (error : Error) : bool :=
  (retryCount <? maxRetries)%nat && isRetryable error.

Definition backoff (retryCount : nat) : Z := (2 ^ Z.of_nat retryCount * 1000)%Z.

(** [downloadWithRetry(retryCount)].  [fuel] bounds the recursion depth;
    [S maxRetries - retryCount] is always enough. *)
Fixpoint downloadWithRetry (url : string) (destPath : nat) (maxRetries : nat)
  (fuel : nat) (retryCount : nat) : M World unit :=
  match fuel with
  | O => hang
  | S fuel' =>
      try_catch (attemptDownload url destPath)
        (fun error =>
           modify (log (EvRejected error)) ;;
           if shouldRetry retryCount maxRetries error
           then sleep (backoff retryCount) ;;
                downloadWithRetry url destPath maxRetries fuel' (retryCount + 1)
           else throw error)
  end.

Definition downloadToFile (url : string) (destPath : nat) (maxRetries : nat)
  : M World unit :=
  mkdir_tmp destPath ;;
  downloadWithRetry url destPath maxRetries (S maxRetries) 0.

(* ================================================================== *)
(** * [runCommand] and [extractTarGz] *)

(** The exit code in a template literal. *)
Definition show_code (c : option Z) : string :=
  match c with
  | Some z => string_of_Z z
  | None => "null"
  end.

Definition exitError (command : string) (c : option Z) : Error :=
  newError ("Command " ++ command ++ " exited with code " ++ show_code c).

(** [tar -xzf archivePath -C destDir] exiting with code 0 leaves the
    archive's tree in [destDir]. *)
Definition untar (tempDir : nat) (w : World) : World :=
  match tmp_lookup tempDir (tmp w) with
  | Some s =>
      set_extracted tempDir
        (Some (match archive s with Some a => a | None => [] end)) w
  | None => w
  end.

(** [runCommand(command, ["-xzf", archivePath, "-C", destDir])] *)
Definition runCommand (env : Env) (command : string) (tempDir : nat) : M World unit :=
  modify (log (EvSpawn command)) ;;
  match spawn env command with
  | SpawnError e => throw e
  | Closed (Some 0%Z) => modify (untar tempDir)
  | Closed c => throw (exitError command c)
  end.

(** [path.join(process.env.SystemRoot ?? "C:\\Windows", "System32", "tar.exe")] *)
Definition system32_tar (env : Env) : string :=
  match SystemRoot env with
  | Some root => root
  | None => "C:\Windows"
  end ++ "\System32\tar.exe".

Definition notFound (candidate : string) : Error :=
  newError ("Command " ++ candidate ++ " not found").

(** The loop over the candidates; the state of the loop is [lastError]. *)
Fixpoint tryCandidates (env : Env) (tempDir : nat) (candidates : list string)
  (lastError : option Error) (failure : option Error -> Error) : M World unit :=
  match candidates with
  | [] => throw (failure lastError)
  | candidate :: rest =>
      try_catch (runCommand env candidate tempDir)
        (fun err =>
           if opt_string_eqb (code err) "ENOENT"
           then tryCandidates env tempDir rest (Some (notFound candidate)) failure
           else tryCandidates env tempDir rest (Some err) failure)
  end.

(** [lastError?.message ?? "unknown error"] *)
Definition lastMessage (lastError : option Error) : string :=
  match lastError with
  | Some e => message e
  | None => "unknown error"
  end.

(** [fs.mkdirSync(destDir, { recursive: true })] for the extraction
    directory of a scratch directory. *)
Definition mkdir_extracted (tempDir : nat) : M World unit :=
  fun w =>
    match tmp_lookup tempDir (tmp w) with
    | Some s =>
        match extracted s with
        | Some _ => (Ok tt, w)
        | None => (Ok tt, set_extracted tempDir (Some []) w)
        end
    | None => (Ok tt, set_tmp ((tempDir, mkScratch None (Some [])) :: tmp w) w)
    end.

(** The listing of the extraction directory. *)
Definition read_extracted (tempDir : nat) : M World listing :=
  fun w =>
    match tmp_lookup tempDir (tmp w) with
    | Some s =>
        match extracted s with
        | Some es => (Ok es, w)
        | None => (Throw ENOENT, w)
        end
    | None => (Throw ENOENT, w)
    end.

(* ================================================================== *)
(** * Payload discovery *)

Definition child_of (dir : node) (name : string) : option node :=
  match dir with
  | Dir es => lookup name es
  | _ => None
  end.

(** [generate-packages.ts] and [postinstall.mjs]:
<<
  let sourceDir = extractDir;
  if (extractedContents.length === 1 &&
      fs.statSync(path.join(extractDir, extractedContents[0])).isDirectory()) {
    sourceDir = path.join(extractDir, extractedContents[0]);
    if (srcSubdir &&
        fs.existsSync(path.join(sourceDir, srcSubdir)) &&
        fs.statSync(path.join(sourceDir, srcSubdir)).isDirectory()) {
      sourceDir = path.join(sourceDir, srcSubdir);
    }
  }
>>
    The result is the node [sourceDir] designates; [srcSubdir] is a single
    path component. *)
Definition locatePayload (extractedContents : listing) (srcSubdir : option string)
  : node :=
  let extractDir := Dir extractedContents in
  match extractedContents with
  | [(_, top)] =>
      if isDirectory top then
        match truthy srcSubdir with
        | Some sub =>
            match child_of top sub with
            | Some inner => if isDirectory inner then inner else top
            | None => top
            end
        | None => top
        end
      else extractDir
  | _ => extractDir
  end.

(** [download-binaries.ts]: the same, without the [isDirectory] test on
    the subdirectory. *)
Definition locatePayload_exists (extractedContents : listing)
  (srcSubdir : option string) : node :=
  let extractDir := Dir extractedContents in
  match extractedContents with
  | [(_, top)] =>
      if isDirectory top then
        match truthy srcSubdir with
        | Some sub =>
            match child_of top sub with
            | Some inner => inner
            | None => top
            end
        | None => top
        end
      else extractDir
  | _ => extractDir
  end.

Definition noContents : Error := newError "Archive extracted but no contents found".

(* ================================================================== *)
(** * generate-packages.ts *)

Module GeneratePackages.

Definition REPO : string := "shopify/react-native-skia".

Definition candidates (env : Env) : list string :=
  if win32 env then ["tar.exe"; system32_tar env] else ["tar"].

Definition extractFailure (lastError : option Error) : Error :=
  newError ("Failed to extract: " ++ lastMessage lastError).

Definition extractTarGz (env : Env) (tempDir : nat) : M World unit :=
  mkdir_extracted tempDir ;;
  tryCandidates env tempDir (candidates env) None extractFailure.

Definition assetName (artifact releaseTag : string) : string :=
  artifact ++ "-" ++ releaseTag ++ ".tar.gz".

Definition downloadUrl (artifact releaseTag : string) : string :=
  "https://github.com/" ++ REPO ++ "/releases/download/" ++ releaseTag
  ++ "/" ++ assetName artifact releaseTag.

(** The body of the [try] block of [downloadAndExtractAsset]. *)
Definition stage (env : Env) (url : string) (tempDir : nat) (destDir : path)
  (srcSubdir : option string) : M World unit :=
  downloadToFile url tempDir 5 ;;
  extractTarGz env tempDir ;;
  extractedContents <- read_extracted tempDir ;;
  (if (length extractedContents =? 0)%nat then throw noContents else ret tt) ;;
  let sourceDir := locatePayload extractedContents srcSubdir in
  on_disk (copyItems env destDir (Some sourceDir)) ;;
  rm_tmp tempDir.

Definition downloadAndExtractAsset (env : Env) (artifact releaseTag : string)
  (destDir : path) (srcSubdir : option string) : M World unit :=
  tempDir <- mkdtempSync ;;
  try_catch
    (stage env (downloadUrl artifact releaseTag) tempDir destDir srcSubdir)
    (fun error => rm_tmp tempDir ;; throw error).

End GeneratePackages.

(* ================================================================== *)
(** * download-binaries.ts *)

Module DownloadBinaries.

Definition REPO : string := "shopify/react-native-skia".

Record ArchConfig := mkArchConfig {
  artifact : string;
  destSubdir : string;
  srcSubdir : string
}.

Definition candidates (env : Env) : list string :=
  if win32 env then ["tar.exe"; system32_tar env] else ["tar"].

Definition extractFailure (lastError : option Error) : Error :=
  newError ("Failed to extract: " ++ lastMessage lastError).

Definition extractTarGz (env : Env) (tempDir : nat) : M World unit :=
  mkdir_extracted tempDir ;;
  tryCandidates env tempDir (candidates env) None extractFailure.

Definition releaseTag (skiaVersion : string) (graphite : bool) : string :=
  if graphite then "skia-graphite-" ++ skiaVersion else "skia-" ++ skiaVersion.

Definition assetName (archConfig : ArchConfig) (skiaVersion : string)
  (graphite : bool) : string :=
  artifact archConfig ++ "-" ++ releaseTag skiaVersion graphite ++ ".tar.gz".

Definition downloadUrl (archConfig : ArchConfig) (skiaVersion : string)
  (graphite : bool) : string :=
  "https://github.com/" ++ REPO ++ "/releases/download/"
  ++ releaseTag skiaVersion graphite ++ "/"
  ++ assetName archConfig skiaVersion graphite.

(** [archConfig.destSubdir ? path.join(outputDir, archConfig.destSubdir) : outputDir] *)
Definition destDir (archConfig : ArchConfig) (outputDir : path) : path :=
  match truthy (Some (destSubdir archConfig)) with
  | Some sub => (outputDir ++ [sub])%list
  | None => outputDir
  end.

(** The body of the [try] block of [downloadArtifact]. *)
Definition stage (env : Env) (url : string) (tempDir : nat) (dest : path)
  (sub : string) : M World unit :=
  downloadToFile url tempDir 5 ;;
  extractTarGz env tempDir ;;
  extractedContents <- read_extracted tempDir ;;
  let sourceDir := locatePayload_exists extractedContents (Some sub) in
  on_disk (copyItems env dest (Some sourceDir)) ;;
  rm_tmp tempDir.

Definition downloadArtifact (env : Env) (archConfig : ArchConfig)
  (skiaVersion : string) (outputDir : path) (graphite : bool) : M World unit :=
  tempDir <- mkdtempSync ;;
  try_catch
    (stage env (downloadUrl archConfig skiaVersion graphite) tempDir
       (destDir archConfig outputDir) (srcSubdir archConfig))
    (fun error => rm_tmp tempDir ;; throw error).

End DownloadBinaries.

(* ================================================================== *)
(** * postinstall.mjs *)

Module Postinstall.

Record AndroidArch := mkAndroidArch {
  arch : string;
  arch_assetName : string;
  srcSubdir : option string
}.

(** The [skia] section of the package's [package.json]. *)
Record Skia := mkSkia {
  repo : string;
  releaseTag : string;
  platform : string;
  androidArchs : option (list AndroidArch);
  assetName : option string;
  libSubdir : option string
}.

(** [path.join(__dirname, "libs")]; the persistent tree is rooted at
    the package directory. *)
Definition libsDir : path := ["libs"].

Definition typeError : Error :=
  newError "Cannot read properties of undefined (reading 'some')".

(** [xs.some(f)] for a callback that may throw. *)
Fixpoint some {A} (f : A -> outcome bool) (xs : list A) : outcome bool :=
  match xs with
  | [] => Ok false
  | x :: rest =>
      match f x with
      | Ok false => some f rest
      | other => other
      end
  end.

Definition archInstalled (d : option node) (a : AndroidArch) : outcome bool :=
  let archDir := (libsDir ++ [arch a])%list in
  if negb (existsSync archDir d) then Ok false
  else
    match readdirSync (lookup_path archDir d) with
    | Ok files => Ok (existsb (endsWith ".a") (names files))
    | Throw e => Throw e
    | Hang => Hang
    end.

Definition isInstalled (skia : Skia) (d : option node) : outcome bool :=
  if negb (existsSync libsDir d) then Ok false
  else
    match readdirSync (lookup_path libsDir d) with
    | Ok entries =>
        if (length entries =? 0)%nat then Ok false
        else if String.eqb (platform skia) "android" then
          match androidArchs skia with
          | Some archs => some (archInstalled d) archs
          | None => Throw typeError
          end
        else if String.eqb (platform skia) "apple" then
          Ok (existsb (endsWith ".xcframework") (names entries))
        else Ok (0 <? length entries)%nat
    | Throw e => Throw e
    | Hang => Hang
    end.

Definition candidates (env : Env) : list string :=
  if win32 env
  then ["tar.exe"; system32_tar env; "bsdtar.exe"; "bsdtar"]
  else ["tar"].

Definition extractFailure (asset : string) (lastError : option Error) : Error :=
  newError ("Failed to extract " ++ asset
            ++ ". Please install a compatible tar binary. Last error: "
            ++ lastMessage lastError).

Definition extractTarGz (env : Env) (asset : string) (tempDir : nat) : M World unit :=
  mkdir_extracted tempDir ;;
  tryCandidates env tempDir (candidates env) None (extractFailure asset).

Definition downloadUrl (skia : Skia) (asset : string) : string :=
  "https://github.com/" ++ repo skia ++ "/releases/download/"
  ++ releaseTag skia ++ "/" ++ asset.

(** The body of the [try] block of [downloadAndExtractAsset]. *)
Definition stage (env : Env) (skia : Skia) (asset : string) (tempDir : nat)
  (destDir : path) (srcSubdir : option string) : M World unit :=
  downloadToFile (downloadUrl skia asset) tempDir 5 ;;
  extractTarGz env asset tempDir ;;
  extractedContents <- read_extracted tempDir ;;
  (if (length extractedContents =? 0)%nat then throw noContents else ret tt) ;;
  let sourceDir := locatePayload extractedContents srcSubdir in
  on_disk (copyItems env destDir (Some sourceDir)) ;;
  rm_tmp tempDir.

Definition downloadAndExtractAsset (env : Env) (skia : Skia) (asset : string)
  (destDir : path) (srcSubdir : option string) : M World unit :=
  tempDir <- mkdtempSync ;;
  try_catch
    (stage env skia asset tempDir destDir srcSubdir)
    (fun error => rm_tmp tempDir ;; throw error).

(** The body of the [try] block of [main]. *)
Definition install (env : Env) (skia : Skia) : M World unit :=
  on_disk (fun d =>
    if existsSync libsDir d then (Ok tt, rmSync libsDir d) else (Ok tt, d)) ;;
  on_disk (mkdir_p libsDir) ;;
  if String.eqb (platform skia) "android" then
    match androidArchs skia with
    | Some archs =>
        for_of archs (fun a =>
          downloadAndExtractAsset env skia (arch_assetName a)
            (libsDir ++ [arch a])%list (srcSubdir a))
    | None =>
        match truthy (assetName skia) with
        | Some asset => downloadAndExtractAsset env skia asset libsDir (libSubdir skia)
        | None => ret tt
        end
    end
  else
    match truthy (assetName skia) with
    | Some asset => downloadAndExtractAsset env skia asset libsDir (libSubdir skia)
    | None => ret tt
    end.

(** [main()]: the value is the exit status of the process. *)
Definition main (env : Env) (skia : Skia) : M World Z :=
  try_catch
    (install env skia ;; ret 0%Z)
    (fun error =>
       modify (fun w => set_disk (rmSync libsDir (disk w)) w) ;;
       ret 1%Z).

(** [process.env.SKIP_SKIA_DOWNLOAD === "1" || ... === "true"] *)
Definition skipDownload (env : Env) : bool :=
  opt_string_eqb (SKIP_SKIA_DOWNLOAD env) "1" ||
  opt_string_eqb (SKIP_SKIA_DOWNLOAD env) "true".

(** The script, top to bottom.  [Ok status] is the exit status of the
    process; [Throw e] is an exception nothing catches, on which Node
    terminates the process with a non-zero status. *)
Definition script (env : Env) (skia : Skia) : M World Z :=
  if skipDownload env then ret 0%Z
  else
    installed <- (fun w => (isInstalled skia (disk w), w)) ;;
    if installed then ret 0%Z
    else main env skia.

End Postinstall.

(* ================================================================== *)
(** * Observations on traces *)

Fixpoint sleeps (tr : list Event) : list Z :=
  match tr with
  | [] => []
  | EvSleep ms :: rest => ms :: sleeps rest
  | _ :: rest => sleeps rest
  end.

Fixpoint requests (tr : list Event) : list string :=
  match tr with
  | [] => []
  | EvGet url :: rest => url :: requests rest
  | _ :: rest => requests rest
  end.

Fixpoint spawns (tr : list Event) : list string :=
  match tr with
  | [] => []
  | EvSpawn c :: rest => c :: spawns rest
  | _ :: rest => spawns rest
  end.

Fixpoint rejections (tr : list Event) : list Error :=
  match tr with
  | [] => []
  | EvRejected e :: rest => e :: rejections rest
  | _ :: rest => rejections rest
  end.

(** The events other than requests. *)
Fixpoint control (tr : list Event) : list Event :=
  match tr with
  | [] => []
  | EvGet _ :: rest => control rest
  | ev :: rest => ev :: control rest
  end.

(** The retry protocol, in the words of the specification: before the
    (k+1)-th retry, k counted from 0, the failure of the attempt is
    followed by a sleep of 2^k seconds. *)
Definition seconds (n : Z) : Z := (n * 1000)%Z.

Fixpoint retry_events (k : nat) (errs : list Error) : list Event :=
  match errs with
  | [] => []
  | e :: rest =>
      EvRejected e :: EvSleep (seconds (2 ^ Z.of_nat k)) :: retry_events (S k) rest
  end.

Definition final_events (r : outcome unit) : list Event :=
  match r with
  | Throw e => [EvRejected e]
  | _ => []
  end.

Definition sum (l : list Z) : Z := fold_right Z.add 0%Z l.

(** A reply that is a response with the given status code. *)
Definition has_status (c : Z) (reply : Reply) : bool :=
  match reply with
  | Resp res => opt_Z_eqb (res_statusCode res) c
  | ReqError _ => false
  end.

(** The whole trace of a call, round by round: the requests of an
    attempt (the first to [url], the others to redirect targets), its
    rejection, and the sleep before the next attempt. *)
Fixpoint retry_rounds (url : string) (k : nat) (rounds : list (list string * Error))
  : list Event :=
  match rounds with
  | [] => []
  | (redirects, e) :: rest =>
      (map EvGet (url :: redirects)
       ++ EvRejected e :: EvSleep (seconds (2 ^ Z.of_nat k))
       :: retry_rounds url (S k) rest)%list
  end.


(* ================================================================== *)
(** * Example inputs *)

Module Examples.

Definition env : Env :=
  mkEnv false None None
    (fun _ => Closed (Some 0%Z)) (fun _ => ReadBlocks) (fun _ => WriteBlocks).

Definition reply (status : Z) (text : string) (location : option string)
  (a : Archive) : Reply :=
  Resp (mkResponse (Some status) text location (BodyOk a)).

Definition rate_limited : Reply := reply 403 "rate limited" None [].

Definition frameworks : listing :=
  [("libskia.framework", Dir [("libskia", File "skia")]);
   ("libsvg.framework", Dir [("libsvg", File "svg")])].

Definition wrapped : Archive := [("wrapper", Dir [("ios", Dir frameworks)])].

Definition world (script : list Reply) : World := mkWorld script 0 [] [] None.



(** A host without any tar program. *)
Definition no_tar : Env :=
  mkEnv true None None
    (fun _ => SpawnError (mkError "spawn ENOENT" None (Some "ENOENT")))
    (fun _ => ReadBlocks) (fun _ => WriteBlocks).

Definition url : string := "https://example.com/skia.tar.gz".

Definition ok (a : Archive) : Reply := reply 200 "OK" None a.


End Examples.

(* ================================================================== *)
(** * Vocabulary for the extraction step *)

(** The candidate program runs and exits with code 0. *)
Definition runs_ok (env : Env) (candidate : string) : bool :=
  match spawn env candidate with
  | Closed (Some 0%Z) => true
  | _ => false
  end.

(** The error kept in [lastError] for a candidate that did not: a
    missing program is recorded as "Command <name> not found". *)
Definition recorded (env : Env) (candidate : string) : Error :=
  match spawn env candidate with
  | SpawnError e =>
      if opt_string_eqb (code e) "ENOENT" then notFound candidate else e
  | Closed c => exitError candidate c
  end.

Definition last_recorded (env : Env) (candidates : list string)
  (init : option Error) : option Error :=
  fold_left (fun _ c => Some (recorded env c)) candidates init.

Definition log_spawns (candidates : list string) (w : World) : World :=
  fold_left (fun w c => log (EvSpawn c) w) candidates w.

Definition all_fail (env : Env) (candidates : list string) : bool :=
  forallb (fun c => negb (runs_ok env c)) candidates.

(* ================================================================== *)
(** * Vocabulary for the staging pipeline *)

(** A computation that leaves an observation of the world unchanged,
    however it ends. *)
Definition preserves {A X} (obs : World -> X) (m : M World A) : Prop :=
  forall w r w', m w = (r, w') -> obs w' = obs w.

(** The temporary area, the directory [tempDir] left out. *)
Definition other_tmp (tempDir : nat) (w : World) : list (nat * Scratch) :=
  tmp_remove tempDir (tmp w).

(** A computation after which, when it returns, [tempDir] is gone. *)
Definition ends_clean {A} (t : nat) (m : M World A) : Prop :=
  forall w a w', m w = (Ok a, w') -> tmp_lookup t (tmp w') = None.

(** The first steps of the three [try] blocks: download, extract, list
    the extraction directory. *)
Definition fetch (extract : nat -> M World unit) (url : string) (tempDir : nat)
  : M World listing :=
  downloadToFile url tempDir 5 ;;
  extract tempDir ;;
  read_extracted tempDir.

(** One round of the loop of [copyDir]. *)
Definition copyEntry (env : Env) (entry : string * node) : M (option node) unit :=
  let (name, stat) := entry in
  if isSocket stat || isFIFO stat || isCharacterDevice stat || isBlockDevice stat
  then ret tt
  else if isDirectory stat
       then at_child name (copyDir env stat)
       else at_child name (copyFileSync env stat).

(** A computation that, started on a directory, leaves a directory. *)
Definition keeps_dir (m : M (option node) unit) : Prop :=
  forall es r d, m (Some (Dir es)) = (r, d) -> exists es', d = Some (Dir es').




(* ================================================================== *)
(** * Vocabulary for the installation check *)




Module InstallExamples.

Definition archs : list Postinstall.AndroidArch :=
  [Postinstall.mkAndroidArch "armeabi-v7a" "skia-android-arm.tar.gz" (Some "armeabi-v7a");
   Postinstall.mkAndroidArch "arm64-v8a" "skia-android-arm-64.tar.gz" (Some "arm64-v8a")].

Definition android : Postinstall.Skia :=
  Postinstall.mkSkia "shopify/react-native-skia" "skia-m144" "android"
    (Some archs) None None.



Definition world (d : option node) : World := mkWorld [] 0 [] [] d.

End InstallExamples.

(* ================================================================== *)
(** * Vocabulary for the copy *)

Definition isSpecial (n : node) : bool :=
  isSocket n || isFIFO n || isCharacterDevice n || isBlockDevice n.

(** A tree without its special files, at any depth. *)
Fixpoint prune (n : node) : node :=
  match n with
  | Dir es =>
      Dir ((fix go (es : listing) : listing :=
              match es with
              | [] => []
              | (k, c) :: rest =>
                  if isSpecial c then go rest else (k, prune c) :: go rest
              end) es)
  | other => other
  end.

Definition prune_entries (es : listing) : listing :=
  flat_map (fun e => if isSpecial (snd e) then [] else [(fst e, prune (snd e))]) es.

(** No directory of the tree lists a name twice. *)
Fixpoint well_formed (n : node) : Prop :=
  match n with
  | Dir es =>
      NoDup (names es) /\
      (fix all (es : listing) : Prop :=
         match es with
         | [] => True
         | (_, c) :: rest => well_formed c /\ all rest
         end) es
  | _ => True
  end.

(** A payload root with a regular file and a special file side by side. *)
Definition with_special (data : string) (k : special) : listing :=
  [("libskia.a", File data); ("pipe", Special k)].

From Stdlib Require DecimalPos DecimalZ.
From Stdlib Require Import Permutation Sorted.

(* ================================================================== *)
(** * Vocabulary for the further properties *)

(** The archive file of a scratch directory, if the file is there. *)
Definition archive_at (tempDir : nat) (w : World) : option Archive :=
  match tmp_lookup tempDir (tmp w) with
  | Some s => archive s
  | None => None
  end.


(** A response that completes a download with archive [a]. *)
Definition delivers (res : Response) (a : Archive) : Prop :=
  res_statusCode res = Some 200%Z /\ res_body res = BodyOk a.

(** ** The shape of the copy loops

    Each round of a copy loop either does nothing or runs a computation
    on the destination entry that has the name of the source entry. *)
Definition round (skip : string * node -> bool)
    (act : string * node -> M (option node) unit)
    (e : string * node) : M (option node) unit :=
  if skip e then ret tt else at_child (fst e) (act e).

(** An entry on which a round has nothing left to do. *)
Definition done_with (skip : string * node -> bool)
    (act : string * node -> M (option node) unit)
    (acc : listing) (e : string * node) : Prop :=
  skip e = true \/ act e (lookup (fst e) acc) = (Ok tt, lookup (fst e) acc).

(** What both loops do with an entry that is not skipped. *)
Definition entry_copy (env : Env) (e : string * node) : M (option node) unit :=
  if isDirectory (snd e) then copyDir env (snd e) else copyFileSync env (snd e).

(** ** Observations on the persistent tree *)

(** The top-level entry [name] of the tree. *)
Definition top_entry (name : string) (d : option node) : option node :=
  lookup_path [name] d.

(** A computation on the tree that leaves the top-level entry [name] as
    it was, whatever its outcome. *)
Definition keeps_entry {A} (name : string) (m : M (option node) A) : Prop :=
  forall d r d', m d = (r, d') -> top_entry name d' = top_entry name d.


Definition is_dir (o : option node) : Prop := exists es, o = Some (Dir es).

(** A computation that, when it returns or throws, leaves the temporary
    area as it found it. *)
Definition restores_tmp {A} (m : M World A) : Prop :=
  forall w r w', m w = (r, w') -> settled r = true -> tmp w' = tmp w.

(** ** What a copy never does *)

(** The node [after] stands where [before] stood and is of the same
    kind: a regular file is still a regular file, a directory still a
    directory, a special file the same special file.  Nothing is asked
    where nothing stood. *)
Definition persists (before after : option node) : Prop :=
  match before with
  | None => True
  | Some (File _) => exists data, after = Some (File data)
  | Some (Dir _) => exists es, after = Some (Dir es)
  | Some (Special k) => after = Some (Special k)
  end.

(** Every path of [d] is still there in [d'], with its kind. *)
Definition grows (d d' : option node) : Prop :=
  forall p, persists (lookup_path p d) (lookup_path p d').

Definition monotone {A} (m : M (option node) A) : Prop :=
  forall d r d', m d = (r, d') -> grows d d'.

(** A computation on the world whose effect on the persistent tree is
    related by [R], whatever its outcome. *)
Definition disk_related {A} (R : option node -> option node -> Prop)
    (m : M World A) : Prop :=
  forall w r w', m w = (r, w') -> R (disk w) (disk w').

(* ================================================================== *)
(** * Command lines ([parseArgs], identical in the four scripts)
<<
  const args: Args = {};
  for (const arg of process.argv.slice(2)) {
    if (arg.startsWith("--")) {
      const [key, value] = arg.slice(2).split("=");
      args[key] = value ?? true;
    }
  }
  return args;
>> *)

(** The values of [Args]: a string, or [true] for a bare flag. *)
Inductive ArgValue : Type :=
| ArgString (s : string)
| ArgTrue.

(** The own properties of the [args] object, the latest assignment
    first. *)
Definition Args : Type := list (string * ArgValue).

(** [s.split(sep)] for a one-character separator: never empty. *)
Fixpoint split (sep : ascii) (s : string) : list string :=
  match s with
  | EmptyString => [EmptyString]
  | String c rest =>
      if Ascii.eqb c sep then EmptyString :: split sep rest
      else
        match split sep rest with
        | head :: tail => String c head :: tail
        | [] => [String c EmptyString]
        end
  end.

(** [arg.slice(2)] *)
Definition slice2 (arg : string) : string :=
  match arg with
  | String _ (String _ rest) => rest
  | _ => EmptyString
  end.

(** [args[key] = value]: assigning a primitive to [__proto__] goes to
    the setter of [Object.prototype], which ignores it. *)
Definition assign (key : string) (value : ArgValue) (args : Args) : Args :=
  if String.eqb key "__proto__" then args else (key, value) :: args.

Definition parseArg (args : Args) (arg : string) : Args :=
  if String.prefix "--" arg then
    match split "=" (slice2 arg) with
    | key :: value :: _ => assign key (ArgString value) args
    | [key] => assign key ArgTrue args
    | [] => args
    end
  else args.

Definition parseArgs (argv : list string) : Args := fold_left parseArg argv [].

(** [args[key]] for a [key] that [Object.prototype] does not have. *)
Fixpoint get (key : string) (args : Args) : option ArgValue :=
  match args with
  | [] => None
  | (k, v) :: rest => if String.eqb key k then Some v else get key rest
  end.

(** Truthiness: [undefined] and the empty string are falsy. *)
Definition given (v : option ArgValue) : option ArgValue :=
  match v with
  | Some (ArgString EmptyString) => None
  | other => other
  end.

(** [v === true] *)
Definition isTrue (v : option ArgValue) : bool :=
  match v with
  | Some ArgTrue => true
  | _ => false
  end.

(** The value in a template literal or as a property key. *)
Definition text (v : ArgValue) : string :=
  match v with
  | ArgString s => s
  | ArgTrue => "true"
  end.

(** How the host reads a path given on the command line, and where the
    scripts live. *)
Record Host := mkHost {
  resolve : string -> path;   (* the directory a path string designates *)
  ROOT_DIR : path             (* path.join(__dirname, "..") *)
}.

(** [(args["output-dir"] as string) || path.join(ROOT_DIR, dflt)] *)
Inductive OutputDir : Type :=
| FromArgs (v : ArgValue)
| Default (dflt : string).

Definition outputDirOf (args : Args) (dflt : string) : OutputDir :=
  match given (get "output-dir" args) with
  | Some v => FromArgs v
  | None => Default dflt
  end.

Definition dquote : string := String (ascii_of_nat 34) EmptyString.

(** What [path.join] throws on an argument that is not a string. *)
Definition invalidArgType : Error :=
  mkError ("The " ++ dquote ++ "path" ++ dquote
           ++ " argument must be of type string. Received type boolean (true)")
    None (Some "ERR_INVALID_ARG_TYPE").

(** [path.join(outputDir, name)] for a [name] of one component. *)
Definition join (host : Host) (outputDir : OutputDir) (name : string) : outcome path :=
  match outputDir with
  | FromArgs (ArgString s) => Ok (resolve host s ++ [name])%list
  | FromArgs ArgTrue => Throw invalidArgType
  | Default dflt => Ok (ROOT_DIR host ++ [dflt; name])%list
  end.

(** A value that is there or throws, as a computation. *)
Definition lift {S A} (r : outcome A) : M S A := fun s => (r, s).

(** The names every object inherits from [Object.prototype]. *)
Definition prototypeKeys : list string :=
  ["constructor"; "__defineGetter__"; "__defineSetter__"; "hasOwnProperty";
   "__lookupGetter__"; "__lookupSetter__"; "isPrototypeOf";
   "propertyIsEnumerable"; "toString"; "valueOf"; "__proto__"; "toLocaleString"].

(* ================================================================== *)
(** * The entry point of download-binaries.ts *)

Module DownloadBinariesMain.

Import DownloadBinaries.

Definition PlatformConfig : Type := list ArchConfig.   (* the [artifacts] *)

Definition GANESH_PLATFORMS : list (string * PlatformConfig) :=
  [("android",
    [mkArchConfig "skia-android-arm" "armeabi-v7a" "armeabi-v7a";
     mkArchConfig "skia-android-arm-64" "arm64-v8a" "arm64-v8a";
     mkArchConfig "skia-android-arm-x86" "x86" "x86";
     mkArchConfig "skia-android-arm-x64" "x86_64" "x86_64"]);
   ("apple-ios", [mkArchConfig "skia-apple-ios-xcframeworks" "" "ios"]);
   ("apple-tvos", [mkArchConfig "skia-apple-tvos-xcframeworks" "" "tvos"]);
   ("apple-macos", [mkArchConfig "skia-apple-macos-xcframeworks" "" "macos"])].

Definition GRAPHITE_PLATFORMS : list (string * PlatformConfig) :=
  [("android",
    [mkArchConfig "skia-graphite-android-arm" "armeabi-v7a" "arm";
     mkArchConfig "skia-graphite-android-arm-64" "arm64-v8a" "arm64";
     mkArchConfig "skia-graphite-android-arm-x86" "x86" "x86";
     mkArchConfig "skia-graphite-android-arm-x64" "x86_64" "x64"]);
   ("apple-ios", [mkArchConfig "skia-graphite-apple-ios-xcframeworks" "" "ios"]);
   ("apple-macos", [mkArchConfig "skia-graphite-apple-macos-xcframeworks" "" "macos"]);
   ("headers", [mkArchConfig "skia-graphite-headers" "" ""])].

Fixpoint own (key : string) (platforms : list (string * PlatformConfig))
  : option PlatformConfig :=
  match platforms with
  | [] => None
  | (k, config) :: rest => if String.eqb key k then Some config else own key rest
  end.

(** [platforms[key]]: an own entry, or a member of [Object.prototype]
    (a truthy value without [artifacts], here [Some None]), or
    [undefined]. *)
Definition member (key : string) (platforms : list (string * PlatformConfig))
  : option (option PlatformConfig) :=
  match own key platforms with
  | Some config => Some (Some config)
  | None => if existsb (String.eqb key) prototypeKeys then Some None else None
  end.

Definition notIterable : Error := newError "config.artifacts is not iterable".

(** The loop over [Object.entries(platformsToDownload)]; the value is
    the exit status.
<<
  for (const [name, config] of Object.entries(platformsToDownload)) {
    const platformDir = path.join(outputDir, name);
    try {
      for (const archConfig of config.artifacts) {
        await downloadArtifact(archConfig, skiaVersion, platformDir, graphite);
      }
    } catch (error) {
      process.exit(1);
    }
  }
>> *)
Fixpoint downloadPlatforms (host : Host) (env : Env) (skiaVersion : string)
    (outputDir : OutputDir) (graphite : bool)
    (entries : list (string * option PlatformConfig)) : M World Z :=
  match entries with
  | [] => ret 0%Z
  | (name, config) :: rest =>
      platformDir <- lift (join host outputDir name) ;;
      failed <-
        try_catch
          (match config with
           | Some artifacts =>
               for_of artifacts (fun archConfig =>
                 downloadArtifact env archConfig skiaVersion platformDir graphite)
           | None => throw notIterable
           end ;;
           ret false)
          (fun error => ret true) ;;
      if failed then ret 1%Z
      else downloadPlatforms host env skiaVersion outputDir graphite rest
  end.

(** [main()]: the value is the exit status of the process; a [Throw]
    is a rejection nothing handles. *)
Definition main (host : Host) (env : Env) (argv : list string) : M World Z :=
  let args := parseArgs argv in
  match given (get "skia-version" args) with
  | None => ret 1%Z
  | Some version =>
      let skiaVersion := text version in
      let graphite := isTrue (get "graphite" args) in
      let outputDir := outputDirOf args "libs" in
      let platforms := if graphite then GRAPHITE_PLATFORMS else GANESH_PLATFORMS in
      match given (get "platform" args) with
      | Some specificPlatform =>
          match member (text specificPlatform) platforms with
          | None => ret 1%Z
          | Some config =>
              downloadPlatforms host env skiaVersion outputDir graphite
                [(text specificPlatform, config)]
          end
      | None =>
          downloadPlatforms host env skiaVersion outputDir graphite
            (map (fun entry => (fst entry, Some (snd entry))) platforms)
      end
  end.

End DownloadBinariesMain.

(* ================================================================== *)
(** * Package generation (generate-packages.ts) *)

Definition nl : string := String (ascii_of_nat 10) EmptyString.

(** [xs.join(sep)] *)
Fixpoint joinWith (sep : string) (xs : list string) : string :=
  match xs with
  | [] => EmptyString
  | [x] => x
  | x :: rest => x ++ sep ++ joinWith sep rest
  end.

(** [fs.writeFileSync(path, data)]: [fs.copyFileSync] has the same
    effect on the destination. *)
Definition writeFileSync (env : Env) (p : path) (data : string) : M (option node) unit :=
  at_path p (write_data env data).

(** [fs.appendFileSync(path, data)] on the node at [path]. *)
Definition append_data (env : Env) (data : string) : M (option node) unit :=
  fun d =>
    match d with
    | None => (Ok tt, Some (File data))
    | Some (File old) => (Ok tt, Some (File (old ++ data)))
    | Some (Dir _) => (Throw EISDIR, d)
    | Some (Special k) =>
        match write_special env k with
        | WriteFails e => (Throw e, d)
        | WriteBlocks => (Hang, d)
        | WriteAccepted => (Ok tt, d)
        end
    end.

(** [fs.readFileSync(path, "utf8")] on the node at [path]. *)
Definition readFileSync (env : Env) (o : option node) : outcome string :=
  match o with
  | Some (File data) => Ok data
  | Some (Dir _) => Throw EISDIR
  | Some (Special k) =>
      match read_special env k with
      | ReadFails e => Throw e
      | ReadBlocks => Hang
      | ReadYields data => Ok data
      end
  | None => Throw ENOENT
  end.

Module GeneratePackagesMain.

Record AndroidArch := mkAndroidArch {
  arch : string;
  arch_artifact : string;
  srcSubdir : string
}.

Record PackageConfig := mkPackageConfig {
  name : string;
  platform : string;   (* "android" | "apple" | "common" *)
  description : string;
  androidArchs : option (list AndroidArch);
  artifact : option string;
  libSubdir : option string
}.

Definition GANESH_PACKAGES : list PackageConfig :=
  [mkPackageConfig "android" "android"
     "Skia prebuilt binaries for Android (all architectures)"
     (Some [mkAndroidArch "armeabi-v7a" "skia-android-arm" "armeabi-v7a";
            mkAndroidArch "arm64-v8a" "skia-android-arm-64" "arm64-v8a";
            mkAndroidArch "x86" "skia-android-arm-x86" "x86";
            mkAndroidArch "x86_64" "skia-android-arm-x64" "x86_64"])
     None None;
   mkPackageConfig "apple-ios" "apple"
     "Skia prebuilt binaries for iOS (device + simulator)"
     None (Some "skia-apple-ios-xcframeworks") (Some "ios");
   mkPackageConfig "apple-tvos" "apple"
     "Skia prebuilt binaries for tvOS (device + simulator)"
     None (Some "skia-apple-tvos-xcframeworks") (Some "tvos");
   mkPackageConfig "apple-macos" "apple"
     "Skia prebuilt binaries for macOS (arm64 + x64)"
     None (Some "skia-apple-macos-xcframeworks") (Some "macos")].

Definition GRAPHITE_PACKAGES : list PackageConfig :=
  [mkPackageConfig "android" "android"
     "Skia Graphite prebuilt binaries for Android (all architectures)"
     (Some [mkAndroidArch "armeabi-v7a" "skia-graphite-android-arm" "arm";
            mkAndroidArch "arm64-v8a" "skia-graphite-android-arm-64" "arm64";
            mkAndroidArch "x86" "skia-graphite-android-arm-x86" "x86";
            mkAndroidArch "x86_64" "skia-graphite-android-arm-x64" "x64"])
     None None;
   mkPackageConfig "apple-ios" "apple"
     "Skia Graphite prebuilt binaries for iOS (device + simulator)"
     None (Some "skia-graphite-apple-ios-xcframeworks") (Some "ios");
   mkPackageConfig "apple-macos" "apple"
     "Skia Graphite prebuilt binaries for macOS (arm64 + x64)"
     None (Some "skia-graphite-apple-macos-xcframeworks") (Some "macos");
   mkPackageConfig "headers" "common"
     "Skia Graphite headers for Dawn/WebGPU"
     None (Some "skia-graphite-headers") (Some "headers")].

Definition prefix_of (graphite : bool) : string :=
  if graphite then "skia-graphite" else "skia".

Definition getPackageName (pkg : PackageConfig) (graphite : bool) : string :=
  "react-native-" ++ prefix_of graphite ++ "-" ++ name pkg.

Record Repository := mkRepository {
  repository_type : string;
  url : string;
  directory : string
}.

Record SkiaInfo := mkSkiaInfo {
  skia_version : string;
  skia_platform : string;
  skia_graphite : bool
}.

Record GeneratedPackageJson := mkGeneratedPackageJson {
  json_name : string;
  version : string;
  json_description : string;
  license : string;
  repository : Repository;
  publishConfig_access : string;
  files : list string;
  skia : SkiaInfo
}.

Definition generatePackageJson (pkg : PackageConfig)
    (skiaVersion npmVersion : string) (graphite : bool) : GeneratedPackageJson :=
  let packageName := getPackageName pkg graphite in
  mkGeneratedPackageJson
    packageName
    npmVersion
    (description pkg)
    "MIT"
    (mkRepository "git"
       "https://github.com/wcandillon/react-native-skia-binaries.git"
       ("dist/" ++ packageName))
    "public"
    ["libs/**"]
    (mkSkiaInfo skiaVersion (platform pkg) graphite).

Definition architectureInfo (pkg : PackageConfig) : string :=
  if String.eqb (platform pkg) "android" then
    match androidArchs pkg with
    | Some archs =>
        nl ++ "## Included Architectures" ++ nl
        ++ nl
        ++ "| Architecture | Description |" ++ nl
        ++ "|--------------|-------------|" ++ nl
        ++ joinWith nl
             (map (fun a => "| `" ++ arch a ++ "` | " ++ arch a ++ " |") archs)
        ++ nl
    | None => EmptyString
    end
  else EmptyString.

Definition generateReadme (pkg : PackageConfig)
    (skiaVersion npmVersion : string) (graphite : bool) : string :=
  let packageName := getPackageName pkg graphite in
  "# " ++ packageName ++ nl
  ++ nl
  ++ description pkg ++ nl
  ++ nl
  ++ "## About" ++ nl
  ++ nl
  ++ "This package contains prebuilt Skia libraries from [Shopify/react-native-skia](https://github.com/Shopify/react-native-skia)." ++ nl
  ++ nl
  ++ "- **Skia Version**: " ++ skiaVersion ++ nl
  ++ "- **Package Version**: " ++ npmVersion ++ nl
  ++ "- **Platform**: " ++ platform pkg ++ nl
  ++ (if graphite then "- **Backend**: Graphite (Dawn/WebGPU)" ++ nl else EmptyString)
  ++ nl
  ++ architectureInfo pkg ++ nl
  ++ "## Installation" ++ nl
  ++ nl
  ++ "```bash" ++ nl
  ++ "npm install " ++ packageName ++ nl
  ++ "```" ++ nl
  ++ nl
  ++ "The binaries are included directly in this package - no postinstall download required." ++ nl
  ++ nl
  ++ "## License" ++ nl
  ++ nl
  ++ "MIT" ++ nl.

Record SkiaConfig := mkSkiaConfig {
  config_version : option string;
  checksums : list (string * string)
}.

(** The parsed configuration file, with its keys [skia] and
    [skia-graphite]. *)
Record ConfigFile := mkConfigFile {
  config_skia : option SkiaConfig;
  config_skia_graphite : option SkiaConfig
}.

(** The JSON library, and what the host shows of a path.  [parse] is
    [JSON.parse] followed by the reading of the fields of the document:
    it throws on a text that is not JSON and on the document [null]. *)
Record Json := mkJson {
  stringify : GeneratedPackageJson -> string;   (* JSON.stringify(v, null, 2) *)
  parse : string -> outcome ConfigFile;
  show : path -> string;
  GITHUB_OUTPUT : option string                 (* process.env.GITHUB_OUTPUT *)
}.

(** The download section of [generatePackage]. *)
Definition downloadBinaries (env : Env) (pkg : PackageConfig) (releaseTag : string)
    (libsDir : path) : M World unit :=
  let single :=
    match truthy (artifact pkg) with
    | Some a =>
        GeneratePackages.downloadAndExtractAsset env a releaseTag libsDir (libSubdir pkg)
    | None => ret tt
    end in
  if String.eqb (platform pkg) "android" then
    match androidArchs pkg with
    | Some archs =>
        for_of archs (fun a =>
          GeneratePackages.downloadAndExtractAsset env (arch_artifact a) releaseTag
            (libsDir ++ [arch a])%list (Some (srcSubdir a)))
    | None => single
    end
  else single.

Definition generatePackage (js : Json) (host : Host) (env : Env)
    (pkg : PackageConfig) (outputDir : OutputDir)
    (skiaVersion npmVersion : string) (graphite : bool) : M World path :=
  let packageName := getPackageName pkg graphite in
  pkgDir <- lift (join host outputDir packageName) ;;
  let libsDir := (pkgDir ++ ["libs"])%list in
  on_disk (mkdir_p pkgDir) ;;
  on_disk (mkdir_p libsDir) ;;
  let releaseTag := prefix_of graphite ++ "-" ++ skiaVersion in
  downloadBinaries env pkg releaseTag libsDir ;;
  let packageJson := generatePackageJson pkg skiaVersion npmVersion graphite in
  on_disk (writeFileSync env (pkgDir ++ ["package.json"])%list
             (stringify js packageJson ++ nl)) ;;
  let readme := generateReadme pkg skiaVersion npmVersion graphite in
  on_disk (writeFileSync env (pkgDir ++ ["README.md"])%list readme) ;;
  ret pkgDir.

(** A loop that generates the packages of a list in order and collects
    the directories. *)
Fixpoint generateEach (js : Json) (host : Host) (env : Env)
    (packages : list PackageConfig) (outputDir : OutputDir)
    (skiaVersion npmVersion : string) (graphite : bool) : M World (list path) :=
  match packages with
  | [] => ret []
  | pkg :: rest =>
      pkgDir <- generatePackage js host env pkg outputDir skiaVersion npmVersion graphite ;;
      dirs <- generateEach js host env rest outputDir skiaVersion npmVersion graphite ;;
      ret (pkgDir :: dirs)
  end.

Definition configNotFound (js : Json) (configFullPath : path) : Error :=
  newError ("Config file not found: " ++ show js configFullPath).

(** One backend of [generateAllFromConfig]. *)
Definition generateBackend (js : Json) (host : Host) (env : Env)
    (config : option SkiaConfig) (packages : list PackageConfig)
    (outputDir : OutputDir) (graphite : bool) : M World (list path) :=
  match truthy (match config with Some c => config_version c | None => None end) with
  | Some skiaVersion =>
      npmVersion <- lift (deriveNpmVersion skiaVersion) ;;
      generateEach js host env packages outputDir skiaVersion npmVersion graphite
  | None => ret []
  end.

Definition generateAllFromConfig (js : Json) (host : Host) (env : Env)
    (configPath : ArgValue) (outputDir : OutputDir) : M World (list path) :=
  configFullPath <-
    lift (match configPath with
          | ArgString s => Ok (resolve host s)
          | ArgTrue => Throw invalidArgType
          end) ;;
  exists_ <- gets (fun w => existsSync configFullPath (disk w)) ;;
  (if negb exists_ then throw (configNotFound js configFullPath) else ret tt) ;;
  text <- (fun w => (readFileSync env (lookup_path configFullPath (disk w)), w)) ;;
  config <- lift (parse js text) ;;
  ganesh <- generateBackend js host env (config_skia config) GANESH_PACKAGES
              outputDir false ;;
  graphite <- generateBackend js host env (config_skia_graphite config)
                GRAPHITE_PACKAGES outputDir true ;;
  ret (ganesh ++ graphite)%list.

(** [fs.appendFileSync(process.env.GITHUB_OUTPUT, `packages=${...}\n`)] *)
Definition writeOutput (js : Json) (host : Host) (env : Env)
    (generatedDirs : list path) : M World unit :=
  match truthy (GITHUB_OUTPUT js) with
  | Some file =>
      on_disk (at_path (resolve host file)
                 (append_data env
                    ("packages=" ++ joinWith nl (map (show js) generatedDirs) ++ nl)))
  | None => ret tt
  end.

(** The loop of the single-version mode; the value is the list of
    directories, or the exit status on which the loop stopped.
<<
  for (const pkg of packagesToGenerate) {
    try {
      const pkgDir = await generatePackage(...);
      generatedDirs.push(pkgDir);
    } catch (error) {
      process.exit(1);
    }
  }
>> *)
Fixpoint generateSelected (js : Json) (host : Host) (env : Env)
    (packages : list PackageConfig) (outputDir : OutputDir)
    (skiaVersion npmVersion : string) (graphite : bool)
    (generatedDirs : list path) : M World (list path + Z) :=
  match packages with
  | [] => ret (inl generatedDirs)
  | pkg :: rest =>
      r <- try_catch
             (pkgDir <- generatePackage js host env pkg outputDir skiaVersion
                          npmVersion graphite ;;
              ret (Some pkgDir))
             (fun error => ret None) ;;
      match r with
      | Some pkgDir =>
          generateSelected js host env rest outputDir skiaVersion npmVersion graphite
            (generatedDirs ++ [pkgDir])%list
      | None => ret (inr 1%Z)
      end
  end.

(** [packages.filter((p) => p.name === specificPackage)] *)
Definition selectPackages (packages : list PackageConfig) (specificPackage : ArgValue)
  : list PackageConfig :=
  match specificPackage with
  | ArgString s => filter (fun p => String.eqb (name p) s) packages
  | ArgTrue => []
  end.

(** [main()]: the value is the exit status of the process; a [Throw]
    is a rejection nothing handles. *)
Definition main (js : Json) (host : Host) (env : Env) (argv : list string)
  : M World Z :=
  let args := parseArgs argv in
  let outputDir := outputDirOf args "dist" in
  match given (get "config" args) with
  | Some configPath =>
      try_catch
        (generatedDirs <- generateAllFromConfig js host env configPath outputDir ;;
         writeOutput js host env generatedDirs ;;
         ret 0%Z)
        (fun error => ret 1%Z)
  | None =>
      match given (get "skia-version" args) with
      | None => ret 1%Z
      | Some version =>
          let skiaVersion := text version in
          match
            match given (get "npm-version" args) with
            | Some v => Ok (text v)
            | None => deriveNpmVersion skiaVersion
            end
          with
          | Ok npmVersion =>
              let graphite := isTrue (get "graphite" args) in
              let packages := if graphite then GRAPHITE_PACKAGES else GANESH_PACKAGES in
              let specificPackage := given (get "package" args) in
              let packagesToGenerate :=
                match specificPackage with
                | Some p => selectPackages packages p
                | None => packages
                end in
              match specificPackage, packagesToGenerate with
              | Some _, [] => ret 1%Z
              | _, _ =>
                  r <- generateSelected js host env packagesToGenerate outputDir
                         skiaVersion npmVersion graphite [] ;;
                  match r with
                  | inl generatedDirs =>
                      writeOutput js host env generatedDirs ;; ret 0%Z
                  | inr status => ret status
                  end
              end
          | _ => ret 1%Z
          end
      end
  end.

End GeneratePackagesMain.

(** What [fs.writeFileSync] leaves at the path it returned from: the
    data in a regular file, or the special file that stood there and
    took the data. *)
Definition written (data : string) (o : option node) : Prop :=
  o = Some (File data) \/ exists k, o = Some (Special k).

(* ================================================================== *)
(** * The generator of installer packages

    The revision of generate-packages.ts whose packages carry
    postinstall.mjs and download their binaries when installed.  Its
    [PackageConfig], [GANESH_PACKAGES] and [GRAPHITE_PACKAGES] are the
    ones of [GeneratePackagesMain]. *)

Module GenerateInstallers.

Import GeneratePackagesMain.

Record MetadataArch := mkMetadataArch {
  metadata_arch : string;
  metadata_assetName : string;
  metadata_srcSubdir : string
}.

Record SkiaMetadata := mkSkiaMetadata {
  repo : string;
  skia_platform : string;
  releaseTag : string;
  graphite : bool;
  metadata_androidArchs : option (list MetadataArch);
  assetName : option string;
  metadata_libSubdir : option string
}.

Definition releaseTagOf (skiaVersion : string) (graphite : bool) : string :=
  if graphite then "skia-graphite-" ++ skiaVersion else "skia-" ++ skiaVersion.

(** The [skia] entry of the manifest that [generatePackageJson] builds.
<<
  if (pkg.platform === "android" && pkg.androidArchs) {
    skiaMetadata.androidArchs = pkg.androidArchs.map((arch) => ({
      arch: arch.arch,
      assetName: `${arch.artifact}-${releaseTag}.tar.gz`,
      srcSubdir: arch.srcSubdir,
    }));
  } else if (pkg.artifact) {
    skiaMetadata.assetName = `${pkg.artifact}-${releaseTag}.tar.gz`;
    skiaMetadata.libSubdir = pkg.libSubdir;
  }
>> *)
Definition skiaMetadata (pkg : PackageConfig) (skiaVersion : string) (graphite : bool)
  : SkiaMetadata :=
  let releaseTag := releaseTagOf skiaVersion graphite in
  let base androidArchs assetName libSubdir :=
    mkSkiaMetadata GeneratePackages.REPO (platform pkg) releaseTag graphite
      androidArchs assetName libSubdir in
  let single :=
    match truthy (artifact pkg) with
    | Some a => base None (Some (a ++ "-" ++ releaseTag ++ ".tar.gz")) (libSubdir pkg)
    | None => base None None None
    end in
  if String.eqb (platform pkg) "android" then
    match androidArchs pkg with
    | Some archs =>
        base
          (Some (map (fun a =>
                   mkMetadataArch (arch a)
                     (arch_artifact a ++ "-" ++ releaseTag ++ ".tar.gz")
                     (srcSubdir a)) archs))
          None None
    | None => single
    end
  else single.

(** What postinstall.mjs reads back from the manifest:
<<
  const { repo, releaseTag, platform, androidArchs, assetName, libSubdir } = pkg.skia;
>> *)
Definition readBack (m : SkiaMetadata) : Postinstall.Skia :=
  Postinstall.mkSkia (repo m) (releaseTag m) (skia_platform m)
    (option_map
       (map (fun a =>
          Postinstall.mkAndroidArch (metadata_arch a) (metadata_assetName a)
            (Some (metadata_srcSubdir a))))
       (metadata_androidArchs m))
    (assetName m) (metadata_libSubdir m).

Record PublishConfig := mkPublishConfig {
  access : string;
  provenance : bool
}.

Record InstallerPackageJson := mkInstallerPackageJson {
  json_name : string;
  version : string;
  json_description : string;
  license : string;
  repository : Repository;
  publishConfig : PublishConfig;
  files : list string;
  scripts_postinstall : string;
  skia : SkiaMetadata
}.

Definition packageNameOf (pkg : PackageConfig) (graphite : bool) : string :=
  "react-native-" ++ (if graphite then "skia-graphite" else "skia") ++ "-" ++ name pkg.

Definition backendDir (graphite : bool) : string :=
  if graphite then "graphite" else "ganesh".

Definition generatePackageJson (pkg : PackageConfig)
    (skiaVersion npmVersion : string) (graphite : bool) : InstallerPackageJson :=
  mkInstallerPackageJson
    (packageNameOf pkg graphite)
    npmVersion
    (description pkg)
    "MIT"
    (mkRepository "git"
       "https://github.com/wcandillon/react-native-skia-binaries.git"
       ("dist/" ++ backendDir graphite ++ "/" ++ name pkg))
    (mkPublishConfig "public" true)
    ["libs/**"; "postinstall.mjs"]
    "node postinstall.mjs"
    (skiaMetadata pkg skiaVersion graphite).

Definition generateReadme (pkg : PackageConfig)
    (skiaVersion npmVersion : string) (graphite : bool) : string :=
  let packageName := packageNameOf pkg graphite in
  "# " ++ packageName ++ nl
  ++ nl
  ++ description pkg ++ nl
  ++ nl
  ++ "## About" ++ nl
  ++ nl
  ++ "This package contains prebuilt Skia libraries downloaded from the [Shopify/react-native-skia](https://github.com/Shopify/react-native-skia) GitHub releases." ++ nl
  ++ nl
  ++ "- **Skia Version**: " ++ skiaVersion ++ nl
  ++ "- **Package Version**: " ++ npmVersion ++ nl
  ++ "- **Platform**: " ++ platform pkg ++ nl
  ++ (if graphite then "- **Backend**: Graphite (Dawn/WebGPU)" ++ nl else EmptyString)
  ++ nl
  ++ architectureInfo pkg ++ nl
  ++ "## Installation" ++ nl
  ++ nl
  ++ "This package is typically installed automatically as a dependency of `@shopify/react-native-skia`." ++ nl
  ++ nl
  ++ "```bash" ++ nl
  ++ "npm install " ++ packageName ++ nl
  ++ "```" ++ nl
  ++ nl
  ++ "## Postinstall" ++ nl
  ++ nl
  ++ "On installation, this package downloads the binary from GitHub releases:" ++ nl
  ++ "- Repository: `" ++ GeneratePackages.REPO ++ "`" ++ nl
  ++ "- Release Tag: `" ++ (if graphite then "skia-graphite-" else "skia-")
  ++ skiaVersion ++ "`" ++ nl
  ++ nl
  ++ "## License" ++ nl
  ++ nl
  ++ "MIT" ++ nl.

(** [path.join(outputDir, graphite ? "graphite" : "ganesh", pkg.name)] *)
Definition pkgDirOf (host : Host) (outputDir : OutputDir) (pkg : PackageConfig)
    (graphite : bool) : outcome path :=
  match join host outputDir (backendDir graphite) with
  | Ok dir => Ok (dir ++ [name pkg])%list
  | Throw e => Throw e
  | Hang => Hang
  end.

(** [fs.copyFileSync(src, dest)] with the source looked up in the tree
    the destination is in. *)
Definition copyFile (env : Env) (src dest : path) : M (option node) unit :=
  fun d =>
    match lookup_path src d with
    | Some n => at_path dest (copyFileSync env n) d
    | None => (Throw ENOENT, d)
    end.

Definition generatePackage (stringify : InstallerPackageJson -> string)
    (host : Host) (env : Env) (pkg : PackageConfig) (outputDir : OutputDir)
    (skiaVersion npmVersion : string) (graphite : bool) : M World path :=
  pkgDir <- lift (pkgDirOf host outputDir pkg graphite) ;;
  on_disk (mkdir_p pkgDir) ;;
  let packageJson := generatePackageJson pkg skiaVersion npmVersion graphite in
  on_disk (writeFileSync env (pkgDir ++ ["package.json"])%list
             (stringify packageJson ++ nl)) ;;
  let readme := generateReadme pkg skiaVersion npmVersion graphite in
  on_disk (writeFileSync env (pkgDir ++ ["README.md"])%list readme) ;;
  on_disk (copyFile env (ROOT_DIR host ++ ["src"; "postinstall.mjs"])%list
             (pkgDir ++ ["postinstall.mjs"])%list) ;;
  on_disk (mkdir_p (pkgDir ++ ["libs"])%list) ;;
  ret pkgDir.

End GenerateInstallers.

(* ================================================================== *)
(** * verify-checksums.ts *)

Module VerifyChecksums.

(** The separator of [path.join] and [path.relative]. *)
Definition sep (env : Env) : string := if win32 env then "\" else "/".

(** [path.join(dir, name)] relative to the directory that is hashed. *)
Definition child (env : Env) (dir name : string) : string :=
  match dir with
  | EmptyString => name
  | _ => dir ++ sep env ++ name
  end.

(** [collectFiles(dir)]: the regular files below a directory, each with
    its path relative to the hashed directory and the content that
    [fs.readFileSync] finds there, in the order of [fs.readdirSync].
<<
  for (const entry of entries) {
    const fullPath = path.join(dir, entry.name);
    if (entry.isDirectory()) collectFiles(fullPath);
    else if (entry.isFile()) files.push(fullPath);
  }
>> *)
Fixpoint collectFiles (env : Env) (dir : string) (n : node) {struct n}
  : list (string * string) :=
  match n with
  | Dir entries =>
      (fix loop (es : listing) : list (string * string) :=
         match es with
         | [] => []
         | (name, entry) :: rest =>
             (match entry with
              | Dir _ => collectFiles env (child env dir name) entry
              | File data => [(child env dir name, data)]
              | Special _ => []
              end ++ loop rest)%list
         end) entries
  | _ => []
  end.

(** What [collectFiles] pushes for one entry of a directory. *)
Definition collectEntry (env : Env) (dir : string) (e : string * node)
  : list (string * string) :=
  match snd e with
  | Dir _ => collectFiles env (child env dir (fst e)) (snd e)
  | File data => [(child env dir (fst e), data)]
  | Special _ => []
  end.

(** [files.sort()]: by the code units of the paths. *)
Fixpoint insert (file : string * string) (sorted : list (string * string))
  : list (string * string) :=
  match sorted with
  | [] => [file]
  | other :: rest =>
      if String.leb (fst file) (fst other) then file :: sorted
      else other :: insert file rest
  end.

Definition sort (files : list (string * string)) : list (string * string) :=
  fold_right insert [] files.

(** What the hash is fed: for each file its relative path, then its
    content. *)
Fixpoint stream (files : list (string * string)) : string :=
  match files with
  | [] => EmptyString
  | (relativePath, content) :: rest => relativePath ++ content ++ stream rest
  end.

Section Hash.

(** [crypto.createHash("sha256")]: the hexadecimal digest of what has
    been fed. *)
Variable sha256 : string -> string.

(** [calculateDirectoryChecksum(directory)]; [None] is [null]. *)
Definition calculateDirectoryChecksum (env : Env) (directory : option node)
  : outcome (option string) :=
  match directory with
  | None => Ok None
  | Some (Dir entries) =>
      Ok (Some (sha256 (stream (sort (collectFiles env EmptyString (Dir entries))))))
  | Some _ => Throw ENOTDIR
  end.

Record ChecksumResult := mkChecksumResult {
  platform : string;
  expected : option string;
  actual : option string;
  matches : bool;    (* the field [match] *)
  exists_ : bool     (* the field [exists] *)
}.

(** [expected === actual], where [undefined] is not [null]. *)
Definition strictEq (expected actual : option string) : bool :=
  match expected, actual with
  | Some e, Some a => String.eqb e a
  | _, _ => false
  end.

(** [path.join(libsDir, group, name)] *)
Definition join3 (host : Host) (cwd : path) (libsDir : OutputDir) (group name : string)
  : outcome path :=
  match libsDir with
  | FromArgs (ArgString s) => Ok (resolve host s ++ [group; name])%list
  | FromArgs ArgTrue => Throw invalidArgType
  | Default dflt => Ok (cwd ++ [dflt; group; name])%list
  end.

Fixpoint lookupChecksum (key : string) (checksums : list (string * string))
  : option string :=
  match checksums with
  | [] => None
  | (k, v) :: rest => if String.eqb key k then Some v else lookupChecksum key rest
  end.

(** The body that the two loops of [verifyChecksums] share. *)
Definition verifyOne (host : Host) (cwd : path) (env : Env) (d : option node)
    (libsDir : OutputDir) (expectedChecksums : list (string * string))
    (group name checksumKey : string) : outcome ChecksumResult :=
  match join3 host cwd libsDir group name with
  | Ok dir =>
      let expected := lookupChecksum checksumKey expectedChecksums in
      match calculateDirectoryChecksum env (lookup_path dir d) with
      | Ok actual =>
          Ok (mkChecksumResult checksumKey expected actual
                (strictEq expected actual)
                (match actual with Some _ => true | None => false end))
      | Throw e => Throw e
      | Hang => Hang
      end
  | Throw e => Throw e
  | Hang => Hang
  end.

(** A loop that pushes one result for each name. *)
Fixpoint verifyEach (names : list string) (one : string -> outcome ChecksumResult)
  : outcome (list ChecksumResult) :=
  match names with
  | [] => Ok []
  | name :: rest =>
      match one name with
      | Ok result =>
          match verifyEach rest one with
          | Ok results => Ok (result :: results)
          | other => other
          end
      | Throw e => Throw e
      | Hang => Hang
      end
  end.

Definition androidArchs : list string := ["armeabi-v7a"; "arm64-v8a"; "x86"; "x86_64"].

Definition applePlatforms (graphite : bool) : list string :=
  if graphite then ["ios"; "macos"] else ["ios"; "tvos"; "macos"].

Definition verifyChecksums (host : Host) (cwd : path) (env : Env) (d : option node)
    (libsDir : OutputDir) (expectedChecksums : list (string * string))
    (graphite : bool) : outcome (list ChecksumResult) :=
  match
    verifyEach androidArchs (fun arch =>
      verifyOne host cwd env d libsDir expectedChecksums "android" arch
        ("android-" ++ arch))
  with
  | Ok android =>
      match
        verifyEach (applePlatforms graphite) (fun platform =>
          verifyOne host cwd env d libsDir expectedChecksums "apple" platform
            ("apple-" ++ platform ++ "-xcframeworks"))
      with
      | Ok apple => Ok (android ++ apple)%list
      | other => other
      end
  | other => other
  end.

(** The loop of [main] over the results. *)
Definition allMatch (results : list ChecksumResult) : bool :=
  forallb (fun result => exists_ result && matches result) results.

(** [main()]: the value is the exit status; a [Throw] is an exception
    nothing catches. *)
Definition main (parse : string -> outcome GeneratePackagesMain.ConfigFile)
    (host : Host) (cwd : path) (env : Env) (argv : list string) : M World Z :=
  let args := parseArgs argv in
  match given (get "config" args) with
  | None => ret 1%Z
  | Some config =>
      configPath <-
        lift (match config with
              | ArgString s => Ok (resolve host s)
              | ArgTrue => Throw invalidArgType
              end) ;;
      found <- gets (fun w => existsSync configPath (disk w)) ;;
      if negb found then ret 1%Z
      else
        text <- (fun w => (readFileSync env (lookup_path configPath (disk w)), w)) ;;
        config <- lift (parse text) ;;
        let graphite := isTrue (get "graphite" args) in
        let skiaConfig :=
          if graphite then GeneratePackagesMain.config_skia_graphite config
          else GeneratePackagesMain.config_skia config in
        match skiaConfig with
        | None => ret 1%Z
        | Some skiaConfig =>
            let libsDir :=
              match given (get "libs-dir" args) with
              | Some v => FromArgs v
              | None => Default "libs"
              end in
            results <-
              (fun w =>
                 (verifyChecksums host cwd env (disk w) libsDir
                    (GeneratePackagesMain.checksums skiaConfig) graphite, w)) ;;
            if allMatch results then ret 0%Z else ret 1%Z
        end
  end.

(** The directories [verifyChecksums] looks at: the two components
    below [libsDir], and the key of the expected checksum. *)
Definition targets (graphite : bool) : list (string * string * string) :=
  (map (fun arch => ("android", arch, ("android-" ++ arch)%string)) androidArchs
   ++ map (fun platform =>
             ("apple", platform, ("apple-" ++ platform ++ "-xcframeworks")%string))
        (applePlatforms graphite))%list.

(** The directory of a target is there and its checksum is the
    expected one. *)
Definition verified (host : Host) (cwd : path) (env : Env) (d : option node)
    (libsDir : OutputDir) (expectedChecksums : list (string * string))
    (target : string * string * string) : Prop :=
  exists dir checksum,
    join3 host cwd libsDir (fst (fst target)) (snd (fst target)) = Ok dir /\
    lookupChecksum (snd target) expectedChecksums = Some checksum /\
    calculateDirectoryChecksum env (lookup_path dir d) = Ok (Some checksum).

(** [args["libs-dir"] || path.join(process.cwd(), "libs")] *)
Definition libsDirOf (args : Args) : OutputDir :=
  match given (get "libs-dir" args) with
  | Some v => FromArgs v
  | None => Default "libs"
  end.

End Hash.

End VerifyChecksums.

(* ================================================================== *)
(** * Scenarios *)

Module Scenarios.

(** A release that does not have the asset. *)
Definition missing : World := Examples.world [Examples.reply 404 "Not Found" None []].

(** A release that answers with the wrapped frameworks. *)
Definition released : World := Examples.world [Examples.ok Examples.wrapped].

Definition notFound : Error :=
  statusError (mkResponse (Some 404%Z) "Not Found" None (BodyOk [])).

Definition arm64 : DownloadBinaries.ArchConfig :=
  DownloadBinaries.mkArchConfig "skia-android-arm-64" "arm64-v8a" "arm64-v8a".

Definition ios : DownloadBinaries.ArchConfig :=
  DownloadBinaries.mkArchConfig "skia-apple-ios-xcframeworks" "" "ios".





(** A destination that already holds a file of its own. *)
Definition kept : option node :=
  Some (Dir [("out", Dir [("keep", File "old")])]).


Definition apple : Postinstall.Skia :=
  Postinstall.mkSkia "shopify/react-native-skia" "skia-m144" "apple"
    None (Some "skia-apple-ios-xcframeworks-skia-m144.tar.gz") (Some "ios").



(** An archive whose wrapper holds a regular file called ios. *)
Definition odd_archive : Archive := [("wrapper", Dir [("ios", File "oops")])].

Definition host : Host := mkHost (fun s => [s]) ["repo"].

Definition json : GeneratePackagesMain.Json :=
  GeneratePackagesMain.mkJson
    (fun manifest => GeneratePackagesMain.json_name manifest)
    (fun _ => Throw (newError "Unexpected token"))
    (joinWith "/")
    None.

Definition apple_ios : GeneratePackagesMain.PackageConfig :=
  GeneratePackagesMain.mkPackageConfig "apple-ios" "apple"
    "Skia prebuilt binaries for iOS (device + simulator)"
    None (Some "skia-apple-ios-xcframeworks") (Some "ios").

(** The repository of the generators, with the postinstall script. *)
Definition repository : option node :=
  Some (Dir [("repo", Dir [("src", Dir [("postinstall.mjs", File "script")])])]).

Definition generating (script : list Reply) : World :=
  mkWorld script 0 [] [] repository.

(** An empty package directory. *)
Definition unpacked (script : list Reply) : World :=
  mkWorld script 0 [] [] (Some (Dir [])).

End Scenarios.

(* ================================================================== *)
(** * Properties *)

(** ** Version derivation *)

Lemma span_digits_sound (s d tl : string) :
  span_digits s = (d, tl) -> s = d ++ tl /\ all_digits d = true.
Proof.
  revert d tl; induction s as [|c s IH]; simpl; intros d tl H.
  - inversion H; subst; auto.
  - destruct (isDigit c) eqn:Hc.
    + destruct (span_digits s) as [ds tl'] eqn:Hs.
      inversion H; subst; clear H.
      destruct (IH ds tl eq_refl) as [-> Hd].
      simpl; rewrite Hc, Hd; auto.
    + inversion H; subst; auto.
Qed.

Lemma span_digits_all (d : string) :
  all_digits d = true -> span_digits d = (d, EmptyString).
Proof.
  induction d as [|c d IH]; simpl; intros H; [reflexivity|].
  apply andb_prop in H as [Hc Hd].
  rewrite Hc, (IH Hd); reflexivity.
Qed.

Lemma span_digits_letter (d : string) (c : ascii) :
  all_digits d = true -> isDigit c = false ->
  span_digits (d ++ String c EmptyString) = (d, String c EmptyString).
Proof.
  intros Hd Hc; induction d as [|x d IH]; simpl.
  - rewrite Hc; reflexivity.
  - simpl in Hd; apply andb_prop in Hd as [Hx Hd].
    rewrite Hx, (IH Hd); reflexivity.
Qed.

Lemma lower_not_digit (c : ascii) : isLower c = true -> isDigit c = false.
Proof.
  unfold isLower, isDigit; intros H.
  apply andb_prop in H as [H _]; apply Nat.leb_le in H.
  apply andb_false_iff; right; apply Nat.leb_gt; lia.
Qed.

Lemma letterIndex_lower (c : ascii) (n : nat) :
  letterIndex c = Some n ->
  isLower c = true /\ Z.of_nat n = (Z.of_nat (nat_of_ascii c) - 97 + 1)%Z.
Proof.
  destruct c as [[] [] [] [] [] [] [] []]; vm_compute; intros H;
    try discriminate H; inversion H; auto.
Qed.

Lemma lower_letterIndex (c : ascii) :
  isLower c = true -> exists n, letterIndex c = Some n.
Proof.
  destruct c as [[] [] [] [] [] [] [] []]; vm_compute; intros H;
    try discriminate H; eexists; reflexivity.
Qed.

Lemma match_version_shape (s major : string) (suffix : option ascii) :
  match_version s = Some (major, suffix) ->
  digits major /\
  match suffix with
  | None => s = "m" ++ major
  | Some c => s = "m" ++ major ++ String c EmptyString /\ isLower c = true
  end.
Proof.
  unfold match_version.
  destruct s as [|m rest]; [discriminate|].
  destruct (Ascii.eqb m "m") eqn:Hm.
  - apply Ascii.eqb_eq in Hm; subst m.
    destruct (span_digits rest) as [d tl] eqn:Hs.
    apply span_digits_sound in Hs as [-> Hd].
    destruct d as [|d0 d]; [discriminate|].
    destruct tl as [|c [|c' tl]].
    + intros H; inversion H; subst; split.
      * split; [discriminate | assumption].
      * simpl. f_equal. f_equal. clear. induction d; simpl; congruence.
    + destruct (isLower c) eqn:Hc; [|discriminate].
      intros H; inversion H; subst; split.
      * split; [discriminate | assumption].
      * split; [reflexivity | assumption].
    + discriminate.
  - intros H; exfalso.
    destruct m as [[] [] [] [] [] [] [] []]; try discriminate H; discriminate Hm.
Qed.

(** C5.  [deriveNpmVersion] sends [m<digits>] to [<digits>.0.0], sends
    [m<digits><letter>] with a letter of a..z to [<digits>.<index>.0]
    where a is 1 and z is 26, and throws on every other string; the
    listed examples follow. *)
Theorem deriveNpmVersion_spec :
  (forall d, digits d -> deriveNpmVersion ("m" ++ d) = Ok (d ++ ".0.0")) /\
  (forall d c n, digits d -> letterIndex c = Some n ->
     deriveNpmVersion ("m" ++ d ++ String c EmptyString)
     = Ok (d ++ "." ++ string_of_Z (Z.of_nat n) ++ ".0")) /\
  (forall s,
     (forall d, digits d -> s <> "m" ++ d) ->
     (forall d c n, digits d -> letterIndex c = Some n ->
        s <> "m" ++ d ++ String c EmptyString) ->
     deriveNpmVersion s = Throw (invalidVersion s)) /\
  letterIndex "a" = Some 1%nat /\ letterIndex "z" = Some 26%nat /\
  deriveNpmVersion "m144" = Ok "144.0.0" /\
  deriveNpmVersion "m144a" = Ok "144.1.0" /\
  deriveNpmVersion "m144c" = Ok "144.3.0" /\
  deriveNpmVersion "m144z" = Ok "144.26.0" /\
  deriveNpmVersion "144" = Throw (invalidVersion "144").
Proof.
  split; [|split; [|split]].
  - intros d [Hne Hd]. unfold deriveNpmVersion, match_version; simpl.
    rewrite (span_digits_all d Hd).
    destruct d as [|c d]; [congruence | reflexivity].
  - intros d c n [Hne Hd] Hc.
    apply letterIndex_lower in Hc as [Hl Hn].
    unfold deriveNpmVersion, match_version; simpl.
    rewrite (span_digits_letter d c Hd (lower_not_digit c Hl)).
    destruct d as [|c0 d]; [congruence|].
    rewrite Hl. do 3 f_equal. f_equal. rewrite Hn. reflexivity.
  - intros s H1 H2. unfold deriveNpmVersion.
    destruct (match_version s) as [[major suffix]|] eqn:Hm; [|reflexivity].
    exfalso. apply match_version_shape in Hm as [Hd Hs].
    destruct suffix as [c|].
    + destruct Hs as [-> Hl].
      destruct (lower_letterIndex c Hl) as [n Hn].
      exact (H2 major c n Hd Hn eq_refl).
    + exact (H1 major Hd Hs).
  - repeat split; reflexivity.
Qed.

Lemma deriveNpmVersion_spec_witness :
  deriveNpmVersion ("m" ++ "144") = Ok ("144" ++ ".0.0") /\
  deriveNpmVersion ("m" ++ "144" ++ String "c" EmptyString)
  = Ok ("144" ++ "." ++ string_of_Z (Z.of_nat 3) ++ ".0") /\
  deriveNpmVersion "144" = Throw (invalidVersion "144").
Proof.
  split; [|split].
  - apply (proj1 deriveNpmVersion_spec "144").
    split; [discriminate | reflexivity].
  - apply (proj1 (proj2 deriveNpmVersion_spec) "144" "c"%char 3%nat).
    + split; [discriminate | reflexivity].
    + reflexivity.
  - apply (proj1 (proj2 (proj2 deriveNpmVersion_spec)) "144").
    + intros d _ H; discriminate H.
    + intros d c n _ _ H; discriminate H.
Defined.

(** ** Traces *)

Open Scope list_scope.

Lemma control_app (a b : list Event) : control (a ++ b) = control a ++ control b.
Proof.
  induction a as [|ev a IH]; simpl; [reflexivity|].
  destruct ev; simpl; rewrite IH; reflexivity.
Qed.

Lemma control_gets (urls : list string) : control (map EvGet urls) = [].
Proof. induction urls; simpl; auto. Qed.

Lemma sleeps_app (a b : list Event) : sleeps (a ++ b) = sleeps a ++ sleeps b.
Proof.
  induction a as [|ev a IH]; simpl; [reflexivity|].
  destruct ev; simpl; rewrite IH; reflexivity.
Qed.

Lemma requests_app (a b : list Event) : requests (a ++ b) = requests a ++ requests b.
Proof.
  induction a as [|ev a IH]; simpl; [reflexivity|].
  destruct ev; simpl; rewrite IH; reflexivity.
Qed.

Lemma spawns_app (a b : list Event) : spawns (a ++ b) = spawns a ++ spawns b.
Proof.
  induction a as [|ev a IH]; simpl; [reflexivity|].
  destruct ev; simpl; rewrite IH; reflexivity.
Qed.

Lemma sleeps_control (tr : list Event) : sleeps (control tr) = sleeps tr.
Proof.
  induction tr as [|ev tr IH]; simpl; [reflexivity|].
  destruct ev; simpl; rewrite ?IH; reflexivity.
Qed.

Lemma sleeps_gets (urls : list string) : sleeps (map EvGet urls) = [].
Proof. induction urls; simpl; auto. Qed.

Lemma sleeps_retry_events (errs : list Error) (k : nat) :
  sleeps (retry_events k errs)
  = map (fun i => seconds (2 ^ Z.of_nat i)) (seq k (length errs)).
Proof.
  revert k; induction errs as [|e errs IH]; intros k; simpl; [reflexivity|].
  rewrite IH; reflexivity.
Qed.

Lemma sleeps_final (r : outcome unit) : sleeps (final_events r) = [].
Proof. destruct r; reflexivity. Qed.

Lemma sum_app (a b : list Z) : sum (a ++ b) = (sum a + sum b)%Z.
Proof. induction a as [|x a IH]; simpl; [reflexivity | rewrite IH; lia]. Qed.

(** ** The temporary area *)

Lemma tmp_remove_update (id : nat) (f : Scratch -> Scratch) (t : list (nat * Scratch)) :
  tmp_remove id (tmp_update id f t) = tmp_remove id t.
Proof.
  induction t as [|[k s] t IH]; simpl; [reflexivity|].
  destruct (Nat.eqb id k) eqn:E; simpl; rewrite E; [reflexivity|].
  rewrite IH; reflexivity.
Qed.

Lemma tmp_remove_cons (id : nat) (s : Scratch) (t : list (nat * Scratch)) :
  tmp_remove id ((id, s) :: t) = tmp_remove id t.
Proof. simpl; rewrite Nat.eqb_refl; reflexivity. Qed.

Lemma tmp_remove_absent (id : nat) (t : list (nat * Scratch)) :
  ~ In id (map fst t) -> tmp_remove id t = t.
Proof.
  induction t as [|[k s] t IH]; simpl; intros H; [reflexivity|].
  destruct (Nat.eqb id k) eqn:E.
  - apply Nat.eqb_eq in E; subst; tauto.
  - rewrite IH; tauto.
Qed.

Lemma fresh_absent (t : list (nat * Scratch)) : ~ In (fresh t) (map fst t).
Proof.
  unfold fresh; intros H.
  assert (Hle : forall l x, In x l -> (x <= list_max l)%nat).
  { induction l as [|y l IH]; simpl; intros x Hx; [tauto|].
    destruct Hx as [->|Hx]; [lia | specialize (IH x Hx); lia]. }
  apply Hle in H; lia.
Qed.

(** ** One download attempt *)

Lemma request_effects (script : list Reply) :
  forall dp url w r w',
    request script dp url w = (r, w') ->
    (exists urls, trace w' = trace w ++ map EvGet (url :: urls)) /\
    clock w' = clock w /\ disk w' = disk w /\
    tmp_remove dp (tmp w') = tmp_remove dp (tmp w).
Proof.
  induction script as [|reply rest IH]; intros dp url w r w' H; simpl in H.
  - inversion H; subst; clear H; simpl.
    split; [exists []; reflexivity | auto].
  - destruct reply as [e|res].
    + inversion H; subst; clear H; simpl.
      split; [exists []; reflexivity | auto].
    + destruct (isRedirect res).
      * destruct (truthy (res_location res)) as [location|].
        -- apply IH in H as [[urls Ht] [Hc [Hd Hm]]]; simpl in *.
           split; [|auto].
           exists (location :: urls). rewrite Ht, <- app_assoc; reflexivity.
        -- inversion H; subst; clear H; simpl.
           split; [exists []; reflexivity | auto].
      * destruct (not200 res).
        -- inversion H; subst; clear H; simpl.
           split; [exists []; reflexivity | auto].
        -- destruct (res_body res); inversion H; subst; clear H; simpl;
             (split; [exists []; reflexivity |]); rewrite tmp_remove_update; auto.
Qed.

Lemma request_hang (script : list Reply) :
  forall dp url w w',
    net w = script -> request script dp url w = (Hang, w') -> net w' = [].
Proof.
  induction script as [|reply rest IH]; intros dp url w w' Hn H; simpl in H.
  - inversion H; subst; exact Hn.
  - destruct reply as [e|res]; [discriminate|].
    destruct (isRedirect res).
    + destruct (truthy (res_location res)); [|discriminate].
      eapply IH; [|exact H]. reflexivity.
    + destruct (not200 res); [discriminate|].
      destruct (res_body res); discriminate.
Qed.

Lemma attemptDownload_effects url dp w r w' :
  attemptDownload url dp w = (r, w') ->
  (exists urls, trace w' = trace w ++ map EvGet (url :: urls)) /\
  clock w' = clock w /\ disk w' = disk w /\
  tmp_remove dp (tmp w') = tmp_remove dp (tmp w) /\
  (r = Hang -> net w' = []).
Proof.
  unfold attemptDownload; intros H.
  destruct (request_effects _ _ _ _ _ _ H) as [Ht [Hc [Hd Hm]]].
  repeat split; auto.
  intros ->. eapply request_hang; [|exact H]. reflexivity.
Qed.

(** ** The retry loop *)

Section Retry.

Variables (url : string) (destPath maxRetries : nat).

Lemma downloadWithRetry_run :
  forall fuel k w r w',
    (0 < fuel)%nat -> (maxRetries < fuel + k)%nat ->
    downloadWithRetry url destPath maxRetries fuel k w = (r, w') ->
    exists errs tr,
      trace w' = trace w ++ tr /\
      control tr = retry_events k errs ++ final_events r /\
      Forall (fun e => isRetryable e = true) errs /\
      (k + length errs <= Nat.max k maxRetries)%nat /\
      clock w' = (clock w + sum (sleeps tr))%Z /\
      disk w' = disk w /\
      tmp_remove destPath (tmp w') = tmp_remove destPath (tmp w) /\
      (r = Hang -> net w' = []) /\
      (forall e, r = Throw e ->
         isRetryable e = false \/ (k + length errs >= maxRetries)%nat).
Proof.
  induction fuel as [|fuel IH]; intros k w r w' Hpos Hf H; [lia|].
  simpl in H. unfold try_catch in H.
  destruct (attemptDownload url destPath w) as [ra w1] eqn:Ha.
  destruct (attemptDownload_effects _ _ _ _ _ Ha) as [[urls Ht] [Hc [Hd [Hm Hh]]]].
  destruct ra as [[]|e|].
  - (* fulfilled *)
    inversion H; subst; clear H.
    exists [], (map EvGet (url :: urls)).
    rewrite control_gets, sleeps_gets.
    repeat split; simpl; auto; try lia; try discriminate.
  - (* rejected *)
    unfold bind, modify in H.
    destruct (shouldRetry k maxRetries e) eqn:Hr.
    + unfold shouldRetry in Hr. apply andb_prop in Hr as [Hk He].
      apply Nat.ltb_lt in Hk.
      unfold sleep, modify in H.
      match type of H with
      | downloadWithRetry _ _ _ _ _ ?w2 = _ => remember w2 as w2' eqn:Hw2
      end.
      apply IH in H; [|lia|lia].
      destruct H as [errs [tr [Ht' [Hctl [Hall [Hlen [Hclk [Hdk [Htm [Hhang Hex]]]]]]]]]].
      exists (e :: errs), (map EvGet (url :: urls)
                           ++ [EvRejected e; EvSleep (backoff k)] ++ tr).
      subst w2'; simpl in Ht', Hclk, Hdk, Htm.
      split; [|split; [|split; [|split; [|split; [|split; [|split; [|split]]]]]]].
      * rewrite Ht', Ht. rewrite <- !app_assoc. reflexivity.
      * rewrite control_app, control_gets. simpl. unfold backoff, seconds.
        replace (k + 1)%nat with (S k) in Hctl by lia.
        rewrite Hctl. reflexivity.
      * constructor; assumption.
      * simpl. lia.
      * rewrite sleeps_app, sleeps_gets. simpl. rewrite Hclk, Hc. lia.
      * congruence.
      * congruence.
      * assumption.
      * intros e' He'. simpl.
        destruct (Hex e' He') as [Hn|Hn]; [left; assumption | right; lia].
    + unfold throw in H. inversion H; subst; clear H.
      exists [], (map EvGet (url :: urls) ++ [EvRejected e]).
      split; [|split; [|split; [|split; [|split; [|split; [|split; [|split]]]]]]];
        simpl; auto; try lia; try discriminate.
      * rewrite Ht. simpl. rewrite <- app_assoc. reflexivity.
      * rewrite control_app, control_gets; reflexivity.
      * rewrite sleeps_app, sleeps_gets. simpl. lia.
      * intros e' He'. inversion He'; subst.
        unfold shouldRetry in Hr. apply andb_false_iff in Hr as [Hr|Hr].
        -- right. apply Nat.ltb_ge in Hr. lia.
        -- left; assumption.
  - (* never answered *)
    inversion H; subst; clear H.
    exists [], (map EvGet (url :: urls)).
    rewrite control_gets, sleeps_gets.
    repeat split; simpl; auto; try lia; try discriminate.
Qed.

Lemma downloadWithRetry_rounds :
  forall fuel k w r w',
    (0 < fuel)%nat -> (maxRetries < fuel + k)%nat ->
    downloadWithRetry url destPath maxRetries fuel k w = (r, w') ->
    exists rounds redirects,
      trace w' = trace w ++ retry_rounds url k rounds
                 ++ map EvGet (url :: redirects) ++ final_events r /\
      Forall (fun round => isRetryable (snd round) = true) rounds /\
      (k + length rounds <= Nat.max k maxRetries)%nat.
Proof.
  induction fuel as [|fuel IH]; intros k w r w' Hpos Hf H; [lia|].
  simpl in H. unfold try_catch in H.
  destruct (attemptDownload url destPath w) as [ra w1] eqn:Ha.
  destruct (attemptDownload_effects _ _ _ _ _ Ha) as [[urls Ht] _].
  destruct ra as [[]|e|].
  - inversion H; subst; clear H.
    exists [], urls. simpl. rewrite app_nil_r.
    split; [assumption|]. split; [constructor | lia].
  - unfold bind, modify in H.
    destruct (shouldRetry k maxRetries e) eqn:Hr.
    + unfold shouldRetry in Hr. apply andb_prop in Hr as [Hk He].
      apply Nat.ltb_lt in Hk.
      unfold sleep, modify in H.
      match type of H with
      | downloadWithRetry _ _ _ _ _ ?w2 = _ => remember w2 as w2' eqn:Hw2
      end.
      apply IH in H; [|lia|lia].
      destruct H as [rounds [redirects [Ht' [Hall Hlen]]]].
      exists ((urls, e) :: rounds), redirects.
      subst w2'; simpl in Ht'.
      split; [|split].
      * rewrite Ht', Ht. unfold backoff, seconds.
        replace (k + 1)%nat with (S k) by lia.
        simpl. rewrite <- !app_assoc. simpl. reflexivity.
      * constructor; assumption.
      * simpl. lia.
    + unfold throw in H. inversion H; subst; clear H.
      exists [], urls. simpl.
      split; [|split; [constructor | lia]].
      rewrite Ht. simpl. rewrite <- app_assoc. reflexivity.
  - inversion H; subst; clear H.
    exists [], urls. simpl. rewrite app_nil_r.
    split; [assumption|]. split; [constructor | lia].
Qed.

End Retry.

(** ** Single steps of the retry loop *)

Lemma attempt_rejects_status url dp w res rest :
  net w = Resp res :: rest ->
  isRedirect res = false -> not200 res = true ->
  attemptDownload url dp w
  = (Throw (statusError res), set_net rest (log (EvGet url) w)).
Proof.
  intros Hn Hr H2. unfold attemptDownload. rewrite Hn. simpl.
  rewrite Hr, H2. reflexivity.
Qed.




Lemma attempt_fulfilled url dp w res rest a :
  net w = Resp res :: rest ->
  res_statusCode res = Some 200%Z -> res_body res = BodyOk a ->
  attemptDownload url dp w
  = (Ok tt, set_archive dp (Some a) (set_net rest (log (EvGet url) w))).
Proof.
  intros Hn Hs Hb. unfold attemptDownload. rewrite Hn. simpl.
  unfold isRedirect, not200. rewrite Hs, Hb. reflexivity.
Qed.

Lemma status_not_redirect (res : Response) (c : Z) :
  res_statusCode res = Some c -> existsb (Z.eqb c) redirect_codes = false ->
  c <> 200%Z -> isRedirect res = false /\ not200 res = true.
Proof.
  intros Hs Hc H2. unfold isRedirect, not200. rewrite Hs, Hc.
  split; [apply andb_false_r|]. apply negb_true_iff, Z.eqb_neq; assumption.
Qed.

Lemma has_status_inv (c : Z) (reply : Reply) :
  has_status c reply = true ->
  exists res, reply = Resp res /\ res_statusCode res = Some c.
Proof.
  destruct reply as [e|res]; simpl; [discriminate|].
  unfold opt_Z_eqb. destruct (res_statusCode res) as [x|] eqn:Hx; [|discriminate].
  intros H; apply Z.eqb_eq in H; subst. eauto.
Qed.

Lemma retryable_403 (res : Response) :
  res_statusCode res = Some 403%Z -> isRetryable (statusError res) = true.
Proof.
  intros H. unfold isRetryable, isRateLimit, statusError; simpl.
  rewrite H. reflexivity.
Qed.

Lemma attempt_403 url dp w reply rest :
  net w = reply :: rest -> has_status 403 reply = true ->
  exists e,
    attemptDownload url dp w = (Throw e, set_net rest (log (EvGet url) w)) /\
    isRetryable e = true /\ statusCode e = Some 403%Z.
Proof.
  intros Hn Hs. apply has_status_inv in Hs as [res [-> Hc]].
  exists (statusError res). split; [|split].
  - apply attempt_rejects_status; [assumption| |];
      apply (status_not_redirect res 403%Z); auto; discriminate.
  - apply retryable_403; assumption.
  - exact Hc.
Qed.

Section RetrySteps.

Variables (url : string) (destPath maxRetries : nat).

Lemma retry_step fuel k w e w1 :
  attemptDownload url destPath w = (Throw e, w1) ->
  isRetryable e = true -> (k < maxRetries)%nat ->
  downloadWithRetry url destPath maxRetries (S fuel) k w
  = downloadWithRetry url destPath maxRetries fuel (k + 1)
      (set_clock (clock w1 + backoff k)
         (log (EvSleep (backoff k)) (log (EvRejected e) w1))).
Proof.
  intros Ha He Hk. simpl. unfold try_catch. rewrite Ha.
  unfold bind, modify, shouldRetry. rewrite He.
  apply Nat.ltb_lt in Hk. rewrite Hk. reflexivity.
Qed.

Lemma retry_stop fuel k w e w1 :
  attemptDownload url destPath w = (Throw e, w1) ->
  shouldRetry k maxRetries e = false ->
  downloadWithRetry url destPath maxRetries (S fuel) k w
  = (Throw e, log (EvRejected e) w1).
Proof.
  intros Ha Hs. simpl. unfold try_catch. rewrite Ha.
  unfold bind, modify. rewrite Hs. reflexivity.
Qed.

Lemma retry_done fuel k w w1 :
  attemptDownload url destPath w = (Ok tt, w1) ->
  downloadWithRetry url destPath maxRetries (S fuel) k w = (Ok tt, w1).
Proof. intros Ha. simpl. unfold try_catch. rewrite Ha. reflexivity. Qed.

End RetrySteps.

Lemma mkdir_tmp_frame id w :
  exists w0, mkdir_tmp id w = (Ok tt, w0) /\
    net w0 = net w /\ clock w0 = clock w /\ trace w0 = trace w /\
    disk w0 = disk w /\ tmp_remove id (tmp w0) = tmp_remove id (tmp w).
Proof.
  unfold mkdir_tmp. destruct (tmp_lookup id (tmp w)).
  - exists w; auto 10.
  - eexists; split; [reflexivity|]. simpl.
    rewrite Nat.eqb_refl. auto 10.
Qed.

Lemma downloadToFile_unfold url dp maxRetries w :
  exists w0,
    downloadToFile url dp maxRetries w
    = downloadWithRetry url dp maxRetries (S maxRetries) 0 w0 /\
    net w0 = net w /\ clock w0 = clock w /\ trace w0 = trace w /\
    disk w0 = disk w /\ tmp_remove dp (tmp w0) = tmp_remove dp (tmp w).
Proof.
  destruct (mkdir_tmp_frame dp w) as [w0 [Hm H]].
  exists w0. split; [|exact H].
  unfold downloadToFile, bind. rewrite Hm. reflexivity.
Qed.

(** The general shape of a run of [downloadToFile]. *)
Lemma downloadToFile_run url dp maxRetries w r w' :
  downloadToFile url dp maxRetries w = (r, w') ->
  exists errs tr,
    trace w' = trace w ++ tr /\
    control tr = retry_events 0 errs ++ final_events r /\
    Forall (fun e => isRetryable e = true) errs /\
    (length errs <= maxRetries)%nat /\
    sleeps tr = map (fun k => seconds (2 ^ Z.of_nat k)) (seq 0 (length errs)) /\
    clock w' = (clock w + sum (sleeps tr))%Z /\
    disk w' = disk w /\
    tmp_remove dp (tmp w') = tmp_remove dp (tmp w) /\
    (r = Hang -> net w' = []) /\
    (forall e, r = Throw e ->
       isRetryable e = false \/ length errs = maxRetries).
Proof.
  intros H.
  destruct (downloadToFile_unfold url dp maxRetries w)
    as [w0 [Hu [Hn [Hc [Ht [Hd Hm]]]]]].
  rewrite Hu in H. apply downloadWithRetry_run in H; [|lia|lia].
  destruct H as [errs [tr [Ht' [Hctl [Hall [Hlen [Hclk [Hdk [Htm [Hhang Hex]]]]]]]]]].
  exists errs, tr. simpl in Hlen.
  split; [congruence|]. split; [assumption|]. split; [assumption|].
  split; [lia|]. split.
  { rewrite <- sleeps_control, Hctl, sleeps_app, sleeps_retry_events, sleeps_final.
    apply app_nil_r. }
  split; [congruence|]. split; [congruence|]. split; [congruence|].
  split; [assumption|].
  intros e He. destruct (Hex e He) as [Hx|Hx]; [left; assumption | right; lia].
Qed.

(** The events of a run of [downloadToFile], round by round. *)
Lemma downloadToFile_rounds url dp maxRetries w r w' :
  downloadToFile url dp maxRetries w = (r, w') ->
  exists rounds redirects,
    trace w' = trace w ++ retry_rounds url 0 rounds
               ++ map EvGet (url :: redirects) ++ final_events r /\
    Forall (fun round => isRetryable (snd round) = true) rounds /\
    (length rounds <= maxRetries)%nat.
Proof.
  intros H.
  destruct (downloadToFile_unfold url dp maxRetries w)
    as [w0 [Hu [_ [_ [Ht _]]]]].
  rewrite Hu in H. apply downloadWithRetry_rounds in H; [|lia|lia].
  destruct H as [rounds [redirects [Ht' [Hall Hlen]]]].
  exists rounds, redirects. rewrite <- Ht. simpl in Hlen.
  split; [assumption|]. split; [assumption | lia].
Qed.

Ltac retry_403 url dp Hnet Hs :=
  match goal with
  | |- context [downloadWithRetry _ _ ?m (S ?fuel) ?k ?wc] =>
      let e := fresh "e" in
      let Ha := fresh "Ha" in
      let Hre := fresh "Hre" in
      let Hst := fresh "Hst" in
      destruct (attempt_403 url dp wc _ _ Hnet Hs) as [e [Ha [Hre Hst]]];
      rewrite (retry_step url dp m fuel k wc e _ Ha Hre) by lia
  end.

(** Four rate-limited attempts, then a complete download. *)
Lemma retry_until_fifth url dp w fails res a rest :
  net w = fails ++ Resp res :: rest ->
  length fails = 4%nat -> forallb (has_status 403) fails = true ->
  res_statusCode res = Some 200%Z -> res_body res = BodyOk a ->
  exists w' tr,
    downloadToFile url dp 5 w = (Ok tt, w') /\
    trace w' = trace w ++ tr /\
    requests tr = repeat url 5 /\
    sleeps tr = map seconds [1; 2; 4; 8]%Z /\
    clock w' = (clock w + seconds (1 + 2 + 4 + 8))%Z /\
    net w' = rest.
Proof.
  intros Hn Hlen Hall Hs Hb.
  destruct fails as [|r1 [|r2 [|r3 [|r4 [|r5 fails]]]]]; try discriminate Hlen.
  simpl in Hall, Hn.
  repeat (apply andb_prop in Hall as [? Hall]).
  destruct (downloadToFile_unfold url dp 5 w) as [w0 [Hu [Hn0 [Hc0 [Ht0 _]]]]].
  rewrite Hu. rewrite <- Hn0 in Hn.
  retry_403 url dp Hn H.
  retry_403 url dp (eq_refl (r2 :: r3 :: r4 :: Resp res :: rest)) H0.
  retry_403 url dp (eq_refl (r3 :: r4 :: Resp res :: rest)) H1.
  retry_403 url dp (eq_refl (r4 :: Resp res :: rest)) H2.
  match goal with
  | |- context [downloadWithRetry _ _ _ (S ?fuel) ?k ?wc] =>
      rewrite (retry_done url dp 5 fuel k wc _
                 (attempt_fulfilled url dp wc res rest a eq_refl Hs Hb))
  end.
  eexists. eexists. split; [reflexivity|].
  split; [|split; [|split; [|split]]].
  - simpl. rewrite Ht0, <- !app_assoc. simpl. reflexivity.
  - reflexivity.
  - reflexivity.
  - simpl. rewrite Hc0. unfold backoff, seconds. simpl. lia.
  - reflexivity.
Qed.

(** Six rate-limited attempts exhaust the five retries. *)
Lemma retry_exhausted url dp w fails rest :
  net w = fails ++ rest ->
  length fails = 6%nat -> forallb (has_status 403) fails = true ->
  exists e w' tr,
    downloadToFile url dp 5 w = (Throw e, w') /\
    statusCode e = Some 403%Z /\
    trace w' = trace w ++ tr /\
    requests tr = repeat url 6 /\
    sleeps tr = map seconds [1; 2; 4; 8; 16]%Z /\
    net w' = rest.
Proof.
  intros Hn Hlen Hall.
  destruct fails as [|r1 [|r2 [|r3 [|r4 [|r5 [|r6 [|r7 fails]]]]]]];
    try discriminate Hlen.
  simpl in Hall, Hn.
  repeat (apply andb_prop in Hall as [? Hall]).
  destruct (downloadToFile_unfold url dp 5 w) as [w0 [Hu [Hn0 [Hc0 [Ht0 _]]]]].
  rewrite Hu. rewrite <- Hn0 in Hn.
  retry_403 url dp Hn H.
  retry_403 url dp (eq_refl (r2 :: r3 :: r4 :: r5 :: r6 :: rest)) H0.
  retry_403 url dp (eq_refl (r3 :: r4 :: r5 :: r6 :: rest)) H1.
  retry_403 url dp (eq_refl (r4 :: r5 :: r6 :: rest)) H2.
  retry_403 url dp (eq_refl (r5 :: r6 :: rest)) H3.
  match goal with
  | |- context [downloadWithRetry _ _ _ (S ?fuel) ?k ?wc] =>
      destruct (attempt_403 url dp wc _ _ (eq_refl (r6 :: rest)) H4)
        as [e6 [Ha6 [Hre6 Hst6]]];
      rewrite (retry_stop url dp 5 fuel k wc e6 _ Ha6)
        by (unfold shouldRetry; reflexivity)
  end.
  exists e6. eexists. eexists. split; [reflexivity|].
  split; [assumption|].
  split; [|split; [|split]].
  - simpl. rewrite Ht0, <- !app_assoc. simpl. reflexivity.
  - reflexivity.
  - reflexivity.
  - reflexivity.
Qed.

(** C1.  With [maxRetries = 5], a call is a sequence of at most five
    rounds, each made of an attempt, its rejection with a retryable
    error and a sleep, 2^k seconds long before the (k+1)-th retry,
    followed by a last attempt; a call that fails has
    met a failure that is not retryable or has used up its retries, and
    a call only stays pending when the network stops answering.  Four
    403 responses followed by a complete 200 response make the call
    succeed with five requests and 1+2+4+8 seconds of sleep; six 403
    responses make it fail. *)
Theorem downloadToFile_retry_policy :
  (forall url dp w r w',
     downloadToFile url dp 5 w = (r, w') ->
     exists rounds redirects,
       trace w' = trace w ++ retry_rounds url 0 rounds
                  ++ map EvGet (url :: redirects) ++ final_events r /\
       Forall (fun round => isRetryable (snd round) = true) rounds /\
       (length rounds <= 5)%nat) /\
  (forall url dp w r w',
     downloadToFile url dp 5 w = (r, w') ->
     exists errs tr,
       trace w' = trace w ++ tr /\
       control tr = retry_events 0 errs ++ final_events r /\
       Forall (fun e => isRetryable e = true) errs /\
       (length errs <= 5)%nat /\
       sleeps tr = map (fun k => seconds (2 ^ Z.of_nat k)) (seq 0 (length errs)) /\
       clock w' = (clock w + sum (sleeps tr))%Z /\
       (r = Hang -> net w' = []) /\
       (forall e, r = Throw e -> isRetryable e = false \/ length errs = 5%nat)) /\
  (forall e,
     isRetryable e = true <->
     statusCode e = Some 403%Z \/ includes "rate limit" (message e) = true \/
     code e = Some "ECONNRESET"%string \/ code e = Some "ETIMEDOUT"%string) /\
  (forall url dp w fails res a rest,
     net w = fails ++ Resp res :: rest ->
     length fails = 4%nat -> forallb (has_status 403) fails = true ->
     res_statusCode res = Some 200%Z -> res_body res = BodyOk a ->
     exists w' tr,
       downloadToFile url dp 5 w = (Ok tt, w') /\
       trace w' = trace w ++ tr /\
       requests tr = repeat url 5 /\
       sleeps tr = map seconds [1; 2; 4; 8]%Z /\
       clock w' = (clock w + seconds (1 + 2 + 4 + 8))%Z /\
       net w' = rest) /\
  (forall url dp w fails rest,
     net w = fails ++ rest ->
     length fails = 6%nat -> forallb (has_status 403) fails = true ->
     exists e w' tr,
       downloadToFile url dp 5 w = (Throw e, w') /\
       statusCode e = Some 403%Z /\
       trace w' = trace w ++ tr /\
       requests tr = repeat url 6 /\
       sleeps tr = map seconds [1; 2; 4; 8; 16]%Z /\
       net w' = rest).
Proof.
  split; [exact (fun url dp => downloadToFile_rounds url dp 5)|].
  split; [|split; [|split]].
  - intros url dp w r w' H.
    destruct (downloadToFile_run _ _ _ _ _ _ H)
      as [errs [tr [H1 [H2 [H3 [H4 [H5 [H6 [_ [_ [H7 H8]]]]]]]]]]].
    exists errs, tr; auto 10.
  - intros e. unfold isRetryable, isRateLimit, opt_Z_eqb, opt_string_eqb.
    destruct e as [msg [sc|] [c|]]; simpl;
      rewrite ?orb_true_iff, ?Z.eqb_eq, ?String.eqb_eq; split; intros H.
    all: repeat match goal with
                | H : _ \/ _ |- _ => destruct H
                end; subst; auto; try discriminate.
    all: try (inversion H; subst; auto).
  - exact retry_until_fifth.
  - exact retry_exhausted.
Qed.

(** ** Failures that are not retried *)




Lemma includes_status_message (c : Z) (msg : string) :
  includes "rate limit" ("Failed to download: " ++ string_of_Z c ++ " " ++ msg)%string
  = includes "rate limit" (string_of_Z c ++ " " ++ msg)%string.
Proof. reflexivity. Qed.




(** ** Redirects *)





(** ** Extraction *)

Lemma runCommand_ok env c t w :
  runs_ok env c = true ->
  runCommand env c t w = (Ok tt, untar t (log (EvSpawn c) w)).
Proof.
  unfold runs_ok, runCommand, bind, modify. intros H.
  destruct (spawn env c) as [e|[[| |]|]]; try discriminate H. reflexivity.
Qed.

Lemma runCommand_fails env c t w :
  runs_ok env c = false ->
  exists err,
    runCommand env c t w = (Throw err, log (EvSpawn c) w) /\
    (if opt_string_eqb (code err) "ENOENT" then notFound c else err)
    = recorded env c.
Proof.
  unfold runs_ok, runCommand, recorded, bind, modify, throw. intros H.
  destruct (spawn env c) as [e|[[|p|p]|]]; try discriminate H;
    eexists; (split; [reflexivity|]); reflexivity.
Qed.

Lemma tryCandidates_all_fail env t failure :
  forall cands last w,
    all_fail env cands = true ->
    tryCandidates env t cands last failure w
    = (Throw (failure (last_recorded env cands last)), log_spawns cands w).
Proof.
  induction cands as [|c cands IH]; intros last w H; simpl; [reflexivity|].
  simpl in H. apply andb_prop in H as [Hc H].
  apply negb_true_iff in Hc.
  destruct (runCommand_fails env c t w Hc) as [err [Hr Hrec]].
  unfold try_catch. rewrite Hr.
  destruct (opt_string_eqb (code err) "ENOENT"); rewrite IH by assumption;
    rewrite Hrec; reflexivity.
Qed.

Lemma tryCandidates_first_ok env t failure :
  forall pre c post last w,
    all_fail env pre = true -> runs_ok env c = true ->
    tryCandidates env t (pre ++ c :: post) last failure w
    = (Ok tt, untar t (log_spawns (pre ++ [c]) w)).
Proof.
  induction pre as [|p pre IH]; intros c post last w H Hc; simpl.
  - unfold try_catch. rewrite (runCommand_ok env c t w Hc). reflexivity.
  - simpl in H. apply andb_prop in H as [Hp H].
    apply negb_true_iff in Hp.
    destruct (runCommand_fails env p t w Hp) as [err [Hr Hrec]].
    unfold try_catch. rewrite Hr.
    destruct (opt_string_eqb (code err) "ENOENT"); rewrite IH by assumption;
      reflexivity.
Qed.

Lemma log_spawns_frame cands :
  forall w,
    trace (log_spawns cands w) = trace w ++ map EvSpawn cands /\
    net (log_spawns cands w) = net w /\ clock (log_spawns cands w) = clock w /\
    tmp (log_spawns cands w) = tmp w /\ disk (log_spawns cands w) = disk w.
Proof.
  induction cands as [|c cands IH]; intros w; simpl.
  - rewrite app_nil_r; auto.
  - destruct (IH (log (EvSpawn c) w)) as [Ht [Hn [Hc [Hm Hd]]]].
    rewrite Ht, Hn, Hc, Hm, Hd. simpl. rewrite <- app_assoc. auto.
Qed.

Lemma spawns_map (cands : list string) : spawns (map EvSpawn cands) = cands.
Proof. induction cands; simpl; congruence. Qed.

Lemma last_recorded_last env cands c init :
  last_recorded env (cands ++ [c]) init = Some (recorded env c).
Proof. unfold last_recorded. rewrite fold_left_app. reflexivity. Qed.

Lemma mkdir_extracted_frame t w :
  exists w0, mkdir_extracted t w = (Ok tt, w0) /\
    net w0 = net w /\ clock w0 = clock w /\ trace w0 = trace w /\
    disk w0 = disk w /\ tmp_remove t (tmp w0) = tmp_remove t (tmp w).
Proof.
  unfold mkdir_extracted. destruct (tmp_lookup t (tmp w)) as [s|].
  - destruct (extracted s).
    + exists w; auto 10.
    + eexists; split; [reflexivity|]. simpl. rewrite tmp_remove_update. auto 10.
  - eexists; split; [reflexivity|]. simpl. rewrite Nat.eqb_refl. auto 10.
Qed.

Lemma untar_frame t w :
  disk (untar t w) = disk w /\ other_tmp t (untar t w) = other_tmp t w /\
  trace (untar t w) = trace w /\ net (untar t w) = net w /\
  clock (untar t w) = clock w.
Proof.
  unfold untar, other_tmp. destruct (tmp_lookup t (tmp w)); simpl;
    rewrite ?tmp_remove_update; auto.
Qed.

Lemma extract_first_ok env t cands failure w pre c post :
  cands = pre ++ c :: post ->
  all_fail env pre = true -> runs_ok env c = true ->
  exists w',
    (mkdir_extracted t ;; tryCandidates env t cands None failure) w = (Ok tt, w') /\
    trace w' = trace w ++ map EvSpawn (pre ++ [c]).
Proof.
  intros -> Hpre Hok. unfold bind.
  destruct (mkdir_extracted_frame t w) as [w0 [Hm [_ [_ [Ht _]]]]].
  rewrite Hm, (tryCandidates_first_ok env t _ pre c post None w0 Hpre Hok).
  eexists; split; [reflexivity|].
  destruct (untar_frame t (log_spawns (pre ++ [c]) w0)) as [_ [_ [Hu _]]].
  destruct (log_spawns_frame (pre ++ [c]) w0) as [Hl _].
  rewrite Hu, Hl, Ht. reflexivity.
Qed.

Lemma extract_all_fail env t cands failure w :
  all_fail env cands = true ->
  exists w',
    (mkdir_extracted t ;; tryCandidates env t cands None failure) w
    = (Throw (failure (last_recorded env cands None)), w') /\
    trace w' = trace w ++ map EvSpawn cands /\
    disk w' = disk w /\ net w' = net w /\ clock w' = clock w.
Proof.
  intros Hall. unfold bind.
  destruct (mkdir_extracted_frame t w) as [w0 [Hm [Hn [Hc [Ht [Hd _]]]]]].
  rewrite Hm, (tryCandidates_all_fail env t _ _ None w0 Hall).
  eexists; split; [reflexivity|].
  destruct (log_spawns_frame cands w0) as [Hl [Hn' [Hc' [_ Hd']]]].
  rewrite Hl, Hn', Hc', Hd', Ht, Hn, Hc, Hd. auto.
Qed.

(** ** Reasoning about sequenced computations *)

Lemma bind_inv {S A B} (m : M S A) (k : A -> M S B) s r s' :
  bind m k s = (r, s') ->
  (exists a s1, m s = (Ok a, s1) /\ k a s1 = (r, s')) \/
  (exists e, m s = (Throw e, s') /\ r = Throw e) \/
  (m s = (Hang, s') /\ r = Hang).
Proof.
  unfold bind. destruct (m s) as [[a|e|] s1]; intros H.
  - left; eauto.
  - right; left. inversion H; subst; eauto.
  - right; right. inversion H; subst; eauto.
Qed.

Lemma bind_ok_inv {S A B} (m : M S A) (k : A -> M S B) s b s' :
  bind m k s = (Ok b, s') ->
  exists a s1, m s = (Ok a, s1) /\ k a s1 = (Ok b, s').
Proof.
  intros H. apply bind_inv in H as [H|[[e [_ H]]|[_ H]]];
    [assumption | discriminate | discriminate].
Qed.

Lemma preserves_bind {A B X} (obs : World -> X) (m : M World A) (k : A -> M World B) :
  preserves obs m -> (forall a, preserves obs (k a)) -> preserves obs (bind m k).
Proof.
  intros Hm Hk w r w' H.
  apply bind_inv in H as [[a [w1 [H1 H2]]]|[[e [H1 _]]|[H1 _]]].
  - rewrite (Hk a _ _ _ H2). exact (Hm _ _ _ H1).
  - exact (Hm _ _ _ H1).
  - exact (Hm _ _ _ H1).
Qed.

Lemma preserves_try_catch {A X} (obs : World -> X) (m : M World A) h :
  preserves obs m -> (forall e, preserves obs (h e)) -> preserves obs (try_catch m h).
Proof.
  intros Hm Hh w r w' H. unfold try_catch in H.
  destruct (m w) as [[a|e|] w1] eqn:E.
  - inversion H; subst. exact (Hm _ _ _ E).
  - rewrite (Hh e _ _ _ H). exact (Hm _ _ _ E).
  - inversion H; subst. exact (Hm _ _ _ E).
Qed.

Lemma preserves_ret {A X} (obs : World -> X) (a : A) : preserves obs (ret a).
Proof. intros w r w' H; inversion H; reflexivity. Qed.

Lemma preserves_throw {A X} (obs : World -> X) (e : Error) :
  preserves obs (@throw World A e).
Proof. intros w r w' H; inversion H; reflexivity. Qed.

Lemma preserves_modify {X} (obs : World -> X) (f : World -> World) :
  (forall w, obs (f w) = obs w) -> preserves obs (modify f).
Proof. intros Hf w r w' H; inversion H; apply Hf. Qed.

Lemma preserves_downloadToFile_disk url t n :
  preserves disk (downloadToFile url t n).
Proof.
  intros w r w' H. apply downloadToFile_run in H.
  destruct H as [errs [tr H]]. tauto.
Qed.

Lemma preserves_downloadToFile_tmp url t n :
  preserves (other_tmp t) (downloadToFile url t n).
Proof.
  intros w r w' H. apply downloadToFile_run in H.
  destruct H as [errs [tr H]]. unfold other_tmp. tauto.
Qed.

Lemma preserves_runCommand_disk env c t : preserves disk (runCommand env c t).
Proof.
  unfold runCommand. apply preserves_bind; [apply preserves_modify; reflexivity|].
  intros _. destruct (spawn env c) as [e|[[| |]|]];
    try apply preserves_throw.
  apply preserves_modify. intros w. apply untar_frame.
Qed.

Lemma preserves_runCommand_tmp env c t : preserves (other_tmp t) (runCommand env c t).
Proof.
  unfold runCommand. apply preserves_bind; [apply preserves_modify; reflexivity|].
  intros _. destruct (spawn env c) as [e|[[| |]|]];
    try apply preserves_throw.
  apply preserves_modify. intros w. apply untar_frame.
Qed.

Lemma preserves_tryCandidates {X} (obs : World -> X) env t failure :
  (forall c, preserves obs (runCommand env c t)) ->
  forall cands last, preserves obs (tryCandidates env t cands last failure).
Proof.
  intros Hrun. induction cands as [|c cands IH]; intros last; simpl.
  - apply preserves_throw.
  - apply preserves_try_catch; [apply Hrun|].
    intros e. destruct (opt_string_eqb (code e) "ENOENT"); apply IH.
Qed.

Lemma preserves_mkdir_extracted_disk t : preserves disk (mkdir_extracted t).
Proof.
  intros w r w' H. destruct (mkdir_extracted_frame t w) as [w0 [Hm F]].
  rewrite Hm in H. inversion H; subst. tauto.
Qed.

Lemma preserves_mkdir_extracted_tmp t : preserves (other_tmp t) (mkdir_extracted t).
Proof.
  intros w r w' H. destruct (mkdir_extracted_frame t w) as [w0 [Hm F]].
  rewrite Hm in H. inversion H; subst. unfold other_tmp. tauto.
Qed.

Lemma preserves_read_extracted {X} (obs : World -> X) t :
  preserves obs (read_extracted t).
Proof.
  intros w r w' H. unfold read_extracted in H.
  destruct (tmp_lookup t (tmp w)) as [s|]; [destruct (extracted s)|];
    inversion H; reflexivity.
Qed.

Lemma preserves_on_disk_tmp {A} t (m : M (option node) A) :
  preserves (other_tmp t) (on_disk m).
Proof.
  intros w r w' H. unfold on_disk in H.
  destruct (m (disk w)) as [r0 d]. inversion H; reflexivity.
Qed.

Lemma preserves_rm_tmp_disk t : preserves disk (rm_tmp t).
Proof. apply preserves_modify; reflexivity. Qed.

Lemma tmp_remove_idem t l : tmp_remove t (tmp_remove t l) = tmp_remove t l.
Proof.
  induction l as [|[k s] l IH]; simpl; [reflexivity|].
  destruct (Nat.eqb t k) eqn:E; simpl; rewrite ?E, IH; reflexivity.
Qed.

Lemma preserves_rm_tmp_tmp t : preserves (other_tmp t) (rm_tmp t).
Proof.
  apply preserves_modify. intros w. unfold other_tmp. simpl.
  apply tmp_remove_idem.
Qed.

(** ** The scratch directory *)

Lemma tmp_lookup_remove t l : tmp_lookup t (tmp_remove t l) = None.
Proof.
  induction l as [|[k s] l IH]; simpl; [reflexivity|].
  destruct (Nat.eqb t k) eqn:E; simpl; rewrite ?E; exact IH.
Qed.

Lemma tmp_remove_missing t l : tmp_lookup t l = None -> tmp_remove t l = l.
Proof.
  induction l as [|[k s] l IH]; simpl; [reflexivity|].
  destruct (Nat.eqb t k); [discriminate|]. intros H; rewrite (IH H); reflexivity.
Qed.

Lemma ends_clean_bind {A B} t (m : M World A) (k : A -> M World B) :
  (forall a, ends_clean t (k a)) -> ends_clean t (bind m k).
Proof.
  intros Hk w b w' H. apply bind_ok_inv in H as [a [w1 [_ H]]].
  exact (Hk a _ _ _ H).
Qed.

Lemma ends_clean_rm_tmp t : ends_clean t (rm_tmp t).
Proof.
  intros w a w' H. inversion H; subst. simpl. apply tmp_lookup_remove.
Qed.

Lemma preserves_extractTarGz_tmp env t :
  preserves (other_tmp t) (GeneratePackages.extractTarGz env t).
Proof.
  apply preserves_bind; [apply preserves_mkdir_extracted_tmp|].
  intros _. apply preserves_tryCandidates. intros c. apply preserves_runCommand_tmp.
Qed.

Lemma preserves_extractTarGz_disk env t :
  preserves disk (GeneratePackages.extractTarGz env t).
Proof.
  apply preserves_bind; [apply preserves_mkdir_extracted_disk|].
  intros _. apply preserves_tryCandidates. intros c. apply preserves_runCommand_disk.
Qed.

Lemma preserves_stage_tmp env url t destDir sub :
  preserves (other_tmp t) (GeneratePackages.stage env url t destDir sub).
Proof.
  unfold GeneratePackages.stage.
  apply preserves_bind; [apply preserves_downloadToFile_tmp|]. intros _.
  apply preserves_bind; [apply preserves_extractTarGz_tmp|]. intros _.
  apply preserves_bind; [apply preserves_read_extracted|]. intros es.
  apply preserves_bind.
  { destruct (length es =? 0)%nat; [apply preserves_throw | apply preserves_ret]. }
  intros _.
  apply preserves_bind; [apply preserves_on_disk_tmp|]. intros _.
  apply preserves_rm_tmp_tmp.
Qed.

Lemma ends_clean_stage env url t destDir sub :
  ends_clean t (GeneratePackages.stage env url t destDir sub).
Proof.
  unfold GeneratePackages.stage.
  repeat (apply ends_clean_bind; intros ?).
  apply ends_clean_rm_tmp.
Qed.

Lemma mkdtempSync_spec w :
  mkdtempSync w
  = (Ok (fresh (tmp w)),
     set_tmp ((fresh (tmp w), mkScratch None None) :: tmp w) w) /\
  other_tmp (fresh (tmp w)) (snd (mkdtempSync w)) = tmp w.
Proof.
  split; [reflexivity|]. unfold other_tmp. simpl.
  rewrite Nat.eqb_refl. apply tmp_remove_absent, fresh_absent.
Qed.

(** The shape shared by the three staging functions: make a scratch
    directory, run the [try] block, remove the directory on both exits. *)
Lemma with_scratch_cleanup (body : nat -> M World unit) w r w' :
  (forall t, preserves (other_tmp t) (body t)) ->
  (forall t, ends_clean t (body t)) ->
  (tempDir <- mkdtempSync ;;
   try_catch (body tempDir) (fun error => rm_tmp tempDir ;; throw error)) w
  = (r, w') ->
  settled r = true ->
  tmp w' = tmp w /\
  tmp_lookup (fresh (tmp w)) (tmp w') = None /\
  exists w1,
    body (fresh (tmp w)) (snd (mkdtempSync w)) = (r, w1) /\
    disk w' = disk w1 /\ trace w' = trace w1 /\
    clock w' = clock w1 /\ net w' = net w1.
Proof.
  intros Hp Hc H Hs.
  destruct (mkdtempSync_spec w) as [Hmk Hother].
  unfold bind in H. rewrite Hmk in H. rewrite Hmk in Hother. simpl in Hother.
  rewrite Hmk. simpl snd.
  unfold other_tmp in Hother.
  set (t := fresh (tmp w)) in *.
  set (w0 := set_tmp ((t, mkScratch None None) :: tmp w) w) in *.
  unfold try_catch in H.
  destruct (body t w0) as [[[]|e|] w1] eqn:Hb.
  - inversion H; subst r w'; clear H.
    pose proof (Hc t _ _ _ Hb) as Hgone.
    pose proof (Hp t _ _ _ Hb) as Hsame. unfold other_tmp in Hsame.
    rewrite (tmp_remove_missing _ _ Hgone) in Hsame.
    split; [congruence|]. split; [assumption|].
    exists w1; auto.
  - unfold bind, rm_tmp, modify, throw in H.
    inversion H; subst r w'; clear H. simpl.
    pose proof (Hp t _ _ _ Hb) as Hsame. unfold other_tmp in Hsame.
    split; [congruence|]. split; [apply tmp_lookup_remove|].
    exists w1; auto.
  - inversion H; subst r. discriminate Hs.
Qed.

(** C8.  When [downloadAndExtractAsset] returns or throws, the scratch
    directory it made is gone and the temporary area is as it was before
    the call; its outcome, and so the error it throws, is the one of its
    [try] block, and the cleanup leaves the destination tree as that
    block left it. *)
Theorem scratch_always_deleted env artifact releaseTag destDir srcSubdir w r w' :
  GeneratePackages.downloadAndExtractAsset env artifact releaseTag destDir srcSubdir w
  = (r, w') ->
  settled r = true ->
  tmp w' = tmp w /\
  tmp_lookup (fresh (tmp w)) (tmp w') = None /\
  exists w1,
    GeneratePackages.stage env (GeneratePackages.downloadUrl artifact releaseTag)
      (fresh (tmp w)) destDir srcSubdir (snd (mkdtempSync w)) = (r, w1) /\
    disk w' = disk w1 /\ trace w' = trace w1 /\
    clock w' = clock w1 /\ net w' = net w1.
Proof.
  intros H Hs.
  apply (with_scratch_cleanup
           (fun t => GeneratePackages.stage env
                       (GeneratePackages.downloadUrl artifact releaseTag)
                       t destDir srcSubdir) w r w'); auto.
  - intros t. apply preserves_stage_tmp.
  - intros t. apply ends_clean_stage.
Qed.

(** ** Directory listings and paths *)

Lemma lookup_put_same k n es : lookup k (put k n es) = Some n.
Proof.
  induction es as [|[k' n'] es IH]; simpl.
  - rewrite String.eqb_refl; reflexivity.
  - destruct (String.eqb k k') eqn:E; simpl; rewrite E; [reflexivity | exact IH].
Qed.

Lemma lookup_put_other k k' n es :
  k' <> k -> lookup k' (put k n es) = lookup k' es.
Proof.
  intros Hne. induction es as [|[x n'] es IH]; simpl.
  - apply String.eqb_neq in Hne. rewrite Hne. reflexivity.
  - destruct (String.eqb k x) eqn:E; simpl.
    + apply String.eqb_eq in E; subst x.
      apply String.eqb_neq in Hne. rewrite Hne. reflexivity.
    + destruct (String.eqb k' x); [reflexivity | exact IH].
Qed.

Lemma lookup_remove_same k es : lookup k (remove k es) = None.
Proof.
  induction es as [|[k' n'] es IH]; simpl; [reflexivity|].
  destruct (String.eqb k k') eqn:E; simpl; rewrite ?E; exact IH.
Qed.

Lemma lookup_set_child k c es : lookup k (set_child k c es) = c.
Proof.
  destruct c; simpl; [apply lookup_put_same | apply lookup_remove_same].
Qed.


Lemma lookup_names k es : lookup k es <> None <-> In k (names es).
Proof.
  induction es as [|[k' n'] es IH]; simpl; [intuition|].
  destruct (String.eqb k k') eqn:E.
  - apply String.eqb_eq in E; subst. split; [auto | discriminate].
  - apply String.eqb_neq in E. rewrite IH. intuition congruence.
Qed.

Lemma lookup_path_None p : lookup_path p None = None.
Proof. destruct p; reflexivity. Qed.

Lemma at_path_lookup {A} (m : M (option node) A) :
  forall p d x,
    lookup_path p d = Some x ->
    exists d',
      at_path p m d = (fst (m (Some x)), d') /\
      lookup_path p d' = snd (m (Some x)).
Proof.
  induction p as [|k rest IH]; intros d x H; simpl in *.
  - subst d. exists (snd (m (Some x))). split; [|reflexivity].
    destruct (m (Some x)); reflexivity.
  - destruct d as [[data|es|sp]|]; try discriminate H.
    destruct (IH _ _ H) as [c [Ha Hl]].
    unfold at_child. rewrite Ha.
    eexists; split; [reflexivity|]. simpl.
    rewrite lookup_set_child. exact Hl.
Qed.

Lemma mkdir_p_spec :
  forall p d d',
    mkdir_p p d = (Ok tt, d') ->
    exists es,
      lookup_path p d' = Some (Dir es) /\
      (lookup_path p d = None -> es = []) /\
      (forall es0, lookup_path p d = Some (Dir es0) -> es = es0).
Proof.
  induction p as [|k rest IH]; intros d d' H; simpl in *.
  - unfold mkdirSync in H. destruct d as [[data|es|sp]|]; inversion H; subst.
    + exists es. split; [reflexivity|]. split; [discriminate|].
      intros es0 E; inversion E; reflexivity.
    + exists []. split; [reflexivity|]. split; [reflexivity | discriminate].
  - unfold bind, mkdirSync in H.
    destruct d as [[data|es|sp]|]; try discriminate H; unfold at_child in H.
    + destruct (mkdir_p rest (lookup k es)) as [r c] eqn:E.
      inversion H; subst r d'; clear H.
      destruct (IH _ _ E) as [es' [Hl [Hn Hs]]].
      exists es'. simpl. rewrite lookup_set_child. auto.
    + destruct (mkdir_p rest (lookup k [])) as [r c] eqn:E.
      inversion H; subst r d'; clear H.
      destruct (IH _ _ E) as [es' [Hl [Hn Hs]]]. simpl in Hn, Hs.
      exists es'. simpl. rewrite lookup_set_child.
      split; [assumption|]. split; [intros _; apply Hn; apply lookup_path_None|].
      discriminate.
Qed.

(** ** Copying *)

Lemma copyDir_Dir env entries :
  copyDir env (Dir entries) = (mkdirSync ;; for_of entries (copyEntry env)).
Proof.
  simpl. f_equal.
  induction entries as [|[name stat] rest IH]; [reflexivity|].
  simpl for_of. rewrite <- IH. reflexivity.
Qed.

Lemma keeps_dir_at_child name m : keeps_dir (at_child name m).
Proof.
  intros es r d H. unfold at_child in H.
  destruct (m (lookup name es)) as [r0 c]. inversion H; eauto.
Qed.



Lemma keeps_dir_copyItem env entry : keeps_dir (copyItem env entry).
Proof.
  destruct entry as [name stat]. unfold copyItem.
  destruct (isDirectory stat); apply keeps_dir_at_child.
Qed.

Lemma mkdirSync_ok d d' :
  mkdirSync d = (Ok tt, d') ->
  exists es, d' = Some (Dir es) /\
             (d = None -> es = []) /\ (forall es0, d = Some (Dir es0) -> es = es0).
Proof.
  unfold mkdirSync. destruct d as [[data|es|sp]|]; intros H; inversion H; subst.
  - exists es. split; [reflexivity|]. split; [discriminate|].
    intros es0 E; inversion E; reflexivity.
  - exists []. split; [reflexivity|]. split; [reflexivity | discriminate].
Qed.







(** ** The staging functions, after the download and the extraction *)

Lemma fetch_cases (extract : nat -> M World unit) url t {B}
  (k : listing -> M World B) w :
  (downloadToFile url t 5 ;; extract t ;; es <- read_extracted t ;; k es) w
  = (es <- fetch extract url t ;; k es) w.
Proof.
  unfold fetch, bind.
  destruct (downloadToFile url t 5 w) as [[[]|e|] w1]; try reflexivity.
  destruct (extract t w1) as [[[]|e|] w2]; reflexivity.
Qed.

Lemma GeneratePackages_stage_fetch env url t destDir sub w es w2 :
  fetch (GeneratePackages.extractTarGz env) url t w = (Ok es, w2) ->
  GeneratePackages.stage env url t destDir sub w
  = ((if (length es =? 0)%nat then throw noContents else ret tt) ;;
     on_disk (copyItems env destDir (Some (locatePayload es sub))) ;;
     rm_tmp t) w2.
Proof.
  intros H. unfold GeneratePackages.stage.
  rewrite (fetch_cases (GeneratePackages.extractTarGz env)).
  unfold bind at 1. rewrite H. reflexivity.
Qed.

Lemma Postinstall_stage_fetch env skia asset t destDir sub w es w2 :
  fetch (Postinstall.extractTarGz env asset) (Postinstall.downloadUrl skia asset) t w
  = (Ok es, w2) ->
  Postinstall.stage env skia asset t destDir sub w
  = ((if (length es =? 0)%nat then throw noContents else ret tt) ;;
     on_disk (copyItems env destDir (Some (locatePayload es sub))) ;;
     rm_tmp t) w2.
Proof.
  intros H. unfold Postinstall.stage.
  rewrite (fetch_cases (Postinstall.extractTarGz env asset)).
  unfold bind at 1. rewrite H. reflexivity.
Qed.

Lemma DownloadBinaries_stage_fetch env url t dest sub w es w2 :
  fetch (DownloadBinaries.extractTarGz env) url t w = (Ok es, w2) ->
  DownloadBinaries.stage env url t dest sub w
  = (on_disk (copyItems env dest (Some (locatePayload_exists es (Some sub)))) ;;
     rm_tmp t) w2.
Proof.
  intros H. unfold DownloadBinaries.stage.
  rewrite (fetch_cases (DownloadBinaries.extractTarGz env)).
  unfold bind at 1. rewrite H. reflexivity.
Qed.

Lemma preserves_tar_disk env t cands failure :
  preserves disk (mkdir_extracted t ;; tryCandidates env t cands None failure).
Proof.
  apply preserves_bind; [apply preserves_mkdir_extracted_disk|].
  intros _. apply preserves_tryCandidates. intros c. apply preserves_runCommand_disk.
Qed.

Lemma preserves_tar_tmp env t cands failure :
  preserves (other_tmp t)
    (mkdir_extracted t ;; tryCandidates env t cands None failure).
Proof.
  apply preserves_bind; [apply preserves_mkdir_extracted_tmp|].
  intros _. apply preserves_tryCandidates. intros c. apply preserves_runCommand_tmp.
Qed.

Lemma preserves_fetch {X} (obs : World -> X) extract url t :
  preserves obs (downloadToFile url t 5) -> preserves obs (extract t) ->
  preserves obs (fetch extract url t).
Proof.
  intros Hd He. unfold fetch.
  apply preserves_bind; [assumption|]. intros _.
  apply preserves_bind; [assumption|]. intros _.
  apply preserves_read_extracted.
Qed.

Lemma copyItems_empty env p d d1 :
  mkdir_p p d = (Ok tt, d1) ->
  exists d2 es,
    copyItems env p (Some (Dir [])) d = (Ok tt, d2) /\
    lookup_path p d2 = Some (Dir es) /\
    (lookup_path p d = None -> es = []).
Proof.
  intros H. unfold copyItems, bind. rewrite H. simpl.
  apply mkdir_p_spec in H as [es [Hl [Hnew _]]].
  destruct (at_path_lookup (ret tt) p d1 _ Hl) as [d2 [Ha Hl2]].
  rewrite Ha. simpl in *. exists d2, es. auto.
Qed.

(** C6 on the code.  When the extraction directory is empty,
    [downloadArtifact] of download-binaries.ts copies nothing and
    returns normally, leaving a destination directory that is empty when
    it did not exist before; [downloadAndExtractAsset] of
    generate-packages.ts and of postinstall.mjs throw "Archive extracted
    but no contents found" and leave the destination tree untouched. *)
Theorem empty_archive_handling :
  (forall env archConfig skiaVersion outputDir graphite w w2 d,
     fetch (DownloadBinaries.extractTarGz env)
       (DownloadBinaries.downloadUrl archConfig skiaVersion graphite)
       (fresh (tmp w)) (snd (mkdtempSync w)) = (Ok [], w2) ->
     mkdir_p (DownloadBinaries.destDir archConfig outputDir) (disk w) = (Ok tt, d) ->
     exists w' es,
       DownloadBinaries.downloadArtifact env archConfig skiaVersion outputDir graphite w
       = (Ok tt, w') /\
       lookup_path (DownloadBinaries.destDir archConfig outputDir) (disk w')
       = Some (Dir es) /\
       (lookup_path (DownloadBinaries.destDir archConfig outputDir) (disk w) = None ->
        es = [])) /\
  (forall env artifact releaseTag destDir srcSubdir w w2,
     fetch (GeneratePackages.extractTarGz env)
       (GeneratePackages.downloadUrl artifact releaseTag)
       (fresh (tmp w)) (snd (mkdtempSync w)) = (Ok [], w2) ->
     exists w',
       GeneratePackages.downloadAndExtractAsset env artifact releaseTag destDir
         srcSubdir w = (Throw noContents, w') /\
       disk w' = disk w /\ tmp w' = tmp w) /\
  (forall env skia asset destDir srcSubdir w w2,
     fetch (Postinstall.extractTarGz env asset) (Postinstall.downloadUrl skia asset)
       (fresh (tmp w)) (snd (mkdtempSync w)) = (Ok [], w2) ->
     exists w',
       Postinstall.downloadAndExtractAsset env skia asset destDir srcSubdir w
       = (Throw noContents, w') /\
       disk w' = disk w /\ tmp w' = tmp w) /\
  message noContents = "Archive extracted but no contents found"%string.
Proof.
  split; [|split; [|split; [|reflexivity]]].
  - intros env archConfig skiaVersion outputDir graphite w w2 d Hf Hm.
    assert (Hd : disk w2 = disk w).
    { apply (preserves_fetch disk _ _ _
               (preserves_downloadToFile_disk _ _ _)
               (preserves_tar_disk env _ _ _)) in Hf. exact Hf. }
    rewrite <- Hd in Hm.
    destruct (copyItems_empty env _ _ _ Hm) as [d2 [es [Hc [Hl Hnew]]]].
    unfold DownloadBinaries.downloadArtifact, bind at 1.
    destruct (mkdtempSync_spec w) as [Hmk _]. rewrite Hmk in *. simpl snd in Hf.
    unfold try_catch.
    rewrite (DownloadBinaries_stage_fetch _ _ _ _ _ _ _ _ Hf).
    unfold bind, on_disk. simpl locatePayload_exists.
    replace (match truthy (Some (DownloadBinaries.srcSubdir archConfig)) with
             | Some _ | _ => Dir []
             end) with (Dir []) by (destruct (truthy _); reflexivity).
    rewrite Hc. simpl.
    eexists; exists es. split; [reflexivity|]. simpl.
    rewrite <- Hd. auto.
  - intros env artifact releaseTag destDir srcSubdir w w2 Hf.
    assert (Hd : disk w2 = disk w).
    { apply (preserves_fetch disk _ _ _
               (preserves_downloadToFile_disk _ _ _)
               (preserves_tar_disk env _ _ _)) in Hf. exact Hf. }
    assert (Ht : other_tmp (fresh (tmp w)) w2 = tmp w).
    { apply (preserves_fetch (other_tmp (fresh (tmp w))) _ _ _
               (preserves_downloadToFile_tmp _ _ _)
               (preserves_tar_tmp env _ _ _)) in Hf.
      rewrite Hf. apply mkdtempSync_spec. }
    unfold GeneratePackages.downloadAndExtractAsset, bind at 1.
    destruct (mkdtempSync_spec w) as [Hmk _]. rewrite Hmk in *. simpl snd in Hf.
    unfold try_catch.
    rewrite (GeneratePackages_stage_fetch _ _ _ _ _ _ _ _ Hf).
    simpl. eexists; split; [reflexivity|]. simpl. auto.
  - intros env skia asset destDir srcSubdir w w2 Hf.
    assert (Hd : disk w2 = disk w).
    { apply (preserves_fetch disk _ _ _
               (preserves_downloadToFile_disk _ _ _)
               (preserves_tar_disk env _ _ _)) in Hf. exact Hf. }
    assert (Ht : other_tmp (fresh (tmp w)) w2 = tmp w).
    { apply (preserves_fetch (other_tmp (fresh (tmp w))) _ _ _
               (preserves_downloadToFile_tmp _ _ _)
               (preserves_tar_tmp env _ _ _)) in Hf.
      rewrite Hf. apply mkdtempSync_spec. }
    unfold Postinstall.downloadAndExtractAsset, bind at 1.
    destruct (mkdtempSync_spec w) as [Hmk _]. rewrite Hmk in *. simpl snd in Hf.
    unfold try_catch.
    rewrite (Postinstall_stage_fetch _ _ _ _ _ _ _ _ _ Hf).
    simpl. eexists; split; [reflexivity|]. simpl. auto.
Qed.

(** ** Payload discovery *)






Lemma locatePayload_wrapper_only top wrapper sub :
  truthy sub = None \/
  (exists s, truthy sub = Some s /\
             forall inner, lookup s wrapper <> Some (Dir inner)) ->
  locatePayload [(top, Dir wrapper)] sub = Dir wrapper.
Proof.
  unfold locatePayload. simpl. intros [H|[s [H Hn]]]; rewrite H; [reflexivity|].
  destruct (lookup s wrapper) as [[data|inner|k]|] eqn:E; simpl; try reflexivity.
  exfalso; exact (Hn inner eq_refl).
Qed.




(** ** The installation check of postinstall.mjs *)









(** ** Special files *)

Section NodeInduction.

Variable P : node -> Prop.
Hypothesis P_File : forall data, P (File data).
Hypothesis P_Special : forall k, P (Special k).
Hypothesis P_Dir : forall es, Forall (fun e => P (snd e)) es -> P (Dir es).

Fixpoint node_induction (n : node) : P n :=
  match n with
  | File data => P_File data
  | Special k => P_Special k
  | Dir es =>
      P_Dir es
        ((fix go (es : listing) : Forall (fun e => P (snd e)) es :=
            match es with
            | [] => Forall_nil _
            | e :: rest => Forall_cons e (node_induction (snd e)) (go rest)
            end) es)
  end.

End NodeInduction.

Lemma prune_Dir es : prune (Dir es) = Dir (prune_entries es).
Proof.
  simpl. f_equal. induction es as [|[k c] es IH]; [reflexivity|].
  simpl. rewrite IH. destruct (isSpecial c); reflexivity.
Qed.

Lemma well_formed_Dir es :
  well_formed (Dir es) <-> NoDup (names es) /\ Forall (fun e => well_formed (snd e)) es.
Proof.
  simpl. apply and_iff_compat_l.
  induction es as [|[k c] es IH]; simpl.
  - split; constructor.
  - rewrite IH. split.
    + intros [H1 H2]; constructor; assumption.
    + intros H; inversion H; subst; auto.
Qed.

Lemma lookup_absent k es : ~ In k (names es) -> lookup k es = None.
Proof.
  intros H. destruct (lookup k es) eqn:E; [|reflexivity].
  exfalso. apply H, lookup_names. congruence.
Qed.

Lemma put_absent k n es : ~ In k (names es) -> put k n es = es ++ [(k, n)].
Proof.
  induction es as [|[k' n'] es IH]; simpl; intros H; [reflexivity|].
  destruct (String.eqb k k') eqn:E.
  - apply String.eqb_eq in E; subst. tauto.
  - rewrite IH; tauto.
Qed.

Lemma names_prune_entries es x : In x (names (prune_entries es)) -> In x (names es).
Proof.
  induction es as [|[k c] es IH]; simpl; [tauto|].
  unfold names in *. rewrite map_app, in_app_iff. intros [H|H]; [|auto].
  destruct (isSpecial c); simpl in H; tauto.
Qed.

Lemma copyEntries_fresh env :
  forall es acc,
    Forall (fun e => well_formed (snd e) ->
                     forall es', snd e = Dir es' ->
                       copyDir env (snd e) None = (Ok tt, Some (prune (snd e)))) es ->
    Forall (fun e => well_formed (snd e)) es ->
    NoDup (names es) ->
    (forall x, In x (names acc) -> ~ In x (names es)) ->
    for_of es (copyEntry env) (Some (Dir acc))
    = (Ok tt, Some (Dir (acc ++ prune_entries es))).
Proof.
  induction es as [|[k c] es IH]; intros acc Hih Hwf Hnd Hdis.
  - simpl. rewrite app_nil_r. reflexivity.
  - change (for_of ((k, c) :: es) (copyEntry env))
      with (copyEntry env (k, c) ;; for_of es (copyEntry env)).
    change (prune_entries ((k, c) :: es))
      with ((if isSpecial c then [] else [(k, prune c)]) ++ prune_entries es).
    inversion Hih as [|? ? Hc Hih']; subst.
    inversion Hwf as [|? ? Hwc Hwf']; subst.
    simpl in Hnd. inversion Hnd as [|? ? Hk Hnd']; subst.
    simpl in Hc, Hwc.
    assert (Hka : ~ In k (names acc)).
    { intros Hin. apply (Hdis k Hin). simpl. auto. }
    unfold bind.
    assert (Hstep :
      copyEntry env (k, c) (Some (Dir acc))
      = (Ok tt, Some (Dir (acc ++ if isSpecial c then [] else [(k, prune c)])))).
    { unfold copyEntry. fold (isSpecial c).
      destruct c as [data|es'|sp].
      - simpl. unfold at_child. rewrite (lookup_absent k acc Hka). simpl.
        rewrite (put_absent k _ acc Hka). reflexivity.
      - change (isSpecial (Dir es')) with false. cbv iota.
        change (isDirectory (Dir es')) with true. cbv iota.
        unfold at_child. rewrite (lookup_absent k acc Hka).
        rewrite (Hc Hwc es' eq_refl). simpl set_child.
        rewrite (put_absent k _ acc Hka). reflexivity.
      - assert (Hs : isSpecial (Special sp) = true) by (destruct sp; reflexivity).
        rewrite Hs. rewrite app_nil_r. reflexivity. }
    rewrite Hstep.
    rewrite IH; auto.
    + rewrite <- app_assoc. reflexivity.
    + intros x Hx Hin. unfold names in Hx. rewrite map_app, in_app_iff in Hx.
      destruct Hx as [Hx|Hx].
      * apply (Hdis x Hx). simpl. auto.
      * destruct (isSpecial c); simpl in Hx; [tauto|].
        destruct Hx as [<-|[]]. tauto.
Qed.

(** [copyDir] into a place where nothing exists yet returns, and leaves
    there the source tree without its special files: directories are
    copied recursively, regular files with their contents. *)
Lemma copyDir_prunes env :
  forall src,
    well_formed src ->
    forall es, src = Dir es -> copyDir env src None = (Ok tt, Some (prune src)).
Proof.
  induction src as [data|k|es IH] using node_induction; intros Hwf es' E;
    try discriminate E.
  clear E es'. rewrite copyDir_Dir, prune_Dir.
  apply well_formed_Dir in Hwf as [Hnd Hall].
  unfold bind, mkdirSync. cbv beta iota.
  rewrite (copyEntries_fresh env es [] IH Hall Hnd); [reflexivity|].
  intros x [].
Qed.

Lemma mkdir_p_None p :
  exists d, mkdir_p p None = (Ok tt, d) /\ lookup_path p d = Some (Dir []).
Proof.
  induction p as [|k rest IH]; simpl.
  - eexists; split; reflexivity.
  - destruct IH as [c [Hm Hl]].
    unfold bind, at_child. simpl. rewrite Hm.
    eexists; split; [reflexivity|]. simpl.
    rewrite lookup_set_child. exact Hl.
Qed.

Lemma copyItems_with_special env destDir data k :
  fst (copyItems env destDir (Some (Dir (with_special data k))) None)
  = match read_special env k with
    | ReadFails e => Throw e
    | ReadBlocks => Hang
    | ReadYields _ => Ok tt
    end /\
  lookup_path destDir
    (snd (copyItems env destDir (Some (Dir (with_special data k))) None))
  = Some (Dir (("libskia.a"%string, File data)
               :: match read_special env k with
                  | ReadYields bytes => [("pipe"%string, File bytes)]
                  | _ => []
                  end)).
Proof.
  destruct (mkdir_p_None destDir) as [d1 [Hm Hl]].
  unfold copyItems, bind. rewrite Hm. simpl readdirSync. cbv iota beta.
  destruct (at_path_lookup (for_of (with_special data k) (copyItem env))
              destDir d1 _ Hl) as [d2 [Ha Hl2]].
  rewrite Ha. simpl fst. simpl snd. rewrite Hl2.
  unfold with_special. simpl.
  unfold bind, at_child. simpl.
  destruct (read_special env k); simpl; auto.
Qed.

(** C9 on the code.  [copyDir] skips special files: copying a
    well-formed directory to a new place returns and leaves the tree
    without its sockets, FIFOs and devices, regular files with their
    contents.  The loop over the items of the payload root has no such
    test: a special file found there, next to a regular file, is given
    to [copyFileSync], so the copy throws, blocks, or leaves an entry for
    it in the destination, according to what reading it does. *)
Theorem special_files_in_copy :
  (forall env es,
     well_formed (Dir es) ->
     copyDir env (Dir es) None = (Ok tt, Some (prune (Dir es)))) /\
  (forall env data k,
     copyDir env (Dir (with_special data k)) None
     = (Ok tt, Some (Dir [("libskia.a"%string, File data)]))) /\
  (forall env destDir data k,
     fst (copyItems env destDir (Some (Dir (with_special data k))) None)
     = match read_special env k with
       | ReadFails e => Throw e
       | ReadBlocks => Hang
       | ReadYields _ => Ok tt
       end /\
     lookup_path destDir
       (snd (copyItems env destDir (Some (Dir (with_special data k))) None))
     = Some (Dir (("libskia.a"%string, File data)
                  :: match read_special env k with
                     | ReadYields bytes => [("pipe"%string, File bytes)]
                     | _ => []
                     end))).
Proof.
  split; [|split].
  - intros env es Hwf. apply (copyDir_prunes env (Dir es) Hwf es eq_refl).
  - intros env data k. destruct k; reflexivity.
  - exact copyItems_with_special.
Qed.

(** ** Extraction failures *)

Lemma candidates_last_recorded env cands :
  cands <> [] -> exists last, last_recorded env cands None = Some last.
Proof.
  intros H. destruct (exists_last H) as [pre [c ->]].
  exists (recorded env c). apply last_recorded_last.
Qed.

Lemma extraction_failure_propagates env artifact releaseTag destDir sub w w1 :
  downloadToFile (GeneratePackages.downloadUrl artifact releaseTag)
    (fresh (tmp w)) 5 (snd (mkdtempSync w)) = (Ok tt, w1) ->
  all_fail env (GeneratePackages.candidates env) = true ->
  exists w',
    GeneratePackages.downloadAndExtractAsset env artifact releaseTag destDir sub w
    = (Throw (GeneratePackages.extractFailure
                (last_recorded env (GeneratePackages.candidates env) None)), w') /\
    trace w' = trace w1 ++ map EvSpawn (GeneratePackages.candidates env) /\
    disk w' = disk w.
Proof.
  intros Hd Hall.
  assert (Hdisk : disk w1 = disk w).
  { apply preserves_downloadToFile_disk in Hd. exact Hd. }
  unfold GeneratePackages.downloadAndExtractAsset, bind at 1.
  destruct (mkdtempSync_spec w) as [Hmk _]. rewrite Hmk in *. simpl snd in Hd.
  unfold try_catch, GeneratePackages.stage, bind at 1. rewrite Hd.
  unfold bind at 1. unfold GeneratePackages.extractTarGz.
  destruct (extract_all_fail env (fresh (tmp w)) (GeneratePackages.candidates env)
              GeneratePackages.extractFailure w1 Hall)
    as [w2 [He [Ht [Hd2 _]]]].
  rewrite He. unfold bind, rm_tmp, modify, throw.
  eexists; split; [reflexivity|]. simpl. rewrite Ht, Hd2. auto.
Qed.

(** C7.  [extractTarGz] runs the candidates in their fixed order ("tar"
    alone or, on Windows, "tar.exe", the copy under System32 and, in
    postinstall.mjs, "bsdtar.exe" and "bsdtar") and returns at the first
    one that exits with code 0, running none after it.  A candidate that
    is missing is recorded as "Command <name> not found", any other
    failure as the error itself, and the next candidate is tried.  When
    no candidate exits with code 0, each has been run exactly once and
    the call throws a diagnostic that ends with the message recorded for
    the last candidate; the staging function throws that error on,
    having run no candidate a second time. *)
Theorem extractTarGz_candidates :
  (forall env,
     GeneratePackages.candidates env
     = (if win32 env then ["tar.exe"%string; system32_tar env] else ["tar"%string]) /\
     DownloadBinaries.candidates env = GeneratePackages.candidates env /\
     Postinstall.candidates env
     = (if win32 env
        then ["tar.exe"%string; system32_tar env; "bsdtar.exe"%string; "bsdtar"%string]
        else ["tar"%string])) /\
  (forall env t w pre c post,
     GeneratePackages.candidates env = pre ++ c :: post ->
     all_fail env pre = true -> runs_ok env c = true ->
     exists w',
       GeneratePackages.extractTarGz env t w = (Ok tt, w') /\
       trace w' = trace w ++ map EvSpawn (pre ++ [c])) /\
  (forall env asset t w pre c post,
     Postinstall.candidates env = pre ++ c :: post ->
     all_fail env pre = true -> runs_ok env c = true ->
     exists w',
       Postinstall.extractTarGz env asset t w = (Ok tt, w') /\
       trace w' = trace w ++ map EvSpawn (pre ++ [c])) /\
  (forall env t w,
     all_fail env (GeneratePackages.candidates env) = true ->
     exists w' last,
       last_recorded env (GeneratePackages.candidates env) None = Some last /\
       GeneratePackages.extractTarGz env t w
       = (Throw (newError ("Failed to extract: " ++ message last)%string), w') /\
       trace w' = trace w ++ map EvSpawn (GeneratePackages.candidates env)) /\
  (forall env asset t w,
     all_fail env (Postinstall.candidates env) = true ->
     exists w' last,
       last_recorded env (Postinstall.candidates env) None = Some last /\
       Postinstall.extractTarGz env asset t w
       = (Throw (newError
                   ("Failed to extract " ++ asset
                    ++ ". Please install a compatible tar binary. Last error: "
                    ++ message last)%string), w') /\
       trace w' = trace w ++ map EvSpawn (Postinstall.candidates env)) /\
  (forall env c e,
     spawn env c = SpawnError e -> code e = Some "ENOENT"%string ->
     recorded env c = notFound c /\
     message (notFound c) = ("Command " ++ c ++ " not found")%string) /\
  (forall env c e,
     spawn env c = SpawnError e -> opt_string_eqb (code e) "ENOENT" = false ->
     recorded env c = e) /\
  (forall env c n,
     spawn env c = Closed n -> n <> Some 0%Z ->
     recorded env c = exitError c n) /\
  (forall env cands c init,
     last_recorded env (cands ++ [c]) init = Some (recorded env c)) /\
  (forall env artifact releaseTag destDir sub w w1,
     downloadToFile (GeneratePackages.downloadUrl artifact releaseTag)
       (fresh (tmp w)) 5 (snd (mkdtempSync w)) = (Ok tt, w1) ->
     all_fail env (GeneratePackages.candidates env) = true ->
     exists w',
       GeneratePackages.downloadAndExtractAsset env artifact releaseTag destDir sub w
       = (Throw (GeneratePackages.extractFailure
                   (last_recorded env (GeneratePackages.candidates env) None)), w') /\
       trace w' = trace w1 ++ map EvSpawn (GeneratePackages.candidates env) /\
       disk w' = disk w).
Proof.
  split; [intros env; repeat split; reflexivity|].
  split; [intros; eapply extract_first_ok; eassumption|].
  split; [intros; eapply extract_first_ok; eassumption|].
  split.
  { intros env t w Hall.
    destruct (candidates_last_recorded env (GeneratePackages.candidates env))
      as [last Hlast].
    { unfold GeneratePackages.candidates; destruct (win32 env); discriminate. }
    destruct (extract_all_fail env t _ GeneratePackages.extractFailure w Hall)
      as [w' [He [Ht _]]].
    exists w', last. split; [exact Hlast|]. split; [|exact Ht].
    unfold GeneratePackages.extractTarGz. rewrite He.
    unfold GeneratePackages.extractFailure. rewrite Hlast. reflexivity. }
  split.
  { intros env asset t w Hall.
    destruct (candidates_last_recorded env (Postinstall.candidates env))
      as [last Hlast].
    { unfold Postinstall.candidates; destruct (win32 env); discriminate. }
    destruct (extract_all_fail env t _ (Postinstall.extractFailure asset) w Hall)
      as [w' [He [Ht _]]].
    exists w', last. split; [exact Hlast|]. split; [|exact Ht].
    unfold Postinstall.extractTarGz. rewrite He.
    unfold Postinstall.extractFailure. rewrite Hlast. reflexivity. }
  split.
  { intros env c e Hs Hc. unfold recorded. rewrite Hs.
    unfold opt_string_eqb. rewrite Hc. split; reflexivity. }
  split.
  { intros env c e Hs Hc. unfold recorded. rewrite Hs, Hc. reflexivity. }
  split.
  { intros env c n Hs Hn. unfold recorded. rewrite Hs. reflexivity. }
  split; [intros; apply last_recorded_last|].
  exact extraction_failure_propagates.
Qed.

(** ** The theorems at concrete inputs *)

Lemma downloadToFile_retry_policy_witness :
  exists w' tr,
    downloadToFile Examples.url 1 5
      (Examples.world (repeat Examples.rate_limited 4 ++ [Examples.ok Examples.wrapped]))
    = (Ok tt, w') /\
    trace w' = [] ++ tr /\
    requests tr = repeat Examples.url 5 /\
    sleeps tr = map seconds [1; 2; 4; 8]%Z /\
    clock w' = (0 + seconds (1 + 2 + 4 + 8))%Z /\
    net w' = [].
Proof.
  apply (proj1 (proj2 (proj2 (proj2 downloadToFile_retry_policy)))
           Examples.url 1%nat
           (Examples.world (repeat Examples.rate_limited 4
                            ++ [Examples.ok Examples.wrapped]))
           (repeat Examples.rate_limited 4)
           (mkResponse (Some 200%Z) "OK" None (BodyOk Examples.wrapped))
           Examples.wrapped []); reflexivity.
Defined.



Lemma empty_archive_handling_witness :
  exists w' es,
    DownloadBinaries.downloadArtifact Examples.env
      (DownloadBinaries.mkArchConfig "skia-android-arm-64" "arm64-v8a" "arm64-v8a")
      "m144" ["libs"%string] false (Examples.world [Examples.ok []])
    = (Ok tt, w') /\
    lookup_path ["libs"%string; "arm64-v8a"%string] (disk w') = Some (Dir es) /\
    (lookup_path ["libs"%string; "arm64-v8a"%string]
       (disk (Examples.world [Examples.ok []])) = None -> es = []).
Proof.
  apply (proj1 empty_archive_handling Examples.env
           (DownloadBinaries.mkArchConfig "skia-android-arm-64" "arm64-v8a" "arm64-v8a")
           "m144"%string ["libs"%string] false (Examples.world [Examples.ok []])
           (snd (fetch (DownloadBinaries.extractTarGz Examples.env)
                   (DownloadBinaries.downloadUrl
                      (DownloadBinaries.mkArchConfig "skia-android-arm-64"
                         "arm64-v8a" "arm64-v8a") "m144" false)
                   1 (snd (mkdtempSync (Examples.world [Examples.ok []])))))
           (snd (mkdir_p ["libs"%string; "arm64-v8a"%string] None)));
    reflexivity.
Defined.

Lemma extractTarGz_candidates_witness :
  exists w' last,
    last_recorded Examples.no_tar (GeneratePackages.candidates Examples.no_tar) None
    = Some last /\
    GeneratePackages.extractTarGz Examples.no_tar 1 (Examples.world [])
    = (Throw (newError ("Failed to extract: " ++ message last)%string), w') /\
    trace w' = [] ++ map EvSpawn (GeneratePackages.candidates Examples.no_tar).
Proof.
  apply (proj1 (proj2 (proj2 (proj2 extractTarGz_candidates)))
           Examples.no_tar 1%nat (Examples.world [])); reflexivity.
Defined.

Lemma scratch_always_deleted_witness :
  tmp (snd (GeneratePackages.downloadAndExtractAsset Examples.env
              "skia-apple-ios" "skia-m144" ["out"%string] (Some "ios"%string)
              (Examples.world [Examples.reply 404 "Not Found" None []])))
  = [] /\
  tmp_lookup 1
    (tmp (snd (GeneratePackages.downloadAndExtractAsset Examples.env
                 "skia-apple-ios" "skia-m144" ["out"%string] (Some "ios"%string)
                 (Examples.world [Examples.reply 404 "Not Found" None []]))))
  = None /\
  exists w1,
    GeneratePackages.stage Examples.env
      (GeneratePackages.downloadUrl "skia-apple-ios" "skia-m144") 1
      ["out"%string] (Some "ios"%string)
      (snd (mkdtempSync (Examples.world [Examples.reply 404 "Not Found" None []])))
    = (Throw (statusError (mkResponse (Some 404%Z) "Not Found" None (BodyOk []))), w1) /\
    disk (snd (GeneratePackages.downloadAndExtractAsset Examples.env
                 "skia-apple-ios" "skia-m144" ["out"%string] (Some "ios"%string)
                 (Examples.world [Examples.reply 404 "Not Found" None []])))
    = disk w1 /\
    trace (snd (GeneratePackages.downloadAndExtractAsset Examples.env
                  "skia-apple-ios" "skia-m144" ["out"%string] (Some "ios"%string)
                  (Examples.world [Examples.reply 404 "Not Found" None []])))
    = trace w1 /\
    clock (snd (GeneratePackages.downloadAndExtractAsset Examples.env
                  "skia-apple-ios" "skia-m144" ["out"%string] (Some "ios"%string)
                  (Examples.world [Examples.reply 404 "Not Found" None []])))
    = clock w1 /\
    net (snd (GeneratePackages.downloadAndExtractAsset Examples.env
                "skia-apple-ios" "skia-m144" ["out"%string] (Some "ios"%string)
                (Examples.world [Examples.reply 404 "Not Found" None []])))
    = net w1.
Proof.
  apply (scratch_always_deleted Examples.env "skia-apple-ios"%string
           "skia-m144"%string ["out"%string] (Some "ios"%string)
           (Examples.world [Examples.reply 404 "Not Found" None []])
           (Throw (statusError (mkResponse (Some 404%Z) "Not Found" None (BodyOk []))))
           (snd (GeneratePackages.downloadAndExtractAsset Examples.env
                   "skia-apple-ios" "skia-m144" ["out"%string] (Some "ios"%string)
                   (Examples.world [Examples.reply 404 "Not Found" None []]))));
    reflexivity.
Defined.

Lemma special_files_in_copy_witness :
  copyDir Examples.env (Dir Examples.frameworks) None
  = (Ok tt, Some (prune (Dir Examples.frameworks))).
Proof.
  apply (proj1 special_files_in_copy Examples.env Examples.frameworks).
  simpl. repeat split; repeat constructor; simpl; intuition discriminate.
Defined.


(* ================================================================== *)
(** * Further properties of the staging functions *)

(** ** The scratch directory of the sibling staging functions *)

Lemma preserves_stage_tmp_DownloadBinaries env url t dest sub :
  preserves (other_tmp t) (DownloadBinaries.stage env url t dest sub).
Proof.
  unfold DownloadBinaries.stage.
  apply preserves_bind; [apply preserves_downloadToFile_tmp|]. intros _.
  apply preserves_bind; [apply preserves_tar_tmp|]. intros _.
  apply preserves_bind; [apply preserves_read_extracted|]. intros es.
  apply preserves_bind; [apply preserves_on_disk_tmp|]. intros _.
  apply preserves_rm_tmp_tmp.
Qed.

Lemma ends_clean_stage_DownloadBinaries env url t dest sub :
  ends_clean t (DownloadBinaries.stage env url t dest sub).
Proof.
  unfold DownloadBinaries.stage.
  repeat (apply ends_clean_bind; intros ?).
  apply ends_clean_rm_tmp.
Qed.

Lemma preserves_stage_tmp_Postinstall env skia asset t destDir sub :
  preserves (other_tmp t) (Postinstall.stage env skia asset t destDir sub).
Proof.
  unfold Postinstall.stage.
  apply preserves_bind; [apply preserves_downloadToFile_tmp|]. intros _.
  apply preserves_bind; [apply preserves_tar_tmp|]. intros _.
  apply preserves_bind; [apply preserves_read_extracted|]. intros es.
  apply preserves_bind.
  { destruct (length es =? 0)%nat; [apply preserves_throw | apply preserves_ret]. }
  intros _.
  apply preserves_bind; [apply preserves_on_disk_tmp|]. intros _.
  apply preserves_rm_tmp_tmp.
Qed.

Lemma ends_clean_stage_Postinstall env skia asset t destDir sub :
  ends_clean t (Postinstall.stage env skia asset t destDir sub).
Proof.
  unfold Postinstall.stage.
  repeat (apply ends_clean_bind; intros ?).
  apply ends_clean_rm_tmp.
Qed.

(** X1.  [downloadArtifact] of download-binaries.ts and
    [downloadAndExtractAsset] of postinstall.mjs, when they return or
    throw, have removed the scratch directory they made and left the
    temporary area as it was; their outcome is the one of their [try]
    block, and the cleanup does not touch the destination tree. *)
Theorem sibling_scratch_deleted :
  (forall env archConfig skiaVersion outputDir graphite w r w',
     DownloadBinaries.downloadArtifact env archConfig skiaVersion outputDir graphite w
     = (r, w') ->
     settled r = true ->
     tmp w' = tmp w /\
     tmp_lookup (fresh (tmp w)) (tmp w') = None /\
     exists w1,
       DownloadBinaries.stage env
         (DownloadBinaries.downloadUrl archConfig skiaVersion graphite)
         (fresh (tmp w)) (DownloadBinaries.destDir archConfig outputDir)
         (DownloadBinaries.srcSubdir archConfig) (snd (mkdtempSync w)) = (r, w1) /\
       disk w' = disk w1) /\
  (forall env skia asset destDir srcSubdir w r w',
     Postinstall.downloadAndExtractAsset env skia asset destDir srcSubdir w = (r, w') ->
     settled r = true ->
     tmp w' = tmp w /\
     tmp_lookup (fresh (tmp w)) (tmp w') = None /\
     exists w1,
       Postinstall.stage env skia asset (fresh (tmp w)) destDir srcSubdir
         (snd (mkdtempSync w)) = (r, w1) /\
       disk w' = disk w1).
Proof.
  split.
  - intros env archConfig skiaVersion outputDir graphite w r w' H Hs.
    destruct (with_scratch_cleanup
                (fun t => DownloadBinaries.stage env
                            (DownloadBinaries.downloadUrl archConfig skiaVersion graphite)
                            t (DownloadBinaries.destDir archConfig outputDir)
                            (DownloadBinaries.srcSubdir archConfig)) w r w')
      as [H1 [H2 [w1 [H3 [H4 _]]]]]; auto.
    + intros t. apply preserves_stage_tmp_DownloadBinaries.
    + intros t. apply ends_clean_stage_DownloadBinaries.
    + eauto.
  - intros env skia asset destDir srcSubdir w r w' H Hs.
    destruct (with_scratch_cleanup
                (fun t => Postinstall.stage env skia asset t destDir srcSubdir) w r w')
      as [H1 [H2 [w1 [H3 [H4 _]]]]]; auto.
    + intros t. apply preserves_stage_tmp_Postinstall.
    + intros t. apply ends_clean_stage_Postinstall.
    + eauto.
Qed.

(** ** What a download leaves on disk *)

Lemma tmp_lookup_update t f l :
  tmp_lookup t (tmp_update t f l) = option_map f (tmp_lookup t l).
Proof.
  induction l as [|[k s] l IH]; simpl; [reflexivity|].
  destruct (Nat.eqb t k) eqn:E; simpl; rewrite E; [reflexivity | exact IH].
Qed.

Lemma archive_at_set_archive t a w :
  tmp_lookup t (tmp w) <> None -> archive_at t (set_archive t a w) = a.
Proof.
  unfold archive_at, set_archive. simpl. rewrite tmp_lookup_update.
  destruct (tmp_lookup t (tmp w)); [reflexivity | congruence].
Qed.

Lemma tmp_lookup_set_archive t a w :
  tmp_lookup t (tmp w) <> None -> tmp_lookup t (tmp (set_archive t a w)) <> None.
Proof.
  unfold set_archive. simpl. rewrite tmp_lookup_update.
  destruct (tmp_lookup t (tmp w)); [discriminate | congruence].
Qed.

(** One attempt consumes a prefix of the script; when it succeeds the
    last reply consumed is a 200 response whose body is now the file,
    and when it does not the file is absent if it was. *)
Lemma request_consumes (script : list Reply) :
  forall t url w r w',
    net w = script ->
    tmp_lookup t (tmp w) <> None ->
    request script t url w = (r, w') ->
    tmp_lookup t (tmp w') <> None /\
    exists consumed,
      script = consumed ++ net w' /\
      match r with
      | Ok _ => exists pre res a,
                  consumed = pre ++ [Resp res] /\ delivers res a /\
                  archive_at t w' = Some a
      | _ => archive_at t w = None -> archive_at t w' = None
      end.
Proof.
  induction script as [|reply rest IH]; intros t url w r w' Hn Ht H; simpl in H.
  - inversion H; subst; clear H. simpl. split; [assumption|].
    exists []. split; [symmetry; assumption | auto].
  - destruct reply as [e|res].
    + inversion H; subst; clear H. simpl. split; [assumption|].
      exists [ReqError e]. split; [reflexivity | auto].
    + destruct (isRedirect res) eqn:Hr.
      * destruct (truthy (res_location res)) as [location|].
        -- apply IH in H; [|reflexivity|assumption].
           destruct H as [Ht' [consumed [Hc Hm]]].
           split; [assumption|].
           exists (Resp res :: consumed). split; [simpl; congruence|].
           destruct r as [[]|e|]; auto.
           destruct Hm as [pre [res' [a [-> Hm]]]].
           exists (Resp res :: pre), res', a. auto.
        -- inversion H; subst; clear H. simpl. split; [assumption|].
           exists [Resp res]. split; [reflexivity | auto].
      * destruct (not200 res) eqn:H2.
        -- inversion H; subst; clear H. simpl. split; [assumption|].
           exists [Resp res]. split; [reflexivity | auto].
        -- assert (Hs : res_statusCode res = Some 200%Z).
           { unfold not200 in H2. destruct (res_statusCode res) as [c|]; [|discriminate].
             apply negb_false_iff, Z.eqb_eq in H2. congruence. }
           assert (Hw : tmp_lookup t (tmp (set_net rest (log (EvGet url) w))) <> None)
             by exact Ht.
           destruct (res_body res) as [a|e] eqn:Hb; inversion H; subst; clear H.
           ++ split; [apply tmp_lookup_set_archive; assumption|].
              exists [Resp res]. split; [reflexivity|].
              exists [], res, a. split; [reflexivity|]. split; [split; assumption|].
              apply archive_at_set_archive; assumption.
           ++ split; [apply tmp_lookup_set_archive; assumption|].
              exists [Resp res]. split; [reflexivity|].
              intros _. apply archive_at_set_archive; assumption.
Qed.

Lemma downloadWithRetry_consumes url t maxRetries :
  forall fuel k w r w',
    (0 < fuel)%nat -> (maxRetries < fuel + k)%nat ->
    tmp_lookup t (tmp w) <> None ->
    archive_at t w = None ->
    downloadWithRetry url t maxRetries fuel k w = (r, w') ->
    exists consumed,
      net w = consumed ++ net w' /\
      match r with
      | Ok _ => exists pre res a,
                  consumed = pre ++ [Resp res] /\ delivers res a /\
                  archive_at t w' = Some a
      | _ => archive_at t w' = None
      end.
Proof.
  induction fuel as [|fuel IH]; intros k w r w' Hpos Hf Ht Ha H; [lia|].
  simpl in H. unfold try_catch in H.
  destruct (attemptDownload url t w) as [ra w1] eqn:Hat.
  unfold attemptDownload in Hat.
  destruct (request_consumes _ _ _ _ _ _ eq_refl Ht Hat) as [Ht1 [c1 [Hc1 Hm1]]].
  destruct ra as [[]|e|].
  - inversion H; subst; clear H. exists c1. auto.
  - unfold bind, modify in H.
    destruct (shouldRetry k maxRetries e) eqn:Hr.
    + unfold shouldRetry in Hr. apply andb_prop in Hr as [Hk _].
      apply Nat.ltb_lt in Hk.
      unfold sleep, modify in H.
      apply IH in H; [|lia|lia|exact Ht1|exact (Hm1 Ha)].
      destruct H as [c2 [Hc2 Hm2]]. simpl in Hc2.
      exists (c1 ++ c2). split; [rewrite <- app_assoc; congruence|].
      destruct r as [[]|e'|]; auto.
      destruct Hm2 as [pre [res [a [-> Hm2]]]].
      exists (c1 ++ pre), res, a. rewrite <- app_assoc. auto.
    + unfold throw in H. inversion H; subst; clear H.
      exists c1. simpl. auto.
  - inversion H; subst; clear H. exists c1. auto.
Qed.

Lemma mkdir_tmp_exists t w :
  tmp_lookup t (tmp (snd (mkdir_tmp t w))) <> None /\
  archive_at t (snd (mkdir_tmp t w)) = archive_at t w /\
  net (snd (mkdir_tmp t w)) = net w.
Proof.
  unfold mkdir_tmp, archive_at.
  destruct (tmp_lookup t (tmp w)) as [s|] eqn:E; simpl.
  - rewrite E. split; [discriminate | auto].
  - rewrite Nat.eqb_refl. split; [discriminate | auto].
Qed.

(** The file a download leaves. *)
Lemma downloadToFile_file url t maxRetries w r w' :
  archive_at t w = None ->
  downloadToFile url t maxRetries w = (r, w') ->
  exists consumed,
    net w = consumed ++ net w' /\
    match r with
    | Ok _ => exists pre res a,
                consumed = pre ++ [Resp res] /\ delivers res a /\
                archive_at t w' = Some a
    | _ => archive_at t w' = None
    end.
Proof.
  intros Ha H. unfold downloadToFile, bind in H.
  destruct (mkdir_tmp_frame t w) as [w0 [Hm _]].
  destruct (mkdir_tmp_exists t w) as [Hex [Har Hn]].
  rewrite Hm in *. simpl in Hex, Har, Hn.
  apply downloadWithRetry_consumes in H; try lia; try assumption; [|congruence].
  rewrite Hn in H. exact H.
Qed.

(** ** From the network to the extraction directory *)

Lemma bind_assoc {S A B C} (m : M S A) (f : A -> M S B) (g : B -> M S C) s :
  bind (bind m f) g s = bind m (fun a => bind (f a) g) s.
Proof.
  unfold bind. destruct (m s) as [[a|e|] s1]; reflexivity.
Qed.

Lemma runCommand_ok_inv env c t w w' :
  runCommand env c t w = (Ok tt, w') -> w' = untar t (log (EvSpawn c) w).
Proof.
  unfold runCommand, bind, modify, throw.
  destruct (spawn env c) as [e|[[|p|p]|]]; intros H; inversion H; reflexivity.
Qed.

Lemma runCommand_throw_inv env c t w e w' :
  runCommand env c t w = (Throw e, w') -> w' = log (EvSpawn c) w.
Proof.
  unfold runCommand, bind, modify, throw.
  destruct (spawn env c) as [e0|[[|p|p]|]]; intros H; inversion H; reflexivity.
Qed.

Lemma runCommand_never_hangs env c t w w' : runCommand env c t w <> (Hang, w').
Proof.
  unfold runCommand, bind, modify, throw.
  destruct (spawn env c) as [e0|[[|p|p]|]]; discriminate.
Qed.

Lemma tryCandidates_ok_inv env t failure :
  forall cands last w w',
    tryCandidates env t cands last failure w = (Ok tt, w') ->
    exists w0, w' = untar t w0 /\ tmp w0 = tmp w.
Proof.
  induction cands as [|c cands IH]; intros last w w' H; simpl in H.
  - discriminate H.
  - unfold try_catch in H.
    destruct (runCommand env c t w) as [[[]|e|] w1] eqn:E.
    + inversion H; subst. apply runCommand_ok_inv in E.
      exists (log (EvSpawn c) w). auto.
    + apply runCommand_throw_inv in E. subst w1.
      destruct (opt_string_eqb (code e) "ENOENT");
        apply IH in H; destruct H as [w0 [-> Ht]]; exists w0; auto.
    + exfalso. exact (runCommand_never_hangs _ _ _ _ _ E).
Qed.

Lemma mkdir_extracted_archive t w :
  tmp_lookup t (tmp (snd (mkdir_extracted t w))) <> None /\
  archive_at t (snd (mkdir_extracted t w)) = archive_at t w.
Proof.
  unfold mkdir_extracted, archive_at.
  destruct (tmp_lookup t (tmp w)) as [s|] eqn:E; simpl.
  - destruct (extracted s); simpl.
    + rewrite E. split; [discriminate | reflexivity].
    + rewrite tmp_lookup_update, E. simpl. split; [discriminate | reflexivity].
  - rewrite Nat.eqb_refl. split; [discriminate | reflexivity].
Qed.

Lemma read_extracted_untar t w0 a :
  tmp_lookup t (tmp w0) <> None -> archive_at t w0 = Some a ->
  read_extracted t (untar t w0) = (Ok a, untar t w0).
Proof.
  unfold archive_at, untar, read_extracted. intros Hex Ha.
  destruct (tmp_lookup t (tmp w0)) as [s|] eqn:E; [|congruence].
  simpl. rewrite tmp_lookup_update, E. simpl. rewrite Ha. reflexivity.
Qed.

(** What [fetch] lists is the archive the download left. *)
Lemma extract_lists_archive env t cands failure w a r w' :
  archive_at t w = Some a ->
  (mkdir_extracted t ;; tryCandidates env t cands None failure ;; read_extracted t) w
  = (r, w') ->
  forall es, r = Ok es -> es = a.
Proof.
  intros Ha H es ->.
  apply bind_ok_inv in H as [[] [w1 [H1 H]]].
  apply bind_ok_inv in H as [[] [w2 [H2 H]]].
  destruct (mkdir_extracted_frame t w) as [w1' [Hm _]].
  rewrite Hm in H1. inversion H1; subst w1'; clear H1.
  destruct (mkdir_extracted_archive t w) as [Hex Har].
  rewrite Hm in Hex, Har. simpl in Hex, Har.
  apply tryCandidates_ok_inv in H2 as [w0 [-> Ht]].
  assert (Hex0 : tmp_lookup t (tmp w0) <> None) by (rewrite Ht; exact Hex).
  assert (Ha0 : archive_at t w0 = Some a).
  { unfold archive_at in *. rewrite Ht. congruence. }
  rewrite (read_extracted_untar t w0 a Hex0 Ha0) in H.
  inversion H; reflexivity.
Qed.

Lemma fetch_provenance_with env url t cands failure w es w' :
  archive_at t w = None ->
  fetch (fun tempDir =>
           mkdir_extracted tempDir ;; tryCandidates env tempDir cands None failure)
    url t w = (Ok es, w') ->
  exists pre res,
    net w = pre ++ Resp res :: net w' /\ delivers res es.
Proof.
  intros Ha H. unfold fetch in H.
  apply bind_ok_inv in H as [[] [w1 [H1 H]]].
  destruct (downloadToFile_file _ _ _ _ _ _ Ha H1)
    as [consumed [Hn [pre [res [a [-> [Hd Har]]]]]]].
  rewrite bind_assoc in H.
  assert (Hnet : net w' = net w1).
  { assert (Hp : preserves net
                   (mkdir_extracted t ;; tryCandidates env t cands None failure ;;
                    read_extracted t)).
    { apply preserves_bind.
      - intros x r x' Hx. destruct (mkdir_extracted_frame t x) as [x0 [Hm F]].
        rewrite Hm in Hx. inversion Hx; subst. tauto.
      - intros _. apply preserves_bind; [|intros _; apply preserves_read_extracted].
        apply preserves_tryCandidates. intros c.
        unfold runCommand. apply preserves_bind; [apply preserves_modify; reflexivity|].
        intros _. destruct (spawn env c) as [e|[[| |]|]]; try apply preserves_throw.
        apply preserves_modify. intros x. apply untar_frame. }
    apply (Hp _ _ _ H). }
  pose proof (extract_lists_archive env t cands failure w1 a (Ok es) w' Har H es eq_refl)
    as ->.
  exists pre, res. rewrite Hnet. rewrite <- app_assoc in Hn. simpl in Hn. auto.
Qed.

(** X2.  The listing that the download and the extraction hand to the
    copy is the body of a 200 response: the last reply the call
    consumed.  Nothing of a failed or redirected response is staged. *)
Theorem staged_content_provenance :
  (forall env url t w es w',
     archive_at t w = None ->
     fetch (GeneratePackages.extractTarGz env) url t w = (Ok es, w') ->
     exists pre res, net w = pre ++ Resp res :: net w' /\ delivers res es) /\
  (forall env url t w es w',
     archive_at t w = None ->
     fetch (DownloadBinaries.extractTarGz env) url t w = (Ok es, w') ->
     exists pre res, net w = pre ++ Resp res :: net w' /\ delivers res es) /\
  (forall env asset url t w es w',
     archive_at t w = None ->
     fetch (Postinstall.extractTarGz env asset) url t w = (Ok es, w') ->
     exists pre res, net w = pre ++ Resp res :: net w' /\ delivers res es).
Proof.
  split; [|split]; intros; eapply fetch_provenance_with; eassumption.
Qed.

(** ** Redirect chains *)




(** ** Copying twice, and what a copy leaves alone *)

Lemma put_same k n es : lookup k es = Some n -> put k n es = es.
Proof.
  induction es as [|[k' n'] es IH]; simpl; [discriminate|].
  destruct (String.eqb k k') eqn:E.
  - intros H; inversion H; reflexivity.
  - intros H. rewrite (IH H). reflexivity.
Qed.

Lemma remove_absent k es : lookup k es = None -> remove k es = es.
Proof.
  induction es as [|[k' n'] es IH]; simpl; [reflexivity|].
  destruct (String.eqb k k'); [discriminate|].
  intros H. rewrite (IH H). reflexivity.
Qed.

Lemma set_child_same k es : set_child k (lookup k es) es = es.
Proof.
  destruct (lookup k es) as [n|] eqn:E; simpl;
    [apply put_same | apply remove_absent]; assumption.
Qed.

Lemma lookup_remove_other k k' es : k' <> k -> lookup k' (remove k es) = lookup k' es.
Proof.
  intros Hne. induction es as [|[x n'] es IH]; simpl; [reflexivity|].
  destruct (String.eqb k x) eqn:E; simpl.
  - apply String.eqb_eq in E; subst x.
    apply String.eqb_neq in Hne. rewrite Hne. exact IH.
  - destruct (String.eqb k' x); [reflexivity | exact IH].
Qed.

Lemma lookup_set_child_other k k' c es :
  k' <> k -> lookup k' (set_child k c es) = lookup k' es.
Proof.
  intros H. destruct c; simpl;
    [apply lookup_put_other | apply lookup_remove_other]; assumption.
Qed.

Section Loops.

(** The two copy loops run, for each entry, either nothing or a
    computation on the destination entry of the same name. *)
Variable skip : string * node -> bool.
Variable act : string * node -> M (option node) unit.

Local Abbreviation round := (round skip act).
Local Abbreviation done_with := (done_with skip act).

Lemma round_inv e acc r d :
  round e (Some (Dir acc)) = (r, d) ->
  (skip e = true /\ r = Ok tt /\ d = Some (Dir acc)) \/
  (skip e = false /\
   exists c, act e (lookup (fst e) acc) = (r, c) /\
             d = Some (Dir (set_child (fst e) c acc))).
Proof.
  unfold round, at_child. destruct (skip e).
  - intros H; inversion H; auto.
  - destruct (act e (lookup (fst e) acc)) as [r0 c] eqn:E.
    intros H; inversion H; subst. right. eauto.
Qed.

Lemma loop_frame :
  forall es acc r d,
    for_of es round (Some (Dir acc)) = (r, d) ->
    exists acc', d = Some (Dir acc') /\
                 forall k, ~ In k (names es) -> lookup k acc' = lookup k acc.
Proof.
  induction es as [|e es IH]; intros acc r d H; simpl in H.
  - inversion H; subst. eauto.
  - assert (Hstep : forall r1 d1, round e (Some (Dir acc)) = (r1, d1) ->
              exists acc1, d1 = Some (Dir acc1) /\
                forall k, k <> fst e -> lookup k acc1 = lookup k acc).
    { intros r1 d1 H1. apply round_inv in H1 as [[_ [_ ->]]|[_ [c [_ ->]]]].
      - eauto.
      - eexists; split; [reflexivity|]. intros k Hk.
        apply lookup_set_child_other; assumption. }
    apply bind_inv in H as [[[] [d1 [H1 H2]]]|[[err [H1 _]]|[H1 _]]].
    + destruct (Hstep _ _ H1) as [acc1 [-> Hl1]].
      destruct (IH _ _ _ H2) as [acc' [-> Hl]].
      exists acc'. split; [reflexivity|]. intros k Hk. simpl in Hk.
      rewrite Hl by tauto. apply Hl1. intros ->. tauto.
    + destruct (Hstep _ _ H1) as [acc1 [-> Hl1]].
      exists acc1. split; [reflexivity|]. intros k Hk. simpl in Hk.
      apply Hl1. intros ->. tauto.
    + destruct (Hstep _ _ H1) as [acc1 [-> Hl1]].
      exists acc1. split; [reflexivity|]. intros k Hk. simpl in Hk.
      apply Hl1. intros ->. tauto.
Qed.

Lemma loop_settles :
  forall es acc acc',
    NoDup (names es) ->
    Forall (fun e => forall d v, act e d = (Ok tt, v) -> act e v = (Ok tt, v)) es ->
    for_of es round (Some (Dir acc)) = (Ok tt, Some (Dir acc')) ->
    Forall (done_with acc') es.
Proof.
  induction es as [|e es IH]; intros acc acc' Hnd Hid H; [constructor|].
  simpl in H. apply bind_ok_inv in H as [[] [d1 [H1 H2]]].
  inversion Hnd as [|? ? Hk Hnd']; subst.
  inversion Hid as [|? ? He Hid']; subst.
  apply round_inv in H1 as [[Hs [_ ->]]|[Hs [c [Ha ->]]]].
  - constructor; [left; assumption | exact (IH _ _ Hnd' Hid' H2)].
  - constructor; [|exact (IH _ _ Hnd' Hid' H2)].
    right. destruct (loop_frame _ _ _ _ H2) as [acc2 [E Hl]].
    inversion E; subst acc2. rewrite (Hl (fst e) Hk), lookup_set_child.
    exact (He _ _ Ha).
Qed.

Lemma loop_done :
  forall es acc,
    Forall (done_with acc) es ->
    for_of es round (Some (Dir acc)) = (Ok tt, Some (Dir acc)).
Proof.
  induction es as [|e es IH]; intros acc H; [reflexivity|].
  inversion H as [|? ? He Hes]; subst. simpl. unfold bind.
  assert (Hstep : round e (Some (Dir acc)) = (Ok tt, Some (Dir acc))).
  { unfold round, at_child. destruct He as [Hs|Ha].
    - rewrite Hs. reflexivity.
    - destruct (skip e); [reflexivity|]. rewrite Ha, set_child_same. reflexivity. }
  rewrite Hstep. exact (IH _ Hes).
Qed.

Lemma loop_idempotent es acc d :
  NoDup (names es) ->
  Forall (fun e => forall d v, act e d = (Ok tt, v) -> act e v = (Ok tt, v)) es ->
  for_of es round (Some (Dir acc)) = (Ok tt, d) ->
  for_of es round d = (Ok tt, d).
Proof.
  intros Hnd Hid H.
  destruct (loop_frame _ _ _ _ H) as [acc' [-> _]].
  apply loop_done. exact (loop_settles _ _ _ Hnd Hid H).
Qed.

End Loops.

Lemma copyEntry_round env e :
  copyEntry env e = round (fun e => isSpecial (snd e)) (entry_copy env) e.
Proof.
  destruct e as [k c]. unfold copyEntry, round, entry_copy, isSpecial. simpl.
  destruct (isSocket c || isFIFO c || isCharacterDevice c || isBlockDevice c);
    [reflexivity|].
  destruct (isDirectory c); reflexivity.
Qed.

Lemma copyItem_round env e :
  copyItem env e = round (fun _ => false) (entry_copy env) e.
Proof.
  destruct e as [k c]. unfold copyItem, round, entry_copy. simpl.
  destruct (isDirectory c); reflexivity.
Qed.

Lemma for_of_ext {S A} (f g : A -> M S unit) :
  (forall a, f a = g a) -> forall xs, for_of xs f = for_of xs g.
Proof.
  intros H. induction xs as [|x xs IH]; simpl; [reflexivity|].
  rewrite H, IH. reflexivity.
Qed.

Lemma write_data_idempotent env data d v :
  write_data env data d = (Ok tt, v) -> write_data env data v = (Ok tt, v).
Proof.
  unfold write_data. destruct d as [[x|es|k]|]; intros H.
  - inversion H; reflexivity.
  - discriminate.
  - destruct (write_special env k) eqn:E; inversion H; subst. rewrite E. reflexivity.
  - inversion H; reflexivity.
Qed.

Lemma copyFileSync_idempotent env src d v :
  copyFileSync env src d = (Ok tt, v) -> copyFileSync env src v = (Ok tt, v).
Proof.
  destruct src as [data|es|k]; simpl.
  - apply write_data_idempotent.
  - discriminate.
  - destruct (read_special env k); try discriminate. apply write_data_idempotent.
Qed.

Lemma copyDir_idempotent env :
  forall src,
    well_formed src ->
    forall d v, copyDir env src d = (Ok tt, v) -> copyDir env src v = (Ok tt, v).
Proof.
  induction src as [data|k|es IH] using node_induction; intros Hwf d v H.
  - simpl in H. unfold bind, throw in H.
    destruct (mkdirSync d) as [[[]|e|] d1]; discriminate H.
  - simpl in H. unfold bind, throw in H.
    destruct (mkdirSync d) as [[[]|e|] d1]; discriminate H.
  - apply well_formed_Dir in Hwf as [Hnd Hall].
    rewrite copyDir_Dir in *.
    rewrite (for_of_ext _ _ (copyEntry_round env)) in *.
    apply bind_ok_inv in H as [[] [d1 [H1 H2]]].
    apply mkdirSync_ok in H1 as [acc [-> _]].
    destruct (loop_frame _ _ _ _ _ _ H2) as [acc' [-> _]].
    unfold bind. simpl mkdirSync. cbv iota beta.
    eapply loop_idempotent; [exact Hnd| |exact H2].
    rewrite Forall_forall in *. intros [k c] Hin d0 v0 Hc.
    unfold entry_copy in *. simpl in *.
    destruct (isDirectory c).
    + exact (IH (k, c) Hin (Hall (k, c) Hin) _ _ Hc).
    + exact (copyFileSync_idempotent env c _ _ Hc).
Qed.

Lemma mkdir_p_existing :
  forall p d es, lookup_path p d = Some (Dir es) -> mkdir_p p d = (Ok tt, d).
Proof.
  induction p as [|k rest IH]; intros d es H; simpl in *.
  - subst d. reflexivity.
  - destruct d as [[data|es0|sp]|]; try discriminate H.
    unfold bind, at_child. simpl. rewrite (IH _ _ H), set_child_same. reflexivity.
Qed.

Lemma at_path_stable {A} (m : M (option node) A) :
  forall p d x r,
    lookup_path p d = Some x -> m (Some x) = (r, Some x) -> at_path p m d = (r, d).
Proof.
  induction p as [|k rest IH]; intros d x r H Hm; simpl in *.
  - subst d. exact Hm.
  - destruct d as [[data|es0|sp]|]; try discriminate H.
    unfold at_child. rewrite (IH _ _ _ H Hm), set_child_same. reflexivity.
Qed.

Lemma copy_loop_idempotent env items acc d :
  well_formed (Dir items) ->
  for_of items (copyItem env) (Some (Dir acc)) = (Ok tt, d) ->
  for_of items (copyItem env) d = (Ok tt, d).
Proof.
  intros Hwf H. apply well_formed_Dir in Hwf as [Hnd Hall].
  rewrite (for_of_ext _ _ (copyItem_round env)) in *.
  eapply loop_idempotent; [exact Hnd| |exact H].
  rewrite Forall_forall in *. intros [k c] Hin d0 v0 Hc.
  unfold entry_copy in *. simpl in *.
  destruct (isDirectory c).
  - exact (copyDir_idempotent env c (Hall (k, c) Hin) _ _ Hc).
  - exact (copyFileSync_idempotent env c _ _ Hc).
Qed.

(** X5.  Copying the items of a payload root a second time into the
    destination it has just been copied to succeeds again and changes
    nothing, at the destination or anywhere else in the tree: the copy
    overwrites files with the same content and merges directories, at
    every depth.  The payload root lists no name twice, as a directory
    on disk does. *)
Theorem copyItems_idempotent env destDir items d d' :
  well_formed (Dir items) ->
  copyItems env destDir (Some (Dir items)) d = (Ok tt, d') ->
  copyItems env destDir (Some (Dir items)) d' = (Ok tt, d').
Proof.
  intros Hwf H. unfold copyItems in *.
  apply bind_ok_inv in H as [[] [d1 [H1 H2]]].
  apply mkdir_p_spec in H1 as [es1 [Hl _]].
  unfold bind in H2. simpl in H2.
  destruct (at_path_lookup (for_of items (copyItem env)) destDir d1 _ Hl)
    as [d2 [Ha Hl2]].
  rewrite Ha in H2. inversion H2 as [[Hr Hd]]. subst d2.
  destruct (for_of items (copyItem env) (Some (Dir es1))) as [r v] eqn:Hloop.
  simpl in Hr, Hl2. subst r.
  destruct (loop_frame (fun _ => false) (entry_copy env) items es1 (Ok tt) v)
    as [acc' [-> _]].
  { rewrite <- (for_of_ext _ _ (copyItem_round env)). exact Hloop. }
  unfold bind. rewrite (mkdir_p_existing _ _ _ Hl2). simpl.
  apply (at_path_stable _ _ _ _ _ Hl2).
  exact (copy_loop_idempotent env items es1 _ Hwf Hloop).
Qed.

(** X6.  A copy into an existing destination directory, whether it
    completes, throws or blocks midway, leaves the destination a
    directory and never touches a destination entry whose name is not
    the name of one of the copied items. *)
Theorem copyItems_frame env destDir items d before r d' :
  lookup_path destDir d = Some (Dir before) ->
  copyItems env destDir (Some (Dir items)) d = (r, d') ->
  exists after,
    lookup_path destDir d' = Some (Dir after) /\
    forall k, ~ In k (names items) -> lookup k after = lookup k before.
Proof.
  intros Hl H. unfold copyItems, bind in H.
  rewrite (mkdir_p_existing _ _ _ Hl) in H. simpl in H.
  destruct (at_path_lookup (for_of items (copyItem env)) destDir d _ Hl)
    as [d2 [Ha Hl2]].
  rewrite Ha in H. inversion H; subst.
  destruct (for_of items (copyItem env) (Some (Dir before))) as [r0 v] eqn:Hloop.
  rewrite (for_of_ext _ _ (copyItem_round env)) in Hloop.
  destruct (loop_frame _ _ _ _ _ _ Hloop) as [after [-> Hk]].
  exists after. split; [exact Hl2 | exact Hk].
Qed.

(** ** The postinstall script as a whole *)

Lemma keeps_entry_bind {A B} k (m : M (option node) A) (f : A -> M (option node) B) :
  keeps_entry k m -> (forall a, keeps_entry k (f a)) -> keeps_entry k (bind m f).
Proof.
  intros Hm Hf d r d' H.
  apply bind_inv in H as [[a [d1 [H1 H2]]]|[[e [H1 _]]|[H1 _]]].
  - rewrite (Hf a _ _ _ H2). exact (Hm _ _ _ H1).
  - exact (Hm _ _ _ H1).
  - exact (Hm _ _ _ H1).
Qed.

Lemma keeps_entry_mkdirSync k : keeps_entry k mkdirSync.
Proof.
  intros d r d' H. unfold mkdirSync in H.
  destruct d as [[data|es|sp]|]; inversion H; reflexivity.
Qed.

Lemma keeps_entry_at_child {A} k x (m : M (option node) A) :
  k <> x -> keeps_entry k (at_child x m).
Proof.
  intros Hne d r d' H. unfold at_child in H.
  destruct d as [[data|es|sp]|]; try (inversion H; reflexivity).
  destruct (m (lookup x es)) as [r0 c]. inversion H; subst.
  unfold top_entry. simpl. apply lookup_set_child_other. exact Hne.
Qed.











Lemma restores_tmp_bind {A B} (m : M World A) (k : A -> M World B) :
  restores_tmp m -> (forall a, restores_tmp (k a)) -> restores_tmp (bind m k).
Proof.
  intros Hm Hk w r w' H Hs.
  apply bind_inv in H as [[a [w1 [H1 H2]]]|[[e [H1 ->]]|[H1 ->]]].
  - rewrite (Hk a _ _ _ H2 Hs). exact (Hm _ _ _ H1 eq_refl).
  - exact (Hm _ _ _ H1 eq_refl).
  - discriminate Hs.
Qed.

Lemma restores_tmp_preserves {A} (m : M World A) :
  preserves tmp m -> restores_tmp m.
Proof. intros Hm w r w' H _. exact (Hm _ _ _ H). Qed.

Lemma preserves_on_disk_all_tmp {A} (m : M (option node) A) :
  preserves tmp (on_disk m).
Proof.
  intros w r w' H. unfold on_disk in H.
  destruct (m (disk w)) as [r0 d]. inversion H; reflexivity.
Qed.

Lemma restores_tmp_for_of {A} (body : A -> M World unit) :
  (forall a, restores_tmp (body a)) -> forall xs, restores_tmp (for_of xs body).
Proof.
  intros Hb. induction xs as [|x xs IH]; simpl.
  - apply restores_tmp_preserves, preserves_ret.
  - apply restores_tmp_bind; [apply Hb | intros _; exact IH].
Qed.










(** ** Distinct milestones, distinct versions *)

Lemma digits_prefix_unique :
  forall d1 d2 t1 t2,
    all_digits d1 = true -> all_digits d2 = true ->
    (d1 ++ String "." t1 = d2 ++ String "." t2)%string ->
    d1 = d2 /\ t1 = t2.
Proof.
  induction d1 as [|c d1 IH]; intros [|c' d2] t1 t2 H1 H2 H; simpl in *.
  - inversion H; auto.
  - inversion H; subst c'. discriminate H2.
  - inversion H; subst c. discriminate H1.
  - injection H as Hc Ht. subst c'.
    apply andb_prop in H1 as [_ H1]. apply andb_prop in H2 as [_ H2].
    destruct (IH _ _ _ H1 H2 Ht) as [-> ->]. auto.
Qed.

Lemma string_of_Z_inj z1 z2 : string_of_Z z1 = string_of_Z z2 -> z1 = z2.
Proof.
  unfold string_of_Z. intros H.
  apply (f_equal NilZero.int_of_string) in H.
  assert (N : forall z, Z.to_int z <> Decimal.Pos Decimal.Nil /\
                        Z.to_int z <> Decimal.Neg Decimal.Nil).
  { intros [|p|p]; simpl; split; try discriminate;
      intros E; inversion E as [E'];
      exact (DecimalPos.Unsigned.to_uint_nonnil p E'). }
  rewrite !NilZero.isi in H by apply N.
  inversion H as [E]. exact (DecimalZ.to_int_inj _ _ E).
Qed.

Lemma nat_of_ascii_inj c1 c2 : nat_of_ascii c1 = nat_of_ascii c2 -> c1 = c2.
Proof.
  intros H. rewrite <- (ascii_nat_embedding c1), <- (ascii_nat_embedding c2), H.
  reflexivity.
Qed.

Lemma minor_letter_inj c1 c2 :
  string_of_Z (Z.of_nat (nat_of_ascii c1) - Z.of_nat (nat_of_ascii "a") + 1)
  = string_of_Z (Z.of_nat (nat_of_ascii c2) - Z.of_nat (nat_of_ascii "a") + 1) ->
  c1 = c2.
Proof.
  intros H. apply string_of_Z_inj in H. apply nat_of_ascii_inj. lia.
Qed.

Lemma minor_letter_nonzero c :
  isLower c = true ->
  string_of_Z (Z.of_nat (nat_of_ascii c) - Z.of_nat (nat_of_ascii "a") + 1)
  <> string_of_Z 0.
Proof.
  unfold isLower. intros L H. apply string_of_Z_inj in H.
  apply andb_prop in L as [L _]. apply Nat.leb_le in L.
  change (nat_of_ascii "a") with 97%nat in H. lia.
Qed.

Lemma append_inv_tail :
  forall a b t : string, (a ++ t = b ++ t)%string -> a = b.
Proof.
  intros a b t H.
  assert (L : forall s, String.length (s ++ t) = (String.length s + String.length t)%nat).
  { induction s; simpl; congruence. }
  revert b H. induction a as [|c a IH]; intros [|c' b] H; simpl in *.
  - reflexivity.
  - exfalso. apply (f_equal String.length) in H. simpl in H. rewrite L in H. lia.
  - exfalso. apply (f_equal String.length) in H. simpl in H. rewrite L in H. lia.
  - inversion H; subst. f_equal. apply IH. assumption.
Qed.

(** X10.  [deriveNpmVersion] is injective: two milestone identifiers
    for which it yields the same npm version are the same string, so
    two distinct Skia milestones never share a package version. *)
Theorem deriveNpmVersion_injective s1 s2 v :
  deriveNpmVersion s1 = Ok v -> deriveNpmVersion s2 = Ok v -> s1 = s2.
Proof.
  unfold deriveNpmVersion. intros H1 H2.
  destruct (match_version s1) as [[m1 x1]|] eqn:E1; [|discriminate H1].
  destruct (match_version s2) as [[m2 x2]|] eqn:E2; [|discriminate H2].
  apply match_version_shape in E1 as [[_ D1] S1].
  apply match_version_shape in E2 as [[_ D2] S2].
  inversion H1 as [V1]; clear H1. inversion H2 as [V2]; clear H2.
  rewrite <- V2 in V1. clear V2 v.
  destruct (digits_prefix_unique _ _ _ _ D1 D2 V1) as [-> T].
  apply append_inv_tail in T.
  destruct x1 as [c1|], x2 as [c2|].
  - destruct S1 as [-> L1], S2 as [-> L2].
    rewrite (minor_letter_inj c1 c2 T). reflexivity.
  - destruct S1 as [_ L1]. exfalso. exact (minor_letter_nonzero c1 L1 T).
  - destruct S2 as [_ L2]. exfalso. exact (minor_letter_nonzero c2 L2 (eq_sym T)).
  - congruence.
Qed.

(** ** A source subdirectory that is not a directory *)

Lemma copyItems_not_dir env dest n d d1 :
  isDirectory n = false ->
  mkdir_p dest d = (Ok tt, d1) ->
  copyItems env dest (Some n) d = (Throw ENOTDIR, d1).
Proof.
  intros Hn Hm. unfold copyItems, bind. rewrite Hm.
  destruct n as [data|es|k]; [reflexivity | discriminate Hn | reflexivity].
Qed.

Lemma preserves_fetch_disk_DownloadBinaries env url t :
  preserves disk (fetch (DownloadBinaries.extractTarGz env) url t).
Proof.
  apply preserves_fetch;
    [apply preserves_downloadToFile_disk | apply preserves_tar_disk].
Qed.

(** X11.  [downloadArtifact] of download-binaries.ts tests only that
    srcSubdir exists under the single wrapping directory, not that it
    is a directory.  When the archive holds, under its wrapper, an entry
    of that name that is not a directory, the call creates the
    destination directory, copies nothing and throws ENOTDIR (the
    scratch directory is removed); the payload discovery of
    generate-packages.ts and postinstall.mjs takes the wrapper itself
    as payload root on the same archive. *)
Theorem srcSubdir_not_directory
    env archConfig skiaVersion outputDir graphite w top wrapper n w2 d1 :
  fetch (DownloadBinaries.extractTarGz env)
    (DownloadBinaries.downloadUrl archConfig skiaVersion graphite)
    (fresh (tmp w)) (snd (mkdtempSync w)) = (Ok [(top, Dir wrapper)], w2) ->
  DownloadBinaries.srcSubdir archConfig <> EmptyString ->
  lookup (DownloadBinaries.srcSubdir archConfig) wrapper = Some n ->
  isDirectory n = false ->
  mkdir_p (DownloadBinaries.destDir archConfig outputDir) (disk w) = (Ok tt, d1) ->
  (exists w',
     DownloadBinaries.downloadArtifact env archConfig skiaVersion outputDir graphite w
     = (Throw ENOTDIR, w') /\
     disk w' = d1 /\ tmp w' = tmp w) /\
  locatePayload [(top, Dir wrapper)] (Some (DownloadBinaries.srcSubdir archConfig))
  = Dir wrapper.
Proof.
  intros Hf Hne Hl Hn Hm. split.
  - assert (Hd : disk w2 = disk w).
    { exact (preserves_fetch_disk_DownloadBinaries _ _ _ _ _ _ Hf). }
    assert (Hst : DownloadBinaries.stage env
              (DownloadBinaries.downloadUrl archConfig skiaVersion graphite)
              (fresh (tmp w)) (DownloadBinaries.destDir archConfig outputDir)
              (DownloadBinaries.srcSubdir archConfig) (snd (mkdtempSync w))
            = (Throw ENOTDIR, set_disk d1 w2)).
    { rewrite (DownloadBinaries_stage_fetch _ _ _ _ _ _ _ _ Hf).
      unfold bind, on_disk, locatePayload_exists. simpl.
      destruct (DownloadBinaries.srcSubdir archConfig) as [|c s] eqn:Es;
        [congruence|]. simpl. rewrite Hl, Hd.
      rewrite (copyItems_not_dir env _ n _ _ Hn Hm). reflexivity. }
    pose proof (preserves_stage_tmp_DownloadBinaries _ _ _ _ _ _ _ _ Hst) as Ht.
    rewrite (proj2 (mkdtempSync_spec w)) in Ht.
    unfold DownloadBinaries.downloadArtifact, bind, try_catch.
    change (mkdtempSync w) with (Ok (fresh (tmp w)), snd (mkdtempSync w)).
    cbv beta iota. rewrite Hst. simpl.
    eexists. split; [reflexivity|]. split; [reflexivity|]. exact Ht.
  - apply locatePayload_wrapper_only. right.
    exists (DownloadBinaries.srcSubdir archConfig). split.
    + destruct (DownloadBinaries.srcSubdir archConfig); [congruence | reflexivity].
    + intros inner E. rewrite Hl in E. inversion E; subst. discriminate Hn.
Qed.

(** ** The copy only adds *)

Lemma persists_refl o : persists o o.
Proof. destruct o as [[data|es|k]|]; simpl; eauto. Qed.

Lemma persists_trans a b c : persists a b -> persists b c -> persists a c.
Proof.
  destruct a as [[data|es|k]|]; simpl; auto.
  - intros [x ->]. auto.
  - intros [x ->]. auto.
  - intros ->. auto.
Qed.

Lemma grows_refl d : grows d d.
Proof. intros p. apply persists_refl. Qed.

Lemma grows_trans a b c : grows a b -> grows b c -> grows a c.
Proof. intros H1 H2 p. exact (persists_trans _ _ _ (H1 p) (H2 p)). Qed.

Lemma monotone_bind {A B} (m : M (option node) A) (k : A -> M (option node) B) :
  monotone m -> (forall a, monotone (k a)) -> monotone (bind m k).
Proof.
  intros Hm Hk d r d' H.
  apply bind_inv in H as [[a [d1 [H1 H2]]]|[[e [H1 _]]|[H1 _]]].
  - exact (grows_trans _ _ _ (Hm _ _ _ H1) (Hk a _ _ _ H2)).
  - exact (Hm _ _ _ H1).
  - exact (Hm _ _ _ H1).
Qed.

Lemma monotone_pure {A} (r : outcome A) : monotone (fun d => (r, d)).
Proof. intros d r0 d' H. inversion H; subst. apply grows_refl. Qed.

Lemma monotone_mkdirSync : monotone mkdirSync.
Proof.
  intros d r d' H. unfold mkdirSync in H.
  destruct d as [[data|es|sp]|]; inversion H; subst; try apply grows_refl.
  intros p. rewrite lookup_path_None. exact I.
Qed.

Lemma monotone_at_child {A} x (m : M (option node) A) :
  monotone m -> monotone (at_child x m).
Proof.
  intros Hm d r d' H. unfold at_child in H.
  destruct d as [[data|es|sp]|]; try (inversion H; subst; apply grows_refl).
  destruct (m (lookup x es)) as [r0 c] eqn:E. inversion H; subst.
  intros [|y rest]; simpl; [eauto|].
  destruct (String.eqb_spec y x) as [->|Hne].
  - rewrite lookup_set_child. exact (Hm _ _ _ E rest).
  - rewrite (lookup_set_child_other _ _ _ _ Hne). apply persists_refl.
Qed.

Lemma monotone_at_path {A} (m : M (option node) A) :
  monotone m -> forall p, monotone (at_path p m).
Proof.
  intros Hm. induction p as [|x rest IH]; simpl; [exact Hm|].
  apply monotone_at_child. exact IH.
Qed.

Lemma monotone_mkdir_p : forall p, monotone (mkdir_p p).
Proof.
  induction p as [|x rest IH]; simpl; [exact monotone_mkdirSync|].
  apply monotone_bind; [exact monotone_mkdirSync|].
  intros _. apply monotone_at_child. exact IH.
Qed.

Lemma monotone_for_of {A} (body : A -> M (option node) unit) :
  (forall a, monotone (body a)) -> forall xs, monotone (for_of xs body).
Proof.
  intros Hb. induction xs as [|x xs IH]; simpl.
  - apply (monotone_pure (Ok tt)).
  - apply monotone_bind; [apply Hb | intros _; exact IH].
Qed.

Lemma monotone_write_data env data : monotone (write_data env data).
Proof.
  intros d r d' H. unfold write_data in H.
  destruct d as [[x|es|k]|].
  - inversion H; subst. intros [|y rest]; simpl; eauto.
  - inversion H; subst. apply grows_refl.
  - destruct (write_special env k); inversion H; subst; apply grows_refl.
  - inversion H; subst. intros p. rewrite lookup_path_None. exact I.
Qed.

Lemma monotone_copyFileSync env src : monotone (copyFileSync env src).
Proof.
  destruct src as [data|es|k]; simpl.
  - apply monotone_write_data.
  - apply (monotone_pure (Throw EISDIR)).
  - destruct (read_special env k).
    + apply (monotone_pure (Throw e)).
    + apply (monotone_pure Hang).
    + apply monotone_write_data.
Qed.

Lemma monotone_round skip act e :
  monotone (act e) -> monotone (round skip act e).
Proof.
  intros H. unfold round. destruct (skip e).
  - apply (monotone_pure (Ok tt)).
  - apply monotone_at_child. exact H.
Qed.

Lemma monotone_copyDir env : forall src, monotone (copyDir env src).
Proof.
  induction src as [data|k|es IH] using node_induction.
  - simpl. apply monotone_bind; [exact monotone_mkdirSync|].
    intros _. apply (monotone_pure (Throw ENOTDIR)).
  - simpl. apply monotone_bind; [exact monotone_mkdirSync|].
    intros _. apply (monotone_pure (Throw ENOTDIR)).
  - rewrite copyDir_Dir.
    apply monotone_bind; [exact monotone_mkdirSync|]. intros _.
    rewrite (for_of_ext _ _ (copyEntry_round env)).
    clear - IH. induction es as [|[k c] es IHes]; simpl.
    + apply (monotone_pure (Ok tt)).
    + inversion IH as [|? ? Hc Hes]; subst.
      apply monotone_bind; [|intros _; exact (IHes Hes)].
      apply monotone_round. unfold entry_copy. simpl.
      destruct (isDirectory c); [exact Hc | apply monotone_copyFileSync].
Qed.

Lemma monotone_copyItems env dest src : monotone (copyItems env dest src).
Proof.
  unfold copyItems.
  apply monotone_bind; [apply monotone_mkdir_p|]. intros _.
  apply monotone_bind; [apply monotone_pure|]. intros items.
  apply monotone_at_path. apply monotone_for_of. intros e.
  rewrite copyItem_round. apply monotone_round. unfold entry_copy.
  destruct (isDirectory (snd e)); [apply monotone_copyDir | apply monotone_copyFileSync].
Qed.

Lemma grows_bind {A B} (m : M World A) (k : A -> M World B) :
  disk_related grows m -> (forall a, disk_related grows (k a)) ->
  disk_related grows (bind m k).
Proof.
  intros Hm Hk w r w' H.
  apply bind_inv in H as [[a [w1 [H1 H2]]]|[[e [H1 _]]|[H1 _]]].
  - exact (grows_trans _ _ _ (Hm _ _ _ H1) (Hk a _ _ _ H2)).
  - exact (Hm _ _ _ H1).
  - exact (Hm _ _ _ H1).
Qed.

Lemma grows_try_catch {A} (m : M World A) h :
  disk_related grows m -> (forall e, disk_related grows (h e)) ->
  disk_related grows (try_catch m h).
Proof.
  intros Hm Hh w r w' H. unfold try_catch in H.
  destruct (m w) as [[a|e|] w1] eqn:E.
  - inversion H; subst. exact (Hm _ _ _ E).
  - exact (grows_trans _ _ _ (Hm _ _ _ E) (Hh e _ _ _ H)).
  - inversion H; subst. exact (Hm _ _ _ E).
Qed.

Lemma grows_preserves {A} (m : M World A) :
  preserves disk m -> disk_related grows m.
Proof. intros Hm w r w' H. rewrite (Hm _ _ _ H). apply grows_refl. Qed.

Lemma grows_on_disk {A} (m : M (option node) A) :
  monotone m -> disk_related grows (on_disk m).
Proof.
  intros Hm w r w' H. unfold on_disk in H.
  destruct (m (disk w)) as [r0 d] eqn:E. inversion H; subst.
  exact (Hm _ _ _ E).
Qed.

Lemma grows_for_of {A} (body : A -> M World unit) :
  (forall a, disk_related grows (body a)) ->
  forall xs, disk_related grows (for_of xs body).
Proof.
  intros Hb. induction xs as [|x xs IH]; simpl.
  - apply grows_preserves, preserves_ret.
  - apply grows_bind; [apply Hb | intros _; exact IH].
Qed.

Lemma preserves_mkdtempSync_disk : preserves disk mkdtempSync.
Proof. intros w r w' H. inversion H; reflexivity. Qed.

Lemma grows_scratch (body : nat -> M World unit) :
  (forall t, disk_related grows (body t)) ->
  disk_related grows
    (tempDir <- mkdtempSync ;;
     try_catch (body tempDir) (fun error => rm_tmp tempDir ;; throw error)).
Proof.
  intros Hb. apply grows_bind; [apply grows_preserves, preserves_mkdtempSync_disk|].
  intros t. apply grows_try_catch; [apply Hb|].
  intros e. apply grows_preserves.
  apply preserves_bind; [apply preserves_rm_tmp_disk | intros _; apply preserves_throw].
Qed.

Lemma grows_copy_and_clean env dest src t :
  disk_related grows (on_disk (copyItems env dest src) ;; rm_tmp t).
Proof.
  apply grows_bind; [apply grows_on_disk, monotone_copyItems|].
  intros _. apply grows_preserves, preserves_rm_tmp_disk.
Qed.

Lemma grows_GeneratePackages env artifact releaseTag destDir sub :
  disk_related grows
    (GeneratePackages.downloadAndExtractAsset env artifact releaseTag destDir sub).
Proof.
  apply grows_scratch. intros t. unfold GeneratePackages.stage.
  apply grows_bind; [apply grows_preserves, preserves_downloadToFile_disk|]. intros _.
  apply grows_bind; [apply grows_preserves, preserves_tar_disk|]. intros _.
  apply grows_bind; [apply grows_preserves, preserves_read_extracted|]. intros es.
  apply grows_bind.
  { apply grows_preserves.
    destruct (length es =? 0)%nat; [apply preserves_throw | apply preserves_ret]. }
  intros _. apply grows_copy_and_clean.
Qed.

Lemma grows_DownloadBinaries env archConfig skiaVersion outputDir graphite :
  disk_related grows
    (DownloadBinaries.downloadArtifact env archConfig skiaVersion outputDir graphite).
Proof.
  apply grows_scratch. intros t. unfold DownloadBinaries.stage.
  apply grows_bind; [apply grows_preserves, preserves_downloadToFile_disk|]. intros _.
  apply grows_bind; [apply grows_preserves, preserves_tar_disk|]. intros _.
  apply grows_bind; [apply grows_preserves, preserves_read_extracted|]. intros es.
  apply grows_copy_and_clean.
Qed.

Lemma grows_Postinstall env skia asset destDir sub :
  disk_related grows
    (Postinstall.downloadAndExtractAsset env skia asset destDir sub).
Proof.
  apply grows_scratch. intros t. unfold Postinstall.stage.
  apply grows_bind; [apply grows_preserves, preserves_downloadToFile_disk|]. intros _.
  apply grows_bind; [apply grows_preserves, preserves_tar_disk|]. intros _.
  apply grows_bind; [apply grows_preserves, preserves_read_extracted|]. intros es.
  apply grows_bind.
  { apply grows_preserves.
    destruct (length es =? 0)%nat; [apply preserves_throw | apply preserves_ret]. }
  intros _. apply grows_copy_and_clean.
Qed.

(** X12.  The three staging functions only add to the persistent tree:
    whatever their outcome, every path that designated something
    before the call still designates something of the same kind after
    it (a directory a directory, a regular file a regular file whose
    content may have been overwritten, a special file itself).  No
    staging removes an entry or replaces a directory by a file. *)
Theorem staging_only_adds :
  (forall env artifact releaseTag destDir sub w r w' p,
     GeneratePackages.downloadAndExtractAsset env artifact releaseTag destDir sub w
     = (r, w') ->
     persists (lookup_path p (disk w)) (lookup_path p (disk w'))) /\
  (forall env archConfig skiaVersion outputDir graphite w r w' p,
     DownloadBinaries.downloadArtifact env archConfig skiaVersion outputDir graphite w
     = (r, w') ->
     persists (lookup_path p (disk w)) (lookup_path p (disk w'))) /\
  (forall env skia asset destDir sub w r w' p,
     Postinstall.downloadAndExtractAsset env skia asset destDir sub w = (r, w') ->
     persists (lookup_path p (disk w)) (lookup_path p (disk w'))).
Proof.
  split; [|split].
  - intros env artifact releaseTag destDir sub w r w' p H.
    exact (grows_GeneratePackages _ _ _ _ _ _ _ _ H p).
  - intros env archConfig skiaVersion outputDir graphite w r w' p H.
    exact (grows_DownloadBinaries _ _ _ _ _ _ _ _ H p).
  - intros env skia asset destDir sub w r w' p H.
    exact (grows_Postinstall _ _ _ _ _ _ _ _ H p).
Qed.

(* ================================================================== *)
(** * Command lines *)

Lemma includes_cons needle c rest :
  includes needle (String c rest) = false -> includes needle rest = false.
Proof.
  simpl. intros H. apply orb_false_iff in H as [_ H].
  destruct rest; exact H.
Qed.

Lemma includes_eq_head c rest :
  includes "=" (String c rest) = false -> Ascii.eqb c "=" = false.
Proof.
  simpl. intros H. apply orb_false_iff in H as [H _].
  destruct (Ascii.eqb_spec "="%char c) as [<-|Hne].
  - destruct rest; discriminate H.
  - apply Ascii.eqb_neq. congruence.
Qed.

Lemma split_cons_shape sep s : exists head tail, split sep s = head :: tail.
Proof.
  induction s as [|c s [h [t IH]]]; simpl; eauto.
  destruct (Ascii.eqb c sep); eauto. rewrite IH. eauto.
Qed.

Lemma split_plain s : includes "=" s = false -> split "=" s = [s].
Proof.
  induction s as [|c s IH]; intros H; [reflexivity|].
  simpl split. rewrite (includes_eq_head _ _ H), (IH (includes_cons _ _ _ H)).
  reflexivity.
Qed.

Lemma split_at_first k rest :
  includes "=" k = false ->
  split "=" (k ++ String "=" rest)%string = k :: split "=" rest.
Proof.
  induction k as [|c k IH]; intros H; [reflexivity|].
  simpl. rewrite (includes_eq_head _ _ H), (IH (includes_cons _ _ _ H)).
  reflexivity.
Qed.

Lemma parseArgs_snoc argv arg :
  parseArgs (argv ++ [arg]) = parseArg (parseArgs argv) arg.
Proof. unfold parseArgs. rewrite fold_left_app. reflexivity. Qed.

Lemma get_assign key v args :
  key <> "__proto__"%string -> get key (assign key v args) = Some v.
Proof.
  intros H. unfold assign. apply String.eqb_neq in H. rewrite H.
  simpl. rewrite String.eqb_refl. reflexivity.
Qed.

Lemma prefix_empty s : prefix "" s = true.
Proof. destruct s; reflexivity. Qed.

Lemma parseArg_flag args key :
  includes "=" key = false ->
  parseArg args ("--" ++ key)%string = assign key ArgTrue args.
Proof.
  intros H. unfold parseArg. simpl. rewrite prefix_empty, (split_plain _ H). reflexivity.
Qed.

Lemma parseArg_option args key value :
  includes "=" key = false ->
  parseArg args ("--" ++ key ++ String "=" value)%string
  = match split "=" value with
    | head :: _ => assign key (ArgString head) args
    | [] => args
    end.
Proof.
  intros H. unfold parseArg. simpl. rewrite prefix_empty, (split_at_first _ _ H).
  destruct (split_cons_shape "=" value) as [h [t ->]]. reflexivity.
Qed.

(** X13.  [parseArgs], for an option given last on the command line:
    a bare [--key] is recorded as [true]; [--key=value] as the string
    [value]; of [--key=value=tail] only [value] is kept, what follows
    a second [=] being dropped; and an argument that does not start
    with two dashes changes nothing. *)
Theorem parseArgs_last_option argv key value tail :
  includes "=" key = false ->
  includes "=" value = false ->
  key <> "__proto__"%string ->
  get key (parseArgs (argv ++ [("--" ++ key)%string])) = Some ArgTrue /\
  get key (parseArgs (argv ++ [("--" ++ key ++ "=" ++ value)%string]))
  = Some (ArgString value) /\
  get key (parseArgs (argv ++ [("--" ++ key ++ "=" ++ value ++ "=" ++ tail)%string]))
  = Some (ArgString value) /\
  (forall arg, prefix "--" arg = false -> parseArgs (argv ++ [arg]) = parseArgs argv).
Proof.
  intros Hk Hv Hp. repeat split.
  - rewrite parseArgs_snoc, (parseArg_flag _ _ Hk). apply get_assign. exact Hp.
  - rewrite parseArgs_snoc.
    change ("--" ++ key ++ "=" ++ value)%string
      with ("--" ++ key ++ String "=" value)%string.
    rewrite (parseArg_option _ _ _ Hk), (split_plain _ Hv).
    apply get_assign. exact Hp.
  - rewrite parseArgs_snoc.
    change ("--" ++ key ++ "=" ++ value ++ "=" ++ tail)%string
      with ("--" ++ key ++ String "=" (value ++ String "=" tail))%string.
    rewrite (parseArg_option _ _ _ Hk), (split_at_first _ _ Hv).
    apply get_assign. exact Hp.
  - intros arg H. rewrite parseArgs_snoc. unfold parseArg. rewrite H. reflexivity.
Qed.

(* ================================================================== *)
(** * The entry point of download-binaries.ts *)

Lemma is_dir_grows p d d' : is_dir (lookup_path p d) -> grows d d' -> is_dir (lookup_path p d').
Proof.
  intros [es H] Hg. specialize (Hg p). rewrite H in Hg. exact Hg.
Qed.






Section DownloadPlatforms.

Variables (host : Host) (env : Env) (skiaVersion : string)
          (outputDir : OutputDir) (graphite : bool).

Local Abbreviation loop :=
  (DownloadBinariesMain.downloadPlatforms host env skiaVersion outputDir graphite).

Local Abbreviation attempt := (fun (platformDir : path) (config : option DownloadBinariesMain.PlatformConfig) =>
  match config with
  | Some artifacts =>
      for_of artifacts (fun archConfig =>
        DownloadBinaries.downloadArtifact env archConfig skiaVersion platformDir graphite)
  | None => throw DownloadBinariesMain.notIterable
  end).








End DownloadPlatforms.

(** X14.  [main] of download-binaries.ts ends with exit status 1, with
    nothing requested and nothing written, when [--skia-version] is
    missing or empty, and when [--platform] names no entry of the table
    in use (here with [--output-dir] not given as a bare flag).  The
    second case covers the names that the table lookup finds on
    [Object.prototype], such as [constructor]: they pass the
    unknown-platform test and fail in the loop instead. *)
Theorem download_main_usage_errors :
  (forall host env argv w,
     given (get "skia-version" (parseArgs argv)) = None ->
     DownloadBinariesMain.main host env argv w = (Ok 1%Z, w)) /\
  (forall host env argv w p,
     given (get "platform" (parseArgs argv)) = Some p ->
     DownloadBinariesMain.own (text p)
       (if isTrue (get "graphite" (parseArgs argv))
        then DownloadBinariesMain.GRAPHITE_PLATFORMS
        else DownloadBinariesMain.GANESH_PLATFORMS) = None ->
     get "output-dir" (parseArgs argv) <> Some ArgTrue ->
     DownloadBinariesMain.main host env argv w = (Ok 1%Z, w)).
Proof.
  split.
  - intros host env argv w H. unfold DownloadBinariesMain.main. rewrite H. reflexivity.
  - intros host env argv w p Hp Hown Hout. unfold DownloadBinariesMain.main.
    destruct (given (get "skia-version" (parseArgs argv))) as [version|]; [|reflexivity].
    rewrite Hp. unfold DownloadBinariesMain.member. rewrite Hown.
    destruct (existsb (String.eqb (text p)) prototypeKeys); [|reflexivity].
    simpl. unfold bind at 1. unfold lift.
    assert (Hj : exists dir, join host (outputDirOf (parseArgs argv) "libs") (text p)
                             = Ok dir).
    { unfold outputDirOf, join.
      destruct (get "output-dir" (parseArgs argv)) as [[[|c s]|]|] eqn:E; simpl; eauto.
      exfalso. apply Hout. reflexivity. }
    destruct Hj as [dir ->]. reflexivity.
Qed.


(* ================================================================== *)
(** * Package generation *)

Lemma at_path_ok {A} (m : M (option node) A) :
  forall p d a d',
    at_path p m d = (Ok a, d') ->
    m (lookup_path p d) = (Ok a, lookup_path p d').
Proof.
  induction p as [|x rest IH]; intros d a d' H; simpl in *; [exact H|].
  unfold at_child in H. destruct d as [[data|es|sp]|]; try discriminate H.
  destruct (at_path rest m (lookup x es)) as [r c] eqn:E.
  inversion H; subst. rewrite lookup_set_child. exact (IH _ _ _ E).
Qed.

Lemma at_path_sibling {A} (m : M (option node) A) a b :
  b <> a ->
  forall p d r d',
    at_path (p ++ [a]) m d = (r, d') ->
    lookup_path (p ++ [b]) d' = lookup_path (p ++ [b]) d.
Proof.
  intros Hne. induction p as [|x rest IH]; intros d r d' H; simpl app in *.
  - exact (keeps_entry_at_child b a m Hne _ _ _ H).
  - simpl in H. unfold at_child in H.
    destruct d as [[data|es|sp]|]; try (inversion H; reflexivity).
    destruct (at_path (rest ++ [a]) m (lookup x es)) as [r0 c] eqn:E.
    inversion H; subst. simpl. rewrite lookup_set_child. exact (IH _ _ _ E).
Qed.

Lemma write_data_written env data d d' :
  write_data env data d = (Ok tt, d') -> written data d'.
Proof.
  unfold write_data, written. destruct d as [[x|es|k]|]; intros H.
  - inversion H; auto.
  - discriminate H.
  - destruct (write_special env k); inversion H; subst. eauto.
  - inversion H; auto.
Qed.

Lemma writeFileSync_written env p data d d' :
  writeFileSync env p data d = (Ok tt, d') -> written data (lookup_path p d').
Proof.
  intros H. apply at_path_ok in H. exact (write_data_written _ _ _ _ H).
Qed.

Lemma monotone_writeFileSync env p data : monotone (writeFileSync env p data).
Proof. apply monotone_at_path, monotone_write_data. Qed.


Lemma restores_tmp_try_catch {A} (m : M World A) h :
  restores_tmp m -> (forall e, restores_tmp (h e)) -> restores_tmp (try_catch m h).
Proof.
  intros Hm Hh w r w' H Hs. unfold try_catch in H.
  destruct (m w) as [[a|e|] w1] eqn:E.
  - inversion H; subst. exact (Hm _ _ _ E eq_refl).
  - rewrite (Hh e _ _ _ H Hs). exact (Hm _ _ _ E eq_refl).
  - inversion H; subst. discriminate Hs.
Qed.

Lemma preserves_lift {A X} (obs : World -> X) (r : outcome A) : preserves obs (lift r).
Proof. intros w r0 w' H. inversion H; reflexivity. Qed.


Lemma restores_tmp_on_disk {A} (m : M (option node) A) : restores_tmp (on_disk m).
Proof. apply restores_tmp_preserves, preserves_on_disk_all_tmp. Qed.

Lemma restores_tmp_GeneratePackages env artifact releaseTag destDir sub :
  restores_tmp
    (GeneratePackages.downloadAndExtractAsset env artifact releaseTag destDir sub).
Proof.
  intros w r w' H Hs.
  destruct (with_scratch_cleanup
              (fun t => GeneratePackages.stage env
                          (GeneratePackages.downloadUrl artifact releaseTag)
                          t destDir sub) w r w') as [H1 _]; auto.
  - intros t. apply preserves_stage_tmp.
  - intros t. apply ends_clean_stage.
Qed.

Section Generate.

Import GeneratePackagesMain.

Variables (js : Json) (host : Host) (env : Env).

Lemma grows_downloadBinaries pkg releaseTag libsDir :
  disk_related grows (downloadBinaries env pkg releaseTag libsDir).
Proof.
  unfold downloadBinaries.
  assert (Hsingle : disk_related grows
            match truthy (artifact pkg) with
            | Some a =>
                GeneratePackages.downloadAndExtractAsset env a releaseTag libsDir
                  (libSubdir pkg)
            | None => ret tt
            end).
  { destruct (truthy (artifact pkg));
      [apply grows_GeneratePackages | apply grows_preserves, preserves_ret]. }
  destruct (String.eqb (platform pkg) "android"); [|exact Hsingle].
  destruct (androidArchs pkg) as [archs|]; [|exact Hsingle].
  apply grows_for_of. intros a. apply grows_GeneratePackages.
Qed.

Lemma restores_tmp_downloadBinaries pkg releaseTag libsDir :
  restores_tmp (downloadBinaries env pkg releaseTag libsDir).
Proof.
  unfold downloadBinaries.
  assert (Hsingle : restores_tmp
            match truthy (artifact pkg) with
            | Some a =>
                GeneratePackages.downloadAndExtractAsset env a releaseTag libsDir
                  (libSubdir pkg)
            | None => ret tt
            end).
  { destruct (truthy (artifact pkg));
      [apply restores_tmp_GeneratePackages | apply restores_tmp_preserves, preserves_ret]. }
  destruct (String.eqb (platform pkg) "android"); [|exact Hsingle].
  destruct (androidArchs pkg) as [archs|]; [|exact Hsingle].
  apply restores_tmp_for_of. intros a. apply restores_tmp_GeneratePackages.
Qed.


Lemma restores_tmp_generatePackage pkg outputDir skiaVersion npmVersion graphite :
  restores_tmp
    (generatePackage js host env pkg outputDir skiaVersion npmVersion graphite).
Proof.
  unfold generatePackage.
  apply restores_tmp_bind; [apply restores_tmp_preserves, preserves_lift|]. intros pkgDir.
  apply restores_tmp_bind; [apply restores_tmp_on_disk|]. intros _.
  apply restores_tmp_bind; [apply restores_tmp_on_disk|]. intros _.
  apply restores_tmp_bind; [apply restores_tmp_downloadBinaries|]. intros _.
  apply restores_tmp_bind; [apply restores_tmp_on_disk|]. intros _.
  apply restores_tmp_bind; [apply restores_tmp_on_disk|]. intros _.
  apply restores_tmp_preserves, preserves_ret.
Qed.

End Generate.

(** X16.  When [generatePackage] of generate-packages.ts returns, the
    directory it returns is [outputDir] joined with the package name
    and holds the manifest [package.json] (the serialized
    [generatePackageJson] followed by a newline), [README.md] (the text
    of [generateReadme]) and the directory [libs]; the temporary area
    is as before the call.  (Where a special file stood under one of
    the two file names, it has taken the data and is still there.) *)
Theorem generatePackage_layout
    js host env pkg outputDir skiaVersion npmVersion graphite w pkgDir w' :
  GeneratePackagesMain.generatePackage js host env pkg outputDir skiaVersion
    npmVersion graphite w = (Ok pkgDir, w') ->
  join host outputDir (GeneratePackagesMain.getPackageName pkg graphite) = Ok pkgDir /\
  written
    (GeneratePackagesMain.stringify js
       (GeneratePackagesMain.generatePackageJson pkg skiaVersion npmVersion graphite)
     ++ nl)%string
    (lookup_path (pkgDir ++ ["package.json"%string]) (disk w')) /\
  written (GeneratePackagesMain.generateReadme pkg skiaVersion npmVersion graphite)
    (lookup_path (pkgDir ++ ["README.md"%string]) (disk w')) /\
  is_dir (lookup_path (pkgDir ++ ["libs"%string]) (disk w')) /\
  tmp w' = tmp w.
Proof.
  intros H.
  pose proof (restores_tmp_generatePackage _ _ _ _ _ _ _ _ _ _ _ H eq_refl) as Htmp.
  unfold GeneratePackagesMain.generatePackage in H.
  apply bind_ok_inv in H as [dir [w1 [Hj H]]].
  unfold lift in Hj. inversion Hj as [[Hdir Hw1]]. subst w1. clear Hj.
  apply bind_ok_inv in H as [[] [w2 [_ H]]].
  apply bind_ok_inv in H as [[] [w3 [Hlibs H]]].
  apply bind_ok_inv in H as [[] [w4 [Hdl H]]].
  apply bind_ok_inv in H as [[] [w5 [Hjson H]]].
  apply bind_ok_inv in H as [[] [w6 [Hreadme H]]].
  inversion H; subst pkgDir w'. clear H.
  split; [exact Hdir|].
  assert (Hl3 : is_dir (lookup_path (dir ++ ["libs"%string]) (disk w3))).
  { unfold on_disk in Hlibs.
    destruct (mkdir_p (dir ++ ["libs"%string]) (disk w2)) as [r0 d0] eqn:E.
    inversion Hlibs; subst. simpl.
    apply mkdir_p_spec in E as [es [Hl _]]. exists es. exact Hl. }
  unfold on_disk in Hjson, Hreadme.
  destruct (writeFileSync env (dir ++ ["package.json"%string]) _ (disk w4))
    as [r5 d5] eqn:E5.
  destruct (writeFileSync env (dir ++ ["README.md"%string]) _ (disk w5))
    as [r6 d6] eqn:E6.
  inversion Hjson; subst r5 w5. inversion Hreadme; subst r6 w6. simpl in *.
  split; [|split; [|split]].
  - unfold writeFileSync in E6.
    rewrite (at_path_sibling _ "README.md"%string "package.json"%string
               ltac:(discriminate) _ _ _ _ E6).
    exact (writeFileSync_written _ _ _ _ _ E5).
  - exact (writeFileSync_written _ _ _ _ _ E6).
  - apply (is_dir_grows _ d5); [|exact (monotone_writeFileSync _ _ _ _ _ _ E6)].
    apply (is_dir_grows _ (disk w4)); [|exact (monotone_writeFileSync _ _ _ _ _ _ E5)].
    apply (is_dir_grows _ (disk w3)); [exact Hl3|].
    exact (grows_downloadBinaries _ _ _ _ _ _ _ Hdl).
  - exact Htmp.
Qed.

Section GenerateMain.

Import GeneratePackagesMain.

Variables (js : Json) (host : Host) (env : Env).















End GenerateMain.


(** X18.  [main] of generate-packages.ts ends with exit status 1, with
    nothing requested and nothing written, when neither [--config] nor
    [--skia-version] is given; when the version does not have the form
    that [deriveNpmVersion] accepts and no [--npm-version] replaces the
    derivation; and when [--package] names no package of the table in
    use. *)
Theorem generate_main_usage_errors :
  (forall js host env argv w,
     given (get "config" (parseArgs argv)) = None ->
     given (get "skia-version" (parseArgs argv)) = None ->
     GeneratePackagesMain.main js host env argv w = (Ok 1%Z, w)) /\
  (forall js host env argv w version e,
     given (get "config" (parseArgs argv)) = None ->
     given (get "skia-version" (parseArgs argv)) = Some version ->
     given (get "npm-version" (parseArgs argv)) = None ->
     deriveNpmVersion (text version) = Throw e ->
     GeneratePackagesMain.main js host env argv w = (Ok 1%Z, w)) /\
  (forall js host env argv w p,
     given (get "config" (parseArgs argv)) = None ->
     given (get "package" (parseArgs argv)) = Some p ->
     GeneratePackagesMain.selectPackages
       (if isTrue (get "graphite" (parseArgs argv))
        then GeneratePackagesMain.GRAPHITE_PACKAGES
        else GeneratePackagesMain.GANESH_PACKAGES) p = [] ->
     GeneratePackagesMain.main js host env argv w = (Ok 1%Z, w)).
Proof.
  split; [|split].
  - intros js host env argv w Hc Hv. unfold GeneratePackagesMain.main.
    rewrite Hc, Hv. reflexivity.
  - intros js host env argv w version e Hc Hv Hn Hd. unfold GeneratePackagesMain.main.
    rewrite Hc, Hv, Hn, Hd. reflexivity.
  - intros js host env argv w p Hc Hp Hsel. unfold GeneratePackagesMain.main.
    rewrite Hc.
    destruct (given (get "skia-version" (parseArgs argv))) as [version|]; [|reflexivity].
    destruct (match given (get "npm-version" (parseArgs argv)) with
              | Some v => Ok (text v)
              | None => deriveNpmVersion (text version)
              end) as [npmVersion|e|]; try reflexivity.
    rewrite Hp, Hsel. reflexivity.
Qed.

(* ================================================================== *)
(** * Installer packages and bundled packages *)

Lemma tryCandidates_extend env t f f' :
  forall cands more last w w',
    tryCandidates env t cands last f w = (Ok tt, w') ->
    tryCandidates env t (cands ++ more) last f' w = (Ok tt, w').
Proof.
  induction cands as [|c cands IH]; intros more last w w' H; simpl in *.
  - discriminate H.
  - unfold try_catch in *.
    destruct (runCommand env c t w) as [[[]|e|] w1]; try assumption.
    destruct (opt_string_eqb (code e) "ENOENT"); apply IH; assumption.
Qed.

Lemma Postinstall_candidates_extend env :
  exists more, Postinstall.candidates env = GeneratePackages.candidates env ++ more.
Proof.
  unfold Postinstall.candidates, GeneratePackages.candidates.
  destruct (win32 env).
  - exists ["bsdtar.exe"%string; "bsdtar"%string]. reflexivity.
  - exists []. reflexivity.
Qed.

Lemma extractTarGz_agrees env asset t w w' :
  GeneratePackages.extractTarGz env t w = (Ok tt, w') ->
  Postinstall.extractTarGz env asset t w = (Ok tt, w').
Proof.
  unfold GeneratePackages.extractTarGz, Postinstall.extractTarGz. intros H.
  apply bind_ok_inv in H as [[] [w1 [Hm H]]].
  unfold bind. rewrite Hm.
  destruct (Postinstall_candidates_extend env) as [more ->].
  exact (tryCandidates_extend _ _ _ _ _ _ _ _ _ H).
Qed.

Lemma stage_agrees env skia artifact t destDir sub w w' :
  Postinstall.repo skia = GeneratePackages.REPO ->
  GeneratePackages.stage env
    (GeneratePackages.downloadUrl artifact (Postinstall.releaseTag skia)) t destDir sub w
  = (Ok tt, w') ->
  Postinstall.stage env skia
    (GeneratePackages.assetName artifact (Postinstall.releaseTag skia)) t destDir sub w
  = (Ok tt, w').
Proof.
  intros Hrepo H. unfold GeneratePackages.stage in H. unfold Postinstall.stage.
  assert (Hurl : Postinstall.downloadUrl skia
                   (GeneratePackages.assetName artifact (Postinstall.releaseTag skia))
                 = GeneratePackages.downloadUrl artifact (Postinstall.releaseTag skia)).
  { unfold Postinstall.downloadUrl, GeneratePackages.downloadUrl. rewrite Hrepo.
    reflexivity. }
  rewrite Hurl.
  apply bind_ok_inv in H as [[] [w1 [Hd H]]].
  apply bind_ok_inv in H as [[] [w2 [He H]]].
  unfold bind at 1. rewrite Hd.
  unfold bind at 1. rewrite (extractTarGz_agrees _ _ _ _ _ He).
  exact H.
Qed.

Lemma asset_agrees env skia artifact destDir sub w w' :
  Postinstall.repo skia = GeneratePackages.REPO ->
  GeneratePackages.downloadAndExtractAsset env artifact (Postinstall.releaseTag skia)
    destDir sub w = (Ok tt, w') ->
  Postinstall.downloadAndExtractAsset env skia
    (GeneratePackages.assetName artifact (Postinstall.releaseTag skia)) destDir sub w
  = (Ok tt, w').
Proof.
  intros Hrepo H.
  unfold GeneratePackages.downloadAndExtractAsset in H.
  unfold Postinstall.downloadAndExtractAsset.
  apply bind_ok_inv in H as [t [w1 [Hm H]]].
  unfold bind. rewrite Hm.
  unfold try_catch in *.
  destruct (GeneratePackages.stage env
              (GeneratePackages.downloadUrl artifact (Postinstall.releaseTag skia))
              t destDir sub w1) as [[[]|e|] w2] eqn:E.
  - rewrite (stage_agrees _ _ _ _ _ _ _ _ Hrepo E). exact H.
  - apply bind_ok_inv in H as [[] [w3 [_ H]]]. discriminate H.
  - discriminate H.
Qed.

Lemma archs_agree env skia tag :
  Postinstall.repo skia = GeneratePackages.REPO ->
  Postinstall.releaseTag skia = tag ->
  forall archs w1 w',
    for_of archs (fun a =>
      GeneratePackages.downloadAndExtractAsset env
        (GeneratePackagesMain.arch_artifact a) tag
        (Postinstall.libsDir ++ [GeneratePackagesMain.arch a])
        (Some (GeneratePackagesMain.srcSubdir a))) w1 = (Ok tt, w') ->
    for_of
      (map (fun a =>
         Postinstall.mkAndroidArch (GeneratePackagesMain.arch a)
           (GeneratePackagesMain.arch_artifact a ++ "-" ++ tag ++ ".tar.gz")%string
           (Some (GeneratePackagesMain.srcSubdir a))) archs)
      (fun a =>
         Postinstall.downloadAndExtractAsset env skia (Postinstall.arch_assetName a)
           (Postinstall.libsDir ++ [Postinstall.arch a]) (Postinstall.srcSubdir a))
      w1 = (Ok tt, w').
Proof.
  intros Hrepo Htag.
  induction archs as [|a archs IH]; intros w1 w' H; simpl in *; [exact H|].
  apply bind_ok_inv in H as [[] [w2 [Ha H]]].
  unfold bind at 1. rewrite <- Htag in Ha.
  pose proof (asset_agrees env skia _ _ _ _ _ Hrepo Ha) as Hp.
  unfold GeneratePackages.assetName in Hp. rewrite Htag in Hp.
  simpl in Hp |- *. rewrite Hp. exact (IH _ _ H).
Qed.

Lemma releaseTag_agrees skiaVersion graphite :
  (GeneratePackagesMain.prefix_of graphite ++ "-" ++ skiaVersion)%string
  = GenerateInstallers.releaseTagOf skiaVersion graphite.
Proof. destruct graphite; reflexivity. Qed.

Lemma metadata_fields pkg skiaVersion graphite :
  let skia := GenerateInstallers.readBack
                (GenerateInstallers.skiaMetadata pkg skiaVersion graphite) in
  let tag := GenerateInstallers.releaseTagOf skiaVersion graphite in
  Postinstall.repo skia = GeneratePackages.REPO /\
  Postinstall.releaseTag skia = tag /\
  Postinstall.platform skia = GeneratePackagesMain.platform pkg /\
  (forall archs,
     String.eqb (GeneratePackagesMain.platform pkg) "android" = true ->
     GeneratePackagesMain.androidArchs pkg = Some archs ->
     Postinstall.androidArchs skia
     = Some (map (fun a =>
          Postinstall.mkAndroidArch (GeneratePackagesMain.arch a)
            (GeneratePackagesMain.arch_artifact a ++ "-" ++ tag ++ ".tar.gz")%string
            (Some (GeneratePackagesMain.srcSubdir a))) archs)) /\
  (String.eqb (GeneratePackagesMain.platform pkg) "android" = false \/
   GeneratePackagesMain.androidArchs pkg = None ->
   Postinstall.androidArchs skia = None /\
   Postinstall.assetName skia
   = match truthy (GeneratePackagesMain.artifact pkg) with
     | Some a => Some (a ++ "-" ++ tag ++ ".tar.gz")%string
     | None => None
     end /\
   Postinstall.libSubdir skia
   = match truthy (GeneratePackagesMain.artifact pkg) with
     | Some a => GeneratePackagesMain.libSubdir pkg
     | None => None
     end).
Proof.
  unfold GenerateInstallers.skiaMetadata.
  destruct (String.eqb (GeneratePackagesMain.platform pkg) "android");
    destruct (GeneratePackagesMain.androidArchs pkg) as [archs|];
    destruct (truthy (GeneratePackagesMain.artifact pkg)) as [a|];
    simpl; repeat split; try reflexivity;
    try (intros archs0 E1 E2; try discriminate E1; try discriminate E2;
         inversion E2; subst; rewrite map_map; reflexivity);
    try (intros [E|E]; discriminate E);
    try match goal with
        | H : _ \/ _ |- _ => destruct H as [E|E]; discriminate E
        end.
Qed.

(** X19.  The installer package and the bundled package of the same
    configuration hold the same binaries.  Take any package
    configuration, version and backend, and a package directory without
    [libs].  If the download section of [generatePackage] (the
    bundling generator) run there returns, then [install] of
    postinstall.mjs, reading the metadata that the installer generator
    writes for that configuration and run from the same state, returns
    as well, in the same final state: same requests, same files under
    [libs]. *)
Theorem installer_agrees_with_bundler env pkg skiaVersion graphite w w' :
  lookup_path Postinstall.libsDir (disk w) = None ->
  (on_disk (mkdir_p Postinstall.libsDir) ;;
   GeneratePackagesMain.downloadBinaries env pkg
     (GeneratePackagesMain.prefix_of graphite ++ "-" ++ skiaVersion)%string
     Postinstall.libsDir) w = (Ok tt, w') ->
  Postinstall.install env
    (GenerateInstallers.readBack
       (GenerateInstallers.skiaMetadata pkg skiaVersion graphite)) w
  = (Ok tt, w').
Proof.
  intros Habsent H. rewrite releaseTag_agrees in H.
  destruct (metadata_fields pkg skiaVersion graphite)
    as [Hrepo [Htag [Hplat [Harchs Hsingle]]]].
  set (skia := GenerateInstallers.readBack
                 (GenerateInstallers.skiaMetadata pkg skiaVersion graphite)) in *.
  set (tag := GenerateInstallers.releaseTagOf skiaVersion graphite) in *.
  unfold Postinstall.install.
  unfold bind at 1. unfold on_disk at 1. unfold existsSync. rewrite Habsent.
  assert (Hw : set_disk (disk w) w = w) by (destruct w; reflexivity).
  rewrite Hw.
  apply bind_ok_inv in H as [[] [w1 [Hm H]]].
  unfold bind at 1. rewrite Hm.
  unfold GeneratePackagesMain.downloadBinaries in H.
  rewrite Hplat.
  assert (Hone :
            String.eqb (GeneratePackagesMain.platform pkg) "android" = false \/
            GeneratePackagesMain.androidArchs pkg = None ->
            match truthy (GeneratePackagesMain.artifact pkg) with
            | Some a =>
                GeneratePackages.downloadAndExtractAsset env a tag Postinstall.libsDir
                  (GeneratePackagesMain.libSubdir pkg)
            | None => ret tt
            end w1 = (Ok tt, w') ->
            match truthy (Postinstall.assetName skia) with
            | Some asset =>
                Postinstall.downloadAndExtractAsset env skia asset Postinstall.libsDir
                  (Postinstall.libSubdir skia)
            | None => ret tt
            end w1 = (Ok tt, w')).
  { intros Hc Hs. destruct (Hsingle Hc) as [_ [Hasset Hsub]].
    rewrite Hasset, Hsub.
    destruct (truthy (GeneratePackagesMain.artifact pkg)) as [a|]; [|exact Hs].
    assert (Ht : truthy (Some (a ++ "-" ++ tag ++ ".tar.gz")%string)
                 = Some (GeneratePackages.assetName a (Postinstall.releaseTag skia))).
    { rewrite Htag. unfold GeneratePackages.assetName. destruct a; reflexivity. }
    rewrite Ht. apply asset_agrees; [exact Hrepo|]. rewrite Htag. exact Hs. }
  destruct (String.eqb (GeneratePackagesMain.platform pkg) "android") eqn:Ep.
  - destruct (GeneratePackagesMain.androidArchs pkg) as [archs|] eqn:Ea.
    + rewrite (Harchs archs eq_refl eq_refl).
      exact (archs_agree env skia tag Hrepo Htag archs w1 w' H).
    + destruct (Hsingle (or_intror eq_refl)) as [-> _].
      exact (Hone (or_intror eq_refl) H).
  - exact (Hone (or_introl eq_refl) H).
Qed.

(* ================================================================== *)
(** * Checksums of directories *)

Lemma append_empty_r (s : string) : (s ++ "")%string = s.
Proof. induction s as [|c s IH]; simpl; [reflexivity | rewrite IH; reflexivity]. Qed.

Section Checksums.

Import VerifyChecksums.

Variable sha256 : string -> string.
Variable env : Env.

Lemma collectFiles_Dir dir es :
  collectFiles env dir (Dir es) = flat_map (collectEntry env dir) es.
Proof.
  simpl. induction es as [|[name entry] es IH]; [reflexivity|].
  rewrite IH. unfold collectEntry at 2. simpl. destruct entry; reflexivity.
Qed.

Lemma collectFiles_prune :
  forall n dir, collectFiles env dir (prune n) = collectFiles env dir n.
Proof.
  induction n as [data|k|es IH] using node_induction; intros dir; try reflexivity.
  rewrite prune_Dir, !collectFiles_Dir. unfold prune_entries.
  induction es as [|[name entry] es IHes]; [reflexivity|].
  inversion IH as [|? ? He Hes]; subst.
  change (flat_map (collectEntry env dir)
            ((if isSpecial entry then [] else [(name, prune entry)])
             ++ flat_map (fun e => if isSpecial (snd e) then []
                                   else [(fst e, prune (snd e))]) es)
          = collectEntry env dir (name, entry) ++ flat_map (collectEntry env dir) es).
  rewrite flat_map_app, (IHes Hes). f_equal.
  destruct entry as [data|sub|k].
  - reflexivity.
  - change (isSpecial (Dir sub)) with false. cbv iota.
    change (flat_map (collectEntry env dir) [(name, prune (Dir sub))])
      with (collectEntry env dir (name, prune (Dir sub)) ++ []).
    rewrite app_nil_r. specialize (He (child env dir name)).
    change (snd (name, Dir sub)) with (Dir sub) in He.
    rewrite prune_Dir in *. exact He.
  - destruct k; reflexivity.
Qed.

Lemma calculate_prune n :
  calculateDirectoryChecksum sha256 env (Some (prune n))
  = calculateDirectoryChecksum sha256 env (Some n).
Proof.
  destruct n as [data|es|k]; try reflexivity.
  unfold calculateDirectoryChecksum.
  destruct (prune (Dir es)) as [x|es'|x] eqn:E;
    try (rewrite prune_Dir in E; discriminate E).
  rewrite <- E, collectFiles_prune. reflexivity.
Qed.

End Checksums.

(** X21.  What [calculateDirectoryChecksum] of verify-checksums.ts does
    not see, whatever the hash function.  Paths and contents are fed to
    the hash one after the other without separation, so two directories
    holding one file each have the same checksum as soon as name
    followed by content is the same text; special files at any depth,
    and an empty directory, leave the checksum as it is. *)
Theorem checksum_blind_spots :
  (forall sha256 env name1 content1 name2 content2,
     (name1 ++ content1)%string = (name2 ++ content2)%string ->
     VerifyChecksums.calculateDirectoryChecksum sha256 env
       (Some (Dir [(name1, File content1)]))
     = VerifyChecksums.calculateDirectoryChecksum sha256 env
         (Some (Dir [(name2, File content2)]))) /\
  (forall sha256 env n,
     VerifyChecksums.calculateDirectoryChecksum sha256 env (Some (prune n))
     = VerifyChecksums.calculateDirectoryChecksum sha256 env (Some n)) /\
  (forall sha256 env es name,
     VerifyChecksums.calculateDirectoryChecksum sha256 env
       (Some (Dir (es ++ [(name, Dir [])])))
     = VerifyChecksums.calculateDirectoryChecksum sha256 env (Some (Dir es))).
Proof.
  split; [|split].
  - intros sha256 env name1 content1 name2 content2 H.
    unfold VerifyChecksums.calculateDirectoryChecksum. simpl.
    rewrite !append_empty_r. rewrite H. reflexivity.
  - intros sha256 env n. apply calculate_prune.
  - intros sha256 env es name.
    unfold VerifyChecksums.calculateDirectoryChecksum.
    rewrite !collectFiles_Dir, flat_map_app. simpl.
    rewrite app_nil_r. reflexivity.
Qed.

(** ** The order of the directory listing *)

Lemma ascii_compare_refl c : (c ?= c)%char = Eq.
Proof. unfold Ascii.compare. apply N.compare_refl. Qed.

Lemma ascii_compare_lt_trans a b c :
  (a ?= b)%char = Lt -> (b ?= c)%char = Lt -> (a ?= c)%char = Lt.
Proof.
  unfold Ascii.compare. rewrite !N.compare_lt_iff. apply N.lt_trans.
Qed.

Lemma string_leb_trans :
  forall a b c : string,
    String.leb a b = true -> String.leb b c = true -> String.leb a c = true.
Proof.
  unfold String.leb.
  induction a as [|x a IH]; intros [|y b] [|z c]; simpl; try easy.
  destruct (x ?= y)%char eqn:Exy; destruct (y ?= z)%char eqn:Eyz; try easy.
  - apply Ascii.compare_eq_iff in Exy, Eyz. subst y z.
    rewrite ascii_compare_refl. apply IH.
  - apply Ascii.compare_eq_iff in Exy. subst y. rewrite Eyz. easy.
  - apply Ascii.compare_eq_iff in Eyz. subst z. rewrite Exy. easy.
  - rewrite (ascii_compare_lt_trans _ _ _ Exy Eyz). easy.
Qed.

Section Sorting.

Import VerifyChecksums.

(** The order [files.sort()] sorts by. *)
Local Abbreviation before := (fun x y : string * string => String.leb (fst x) (fst y) = true).

Lemma insert_perm x : forall l, Permutation (insert x l) (x :: l).
Proof.
  induction l as [|y l IH]; simpl; [reflexivity|].
  destruct (String.leb (fst x) (fst y)); [reflexivity|].
  rewrite IH. apply perm_swap.
Qed.

Lemma sort_perm : forall l, Permutation (sort l) l.
Proof.
  induction l as [|x l IH]; simpl; [reflexivity|].
  rewrite insert_perm. constructor. exact IH.
Qed.

Lemma insert_sorted x :
  forall l, StronglySorted before l -> StronglySorted before (insert x l).
Proof.
  induction l as [|y l IH]; intros H; simpl.
  - constructor; constructor.
  - inversion H as [|? ? Hl Hy]; subst.
    destruct (String.leb (fst x) (fst y)) eqn:E.
    + constructor; [exact H|]. constructor; [exact E|].
      rewrite Forall_forall in *. intros z Hz.
      exact (string_leb_trans _ _ _ E (Hy z Hz)).
    + constructor; [exact (IH Hl)|].
      rewrite Forall_forall in *. intros z Hz.
      apply (Permutation_in _ (insert_perm x l)) in Hz. destruct Hz as [<-|Hz].
      * destruct (String.leb_total (fst x) (fst y)) as [T|T]; [congruence | exact T].
      * exact (Hy z Hz).
Qed.

Lemma sort_sorted : forall l, StronglySorted before (sort l).
Proof.
  induction l as [|x l IH]; simpl; [constructor | apply insert_sorted; exact IH].
Qed.

Lemma same_key_same_file (l : list (string * string)) a b :
  NoDup (map fst l) -> In a l -> In b l -> fst a = fst b -> a = b.
Proof.
  induction l as [|x l IH]; intros Hnd Ha Hb E; [destruct Ha|].
  simpl in Hnd. inversion Hnd as [|? ? Hx Hl]; subst.
  destruct Ha as [<-|Ha], Hb as [<-|Hb].
  - reflexivity.
  - exfalso. apply Hx. rewrite E. apply in_map. exact Hb.
  - exfalso. apply Hx. rewrite <- E. apply in_map. exact Ha.
  - exact (IH Hl Ha Hb E).
Qed.

Lemma sorted_unique :
  forall l1 l2,
    StronglySorted before l1 -> StronglySorted before l2 ->
    Permutation l1 l2 -> NoDup (map fst l1) -> l1 = l2.
Proof.
  induction l1 as [|x r1 IH]; intros l2 S1 S2 P Hnd.
  - apply Permutation_nil in P. congruence.
  - destruct l2 as [|y r2]; [apply Permutation_sym, Permutation_nil in P; discriminate P|].
    inversion S1 as [|? ? S1' F1]; subst. inversion S2 as [|? ? S2' F2]; subst.
    rewrite Forall_forall in F1, F2.
    assert (Hy : In y (x :: r1)).
    { apply (Permutation_in _ (Permutation_sym P)). left. reflexivity. }
    assert (Hx : In x (y :: r2)).
    { apply (Permutation_in _ P). left. reflexivity. }
    assert (E : x = y).
    { destruct Hy as [Hy|Hy]; [exact Hy|]. destruct Hx as [Hx|Hx]; [congruence|].
      apply (same_key_same_file (x :: r1)); [exact Hnd | left; reflexivity
                                             | right; exact Hy |].
      apply String.leb_antisym; [exact (F1 y Hy) | exact (F2 x Hx)]. }
    subst y. f_equal.
    apply IH; [exact S1' | exact S2' | exact (Permutation_cons_inv P) |].
    simpl in Hnd. inversion Hnd; assumption.
Qed.

Lemma sort_of_permutation l1 l2 :
  Permutation l1 l2 -> NoDup (map fst l1) -> sort l1 = sort l2.
Proof.
  intros P Hnd. apply sorted_unique; try apply sort_sorted.
  - rewrite sort_perm, P. symmetry. apply sort_perm.
  - apply (Permutation_NoDup (l := map fst l1)); [|exact Hnd].
    apply Permutation_map. symmetry. apply sort_perm.
Qed.

End Sorting.

(** X22.  The checksum of a directory does not depend on the order in
    which [fs.readdirSync] lists its entries: listing [es] in another
    order gives the same checksum.  The paths of the files collected
    are distinct, as the paths of a directory tree are. *)
Theorem checksum_order_independent sha256 env es es' :
  Permutation es es' ->
  NoDup (map fst (VerifyChecksums.collectFiles env EmptyString (Dir es))) ->
  VerifyChecksums.calculateDirectoryChecksum sha256 env (Some (Dir es'))
  = VerifyChecksums.calculateDirectoryChecksum sha256 env (Some (Dir es)).
Proof.
  intros P Hnd. unfold VerifyChecksums.calculateDirectoryChecksum.
  rewrite collectFiles_Dir in Hnd. rewrite !collectFiles_Dir.
  rewrite (sort_of_permutation
             (flat_map (VerifyChecksums.collectEntry env EmptyString) es)
             (flat_map (VerifyChecksums.collectEntry env EmptyString) es')).
  - reflexivity.
  - apply Permutation_flat_map. exact P.
  - exact Hnd.
Qed.

(** ** The verdict of verify-checksums.ts *)

Section Verdict.

Import VerifyChecksums.

Variable sha256 : string -> string.
Variables (host : Host) (cwd : path) (env : Env) (d : option node).
Variables (libsDir : OutputDir) (expectedChecksums : list (string * string)).

Local Abbreviation good :=
  (fun result : ChecksumResult => exists_ result && matches result = true).

Lemma verifyOne_verified group name key :
  (exists result,
     verifyOne sha256 host cwd env d libsDir expectedChecksums group name key
     = Ok result /\ good result) <->
  verified sha256 host cwd env d libsDir expectedChecksums (group, name, key).
Proof.
  unfold verifyOne, verified. simpl. split.
  - intros [result [H G]].
    destruct (join3 host cwd libsDir group name) as [dir|e|]; try discriminate H.
    destruct (calculateDirectoryChecksum sha256 env (lookup_path dir d))
      as [[actual|]|e|] eqn:Ec; try discriminate H.
    + inversion H; subst result. simpl in G.
      destruct (lookupChecksum key expectedChecksums) as [e|] eqn:El;
        [|discriminate G].
      simpl in G. apply String.eqb_eq in G. subst e.
      exists dir, actual. auto.
    + inversion H; subst result. discriminate G.
  - intros [dir [c [-> [-> ->]]]]. eexists. split; [reflexivity|].
    simpl. apply String.eqb_refl.
Qed.

Lemma verifyEach_all (one : string -> outcome ChecksumResult) :
  forall keys,
    (exists results, verifyEach keys one = Ok results /\ allMatch results = true) <->
    Forall (fun name => exists result, one name = Ok result /\ good result) keys.
Proof.
  induction keys as [|name keys IH]; simpl.
  - split; [constructor | eauto].
  - split.
    + intros [results [H G]].
      destruct (one name) as [result|e|] eqn:E; try discriminate H.
      destruct (verifyEach keys one) as [rest|e|]; try discriminate H.
      inversion H; subst results. simpl in G. apply andb_prop in G as [G1 G2].
      constructor; [eauto|]. apply IH. eauto.
    + intros H. inversion H as [|? ? [result [E G]] Hrest]; subst.
      apply IH in Hrest as [rest [Er Gr]].
      rewrite E, Er. eexists. split; [reflexivity|].
      simpl. rewrite G, Gr. reflexivity.
Qed.

Lemma verifyChecksums_all graphite :
  (exists results,
     verifyChecksums sha256 host cwd env d libsDir expectedChecksums graphite
     = Ok results /\ allMatch results = true) <->
  Forall (verified sha256 host cwd env d libsDir expectedChecksums) (targets graphite).
Proof.
  unfold verifyChecksums, targets.
  rewrite Forall_app, !Forall_map.
  assert (HA : Forall (fun arch =>
                 verified sha256 host cwd env d libsDir expectedChecksums
                   ("android"%string, arch, ("android-" ++ arch)%string)) androidArchs
               <-> exists results,
                     verifyEach androidArchs (fun arch =>
                       verifyOne sha256 host cwd env d libsDir expectedChecksums
                         "android" arch ("android-" ++ arch)) = Ok results /\
                     allMatch results = true).
  { rewrite verifyEach_all.
    split; apply Forall_impl; intros a; apply verifyOne_verified. }
  assert (HB : Forall (fun platform =>
                 verified sha256 host cwd env d libsDir expectedChecksums
                   ("apple"%string, platform,
                    ("apple-" ++ platform ++ "-xcframeworks")%string))
                 (applePlatforms graphite)
               <-> exists results,
                     verifyEach (applePlatforms graphite) (fun platform =>
                       verifyOne sha256 host cwd env d libsDir expectedChecksums
                         "apple" platform ("apple-" ++ platform ++ "-xcframeworks"))
                     = Ok results /\
                     allMatch results = true).
  { rewrite verifyEach_all.
    split; apply Forall_impl; intros a; apply verifyOne_verified. }
  rewrite HA, HB. clear HA HB.
  split.
  - intros [results [H G]].
    destruct (verifyEach androidArchs _) as [android|e|]; try discriminate H.
    destruct (verifyEach (applePlatforms graphite) _) as [apple|e|]; try discriminate H.
    inversion H; subst results. unfold allMatch in G.
    rewrite forallb_app in G. apply andb_prop in G as [G1 G2].
    split; eexists; (split; [reflexivity | assumption]).
  - intros [[android [-> G1]] [apple [-> G2]]].
    eexists. split; [reflexivity|]. unfold allMatch in *.
    rewrite forallb_app, G1, G2. reflexivity.
Qed.

End Verdict.

(** X23.  [main] of verify-checksums.ts changes nothing, and ends with
    exit status 0 exactly when the configuration file named by
    [--config] can be read and parsed, holds the section of the backend
    asked for, and every directory the script looks at (the four
    Android architectures, then the Apple platforms of the backend)
    exists with a checksum that is the one the section records under
    its key.  A directory without recorded checksum fails it; recorded
    checksums of other keys are not looked at. *)
Theorem verify_main_verdict sha256 parse host cwd env argv w :
  (forall r w',
     VerifyChecksums.main sha256 parse host cwd env argv w = (r, w') -> w' = w) /\
  (VerifyChecksums.main sha256 parse host cwd env argv w = (Ok 0%Z, w) <->
   exists s text config skiaConfig,
     given (get "config" (parseArgs argv)) = Some (ArgString s) /\
     readFileSync env (lookup_path (resolve host s) (disk w)) = Ok text /\
     parse text = Ok config /\
     (if isTrue (get "graphite" (parseArgs argv))
      then GeneratePackagesMain.config_skia_graphite config
      else GeneratePackagesMain.config_skia config) = Some skiaConfig /\
     Forall
       (VerifyChecksums.verified sha256 host cwd env (disk w)
          (VerifyChecksums.libsDirOf (parseArgs argv))
          (GeneratePackagesMain.checksums skiaConfig))
       (VerifyChecksums.targets (isTrue (get "graphite" (parseArgs argv))))).
Proof.
  unfold VerifyChecksums.main.
  change (match given (get "libs-dir" (parseArgs argv)) with
          | Some v => FromArgs v
          | None => Default "libs"
          end) with (VerifyChecksums.libsDirOf (parseArgs argv)).
  set (graphite := isTrue (get "graphite" (parseArgs argv))).
  set (libsDir := VerifyChecksums.libsDirOf (parseArgs argv)).
  assert (Hstop : forall z : Z,
            z <> 0%Z ->
            forall m : M World Z,
              m w = (Ok z, w) \/ (exists e, m w = (Throw e, w)) \/ m w = (Hang, w) ->
              (forall r w', m w = (r, w') -> w' = w) /\ m w <> (Ok 0%Z, w)).
  { intros z Hz m [E|[[e E]|E]]; rewrite E; split;
      try (intros r w' H; inversion H; reflexivity);
      intros H; inversion H; congruence. }
  assert (Hdead : forall m : M World Z,
            ((forall r w', m w = (r, w') -> w' = w) /\ m w <> (Ok 0%Z, w)) ->
            forall Q : Prop, ~ Q ->
              (forall r w', m w = (r, w') -> w' = w) /\ (m w = (Ok 0%Z, w) <-> Q)).
  { intros m [H1 H2] Q HQ. split; [exact H1|]. split; [intros H; contradiction|].
    intros q. contradiction. }
  destruct (given (get "config" (parseArgs argv))) as [[s|]|] eqn:Ec.
  2: { apply Hdead.
       - apply (Hstop 1%Z); [discriminate|]. right; left. eexists. reflexivity.
       - intros [s [t [c [sc [E _]]]]]. discriminate E. }
  2: { apply Hdead.
       - apply (Hstop 1%Z); [discriminate|]. left. reflexivity.
       - intros [s [t [c [sc [E _]]]]]. discriminate E. }
  unfold bind, lift, gets, existsSync, ret. cbv beta iota.
  destruct (lookup_path (resolve host s) (disk w)) as [n|] eqn:En;
    cbv beta iota delta [negb].
  2: { apply Hdead.
       - apply (Hstop 1%Z); [discriminate|]. left. reflexivity.
       - intros [s0 [t [c [sc [E [R _]]]]]]. inversion E; subst s0.
         rewrite En in R. discriminate R. }
  rewrite En.
  destruct (readFileSync env (Some n)) as [text|e|] eqn:Er; cbv beta iota.
  2: { apply Hdead.
       - apply (Hstop 1%Z); [discriminate|]. right; left. eexists. reflexivity.
       - intros [s0 [t [c [sc [E [R _]]]]]]. inversion E; subst s0.
         rewrite En in R. congruence. }
  2: { apply Hdead.
       - apply (Hstop 1%Z); [discriminate|]. right; right. reflexivity.
       - intros [s0 [t [c [sc [E [R _]]]]]]. inversion E; subst s0.
         rewrite En in R. congruence. }
  destruct (parse text) as [config|e|] eqn:Ep; cbv beta iota.
  2: { apply Hdead.
       - apply (Hstop 1%Z); [discriminate|]. right; left. eexists. reflexivity.
       - intros [s0 [t [c [sc [E [R [P _]]]]]]]. inversion E; subst s0.
         rewrite En in R. congruence. }
  2: { apply Hdead.
       - apply (Hstop 1%Z); [discriminate|]. right; right. reflexivity.
       - intros [s0 [t [c [sc [E [R [P _]]]]]]]. inversion E; subst s0.
         rewrite En in R. congruence. }
  destruct (if graphite
            then GeneratePackagesMain.config_skia_graphite config
            else GeneratePackagesMain.config_skia config) as [skiaConfig|] eqn:Es;
    cbv beta iota.
  2: { apply Hdead.
       - apply (Hstop 1%Z); [discriminate|]. left. reflexivity.
       - intros [s0 [t [c [sc [E [R [P [S _]]]]]]]]. inversion E; subst s0.
         rewrite En in R. assert (t = text) by congruence. subst t.
         assert (c = config) by congruence. subst c.
         rewrite Es in S. discriminate S. }
  pose proof (verifyChecksums_all sha256 host cwd env (disk w) libsDir
                (GeneratePackagesMain.checksums skiaConfig) graphite) as Hall.
  assert (Hsame : forall s0 t c sc,
            Some (ArgString s) = Some (ArgString s0) ->
            readFileSync env (lookup_path (resolve host s0) (disk w)) = Ok t ->
            parse t = Ok c ->
            (if graphite
             then GeneratePackagesMain.config_skia_graphite c
             else GeneratePackagesMain.config_skia c) = Some sc ->
            sc = skiaConfig).
  { intros s0 t c sc E R P S. inversion E; subst s0. rewrite En in R.
    assert (t = text) by congruence. subst t.
    assert (c = config) by congruence. subst c.
    rewrite Es in S. inversion S. reflexivity. }
  destruct (VerifyChecksums.verifyChecksums sha256 host cwd env (disk w) libsDir
              (GeneratePackagesMain.checksums skiaConfig) graphite)
    as [results|e|] eqn:Ev; cbv beta iota.
  - destruct (VerifyChecksums.allMatch results) eqn:Ea.
    + split.
      * intros r w' H. inversion H; reflexivity.
      * split; [|reflexivity]. intros _.
        exists s, text, config, skiaConfig. repeat split; auto.
        -- rewrite En. exact Er.
        -- apply Hall. eauto.
    + apply Hdead.
      * apply (Hstop 1%Z); [discriminate|]. left. reflexivity.
      * intros [s0 [t [c [sc [E [R [P [S F]]]]]]]].
        rewrite (Hsame _ _ _ _ E R P S) in F.
        apply Hall in F as [rs [E1 E2]]. inversion E1; subst rs. congruence.
  - apply Hdead.
    + apply (Hstop 1%Z); [discriminate|]. right; left. eexists. reflexivity.
    + intros [s0 [t [c [sc [E [R [P [S F]]]]]]]].
      rewrite (Hsame _ _ _ _ E R P S) in F.
      apply Hall in F as [rs [E1 E2]]. discriminate E1.
  - apply Hdead.
    + apply (Hstop 1%Z); [discriminate|]. right; right. reflexivity.
    + intros [s0 [t [c [sc [E [R [P [S F]]]]]]]].
      rewrite (Hsame _ _ _ _ E R P S) in F.
      apply Hall in F as [rs [E1 E2]]. discriminate E1.
Qed.

(* ================================================================== *)
(** * Installer packages *)

Lemma lookup_path_app :
  forall p q d, lookup_path (p ++ q) d = lookup_path q (lookup_path p d).
Proof.
  induction p as [|x p IH]; intros q d; simpl; [reflexivity|].
  destruct d as [[data|es|k]|]; try (rewrite lookup_path_None; reflexivity).
  apply IH.
Qed.

Lemma mkdir_p_child p x d d' :
  mkdir_p p d = (Ok tt, d') ->
  lookup_path (p ++ [x]) d' = lookup_path (p ++ [x]) d.
Proof.
  intros H. pose proof (monotone_mkdir_p p _ _ _ H p) as Hp.
  apply mkdir_p_spec in H as [es [Hl [Hnew Hold]]].
  rewrite !lookup_path_app, Hl. rewrite Hl in Hp.
  destruct (lookup_path p d) as [[data|es0|k]|].
  - destruct Hp as [x0 Hp]. discriminate Hp.
  - rewrite (Hold es0 eq_refl). reflexivity.
  - discriminate Hp.
  - rewrite (Hnew eq_refl). reflexivity.
Qed.

Lemma mkdir_p_sibling a b :
  b <> a ->
  forall p d r d',
    mkdir_p (p ++ [a]) d = (r, d') ->
    lookup_path (p ++ [b]) d' = lookup_path (p ++ [b]) d.
Proof.
  intros Hne. induction p as [|x p IH]; intros d r d' H.
  - refine (keeps_entry_bind b mkdirSync (fun _ => at_child a (mkdir_p []))
              (keeps_entry_mkdirSync b) _ _ _ _ H).
    intros _. apply keeps_entry_at_child. exact Hne.
  - simpl app in *. simpl mkdir_p in H. unfold bind, mkdirSync in H.
    destruct d as [[y|es0|k]|]; cbv beta iota in H.
    + inversion H; reflexivity.
    + unfold at_child in H.
      destruct (mkdir_p (p ++ [a]) (lookup x es0)) as [r0 c] eqn:E.
      inversion H; subst. simpl. rewrite lookup_set_child. exact (IH _ _ _ E).
    + inversion H; reflexivity.
    + unfold at_child in H. simpl lookup in H.
      destruct (mkdir_p (p ++ [a]) None) as [r0 c] eqn:E.
      inversion H; subst. simpl. rewrite lookup_set_child, (IH _ _ _ E).
      apply lookup_path_None.
Qed.

Lemma isInstalled_empty_libs skia root :
  lookup_path Postinstall.libsDir root = Some (Dir []) ->
  Postinstall.isInstalled skia root = Ok false.
Proof.
  intros H. unfold Postinstall.isInstalled, existsSync. rewrite H. reflexivity.
Qed.

(** X20.  A package that the installer generator has just generated is
    not yet installed in the eyes of its own postinstall script.  When
    [generatePackage] returns, and [libs] was absent or empty in the
    package directory before, the manifest is written and
    [isInstalled], read with the metadata of that manifest in the
    package directory, answers false: the postinstall goes on to the
    download. *)
Theorem fresh_installer_not_installed
    stringify host env pkg outputDir skiaVersion npmVersion graphite w pkgDir w' :
  GenerateInstallers.generatePackage stringify host env pkg outputDir skiaVersion
    npmVersion graphite w = (Ok pkgDir, w') ->
  lookup_path (pkgDir ++ ["libs"%string]) (disk w) = None \/
  lookup_path (pkgDir ++ ["libs"%string]) (disk w) = Some (Dir []) ->
  written
    (stringify (GenerateInstallers.generatePackageJson pkg skiaVersion npmVersion graphite)
     ++ nl)%string
    (lookup_path (pkgDir ++ ["package.json"%string]) (disk w')) /\
  Postinstall.isInstalled
    (GenerateInstallers.readBack
       (GenerateInstallers.skiaMetadata pkg skiaVersion graphite))
    (lookup_path pkgDir (disk w')) = Ok false.
Proof.
  intros H Hlibs. unfold GenerateInstallers.generatePackage in H.
  apply bind_ok_inv in H as [dir [w0 [Hj H]]].
  unfold lift in Hj. inversion Hj as [[Hdir Hw0]]. subst w0. clear Hj.
  apply bind_ok_inv in H as [[] [w1 [H1 H]]].
  apply bind_ok_inv in H as [[] [w2 [H2 H]]].
  apply bind_ok_inv in H as [[] [w3 [H3 H]]].
  apply bind_ok_inv in H as [[] [w4 [H4 H]]].
  apply bind_ok_inv in H as [[] [w5 [H5 H]]].
  inversion H; subst pkgDir w'. clear H.
  unfold on_disk in H1, H2, H3, H4, H5.
  destruct (mkdir_p dir (disk w)) as [r1 d1] eqn:E1.
  inversion H1; subst r1 w1. clear H1. simpl in *.
  destruct (writeFileSync env (dir ++ ["package.json"%string]) _ d1) as [r2 d2] eqn:E2.
  inversion H2; subst r2 w2. clear H2. simpl in *.
  destruct (writeFileSync env (dir ++ ["README.md"%string]) _ d2) as [r3 d3] eqn:E3.
  inversion H3; subst r3 w3. clear H3. simpl in *.
  destruct (GenerateInstallers.copyFile env _ (dir ++ ["postinstall.mjs"%string]) d3)
    as [r4 d4] eqn:E4.
  inversion H4; subst r4 w4. clear H4. simpl in *.
  destruct (mkdir_p (dir ++ ["libs"%string]) d4) as [r5 d5] eqn:E5.
  inversion H5; subst r5. clear H5. simpl in *.
  assert (C4 : forall x, x <> "postinstall.mjs"%string ->
                 lookup_path (dir ++ [x]) d4 = lookup_path (dir ++ [x]) d3).
  { intros x Hx. unfold GenerateInstallers.copyFile in E4.
    destruct (lookup_path _ d3) as [n|]; [|inversion E4; reflexivity].
    exact (at_path_sibling _ _ _ Hx _ _ _ _ E4). }
  assert (C3 : forall x, x <> "README.md"%string ->
                 lookup_path (dir ++ [x]) d3 = lookup_path (dir ++ [x]) d2).
  { intros x Hx. exact (at_path_sibling _ _ _ Hx _ _ _ _ E3). }
  assert (C2 : forall x, x <> "package.json"%string ->
                 lookup_path (dir ++ [x]) d2 = lookup_path (dir ++ [x]) d1).
  { intros x Hx. exact (at_path_sibling _ _ _ Hx _ _ _ _ E2). }
  split.
  - pose proof (monotone_mkdir_p _ _ _ _ E5 (dir ++ ["package.json"%string])) as P5.
    assert (W : written
                  (stringify (GenerateInstallers.generatePackageJson pkg skiaVersion
                                npmVersion graphite) ++ nl)%string
                  (lookup_path (dir ++ ["package.json"%string]) d4)).
    { rewrite C4, C3 by discriminate. exact (writeFileSync_written _ _ _ _ _ E2). }
    destruct W as [W|[k W]]; rewrite W in P5; simpl in P5.
    + destruct P5 as [data P5].
      assert (Hsame : lookup_path (dir ++ ["package.json"%string]) d5
                      = lookup_path (dir ++ ["package.json"%string]) d4).
      { exact (mkdir_p_sibling "libs"%string "package.json"%string
                 ltac:(discriminate) _ _ _ _ E5). }
      rewrite Hsame, W. left. reflexivity.
    + right. exists k. exact P5.
  - apply isInstalled_empty_libs.
    change Postinstall.libsDir with ["libs"%string].
    rewrite <- lookup_path_app.
    assert (L4 : lookup_path (dir ++ ["libs"%string]) d4 = None \/
                 lookup_path (dir ++ ["libs"%string]) d4 = Some (Dir [])).
    { rewrite C4, C3, C2 by discriminate.
      rewrite (mkdir_p_child _ _ _ _ E1). exact Hlibs. }
    apply mkdir_p_spec in E5 as [es [Hl [Hnew Hold]]].
    rewrite Hl. destruct L4 as [L4|L4].
    + rewrite (Hnew L4). reflexivity.
    + rewrite (Hold _ L4). reflexivity.
Qed.

(* ================================================================== *)
(** * The two copies of the staging function *)

Lemma downloadUrl_agrees archConfig skiaVersion graphite :
  DownloadBinaries.downloadUrl archConfig skiaVersion graphite
  = GeneratePackages.downloadUrl (DownloadBinaries.artifact archConfig)
      (DownloadBinaries.releaseTag skiaVersion graphite).
Proof. reflexivity. Qed.

Lemma bind_cong_ok {S A B} (m : M S A) (k1 k2 : A -> M S B) s a s' :
  m s = (Ok a, s') -> k1 a s' = k2 a s' -> bind m k1 s = bind m k2 s.
Proof. intros Hm Hk. unfold bind. rewrite Hm. exact Hk. Qed.

Lemma bind_cong_fail {S A B} (m : M S A) (k1 k2 : A -> M S B) s r s' :
  m s = (r, s') -> (forall a, r <> Ok a) -> bind m k1 s = bind m k2 s.
Proof.
  intros Hm Hr. unfold bind. rewrite Hm.
  destruct r as [a|e|]; [exfalso; exact (Hr a eq_refl) | reflexivity | reflexivity].
Qed.

Lemma stage_shapes env url t dest sub w :
  DownloadBinaries.stage env url t dest sub w
  = (es <- fetch (GeneratePackages.extractTarGz env) url t ;;
     on_disk (copyItems env dest (Some (locatePayload_exists es (Some sub)))) ;;
     rm_tmp t) w /\
  GeneratePackages.stage env url t dest (Some sub) w
  = (es <- fetch (GeneratePackages.extractTarGz env) url t ;;
     (if (length es =? 0)%nat then throw noContents else ret tt) ;;
     on_disk (copyItems env dest (Some (locatePayload es (Some sub)))) ;;
     rm_tmp t) w.
Proof.
  split.
  - unfold DownloadBinaries.stage.
    exact (fetch_cases (GeneratePackages.extractTarGz env) url t _ w).
  - unfold GeneratePackages.stage.
    exact (fetch_cases (GeneratePackages.extractTarGz env) url t _ w).
Qed.

Lemma staging_agree_on env archConfig skiaVersion outputDir graphite w :
  DownloadBinaries.stage env
    (DownloadBinaries.downloadUrl archConfig skiaVersion graphite) (fresh (tmp w))
    (DownloadBinaries.destDir archConfig outputDir)
    (DownloadBinaries.srcSubdir archConfig) (snd (mkdtempSync w))
  = GeneratePackages.stage env
      (GeneratePackages.downloadUrl (DownloadBinaries.artifact archConfig)
         (DownloadBinaries.releaseTag skiaVersion graphite)) (fresh (tmp w))
      (DownloadBinaries.destDir archConfig outputDir)
      (Some (DownloadBinaries.srcSubdir archConfig)) (snd (mkdtempSync w)) ->
  DownloadBinaries.downloadArtifact env archConfig skiaVersion outputDir graphite w
  = GeneratePackages.downloadAndExtractAsset env (DownloadBinaries.artifact archConfig)
      (DownloadBinaries.releaseTag skiaVersion graphite)
      (DownloadBinaries.destDir archConfig outputDir)
      (Some (DownloadBinaries.srcSubdir archConfig)) w.
Proof.
  intros H.
  unfold DownloadBinaries.downloadArtifact, GeneratePackages.downloadAndExtractAsset.
  unfold bind, try_catch.
  change (mkdtempSync w) with (Ok (fresh (tmp w)), snd (mkdtempSync w)).
  cbv beta iota. rewrite H. reflexivity.
Qed.

(** X24.  [downloadArtifact] of download-binaries.ts and
    [downloadAndExtractAsset] of generate-packages.ts are the same
    function but for two tests.  Called for the same asset, destination
    and subdirectory in the same state, they have the same outcome and
    leave the same state whenever the download or the extraction
    fails, and whenever the extraction yields at least one entry and
    the subdirectory, if the wrapper has an entry of that name, is a
    directory (the two payload discoveries then agree). *)
Theorem staging_functions_agree :
  (forall env archConfig skiaVersion outputDir graphite w es w2,
     fetch (GeneratePackages.extractTarGz env)
       (DownloadBinaries.downloadUrl archConfig skiaVersion graphite)
       (fresh (tmp w)) (snd (mkdtempSync w)) = (Ok es, w2) ->
     es <> [] ->
     locatePayload_exists es (Some (DownloadBinaries.srcSubdir archConfig))
     = locatePayload es (Some (DownloadBinaries.srcSubdir archConfig)) ->
     DownloadBinaries.downloadArtifact env archConfig skiaVersion outputDir graphite w
     = GeneratePackages.downloadAndExtractAsset env
         (DownloadBinaries.artifact archConfig)
         (DownloadBinaries.releaseTag skiaVersion graphite)
         (DownloadBinaries.destDir archConfig outputDir)
         (Some (DownloadBinaries.srcSubdir archConfig)) w) /\
  (forall env archConfig skiaVersion outputDir graphite w r w2,
     fetch (GeneratePackages.extractTarGz env)
       (DownloadBinaries.downloadUrl archConfig skiaVersion graphite)
       (fresh (tmp w)) (snd (mkdtempSync w)) = (r, w2) ->
     (forall es, r <> Ok es) ->
     DownloadBinaries.downloadArtifact env archConfig skiaVersion outputDir graphite w
     = GeneratePackages.downloadAndExtractAsset env
         (DownloadBinaries.artifact archConfig)
         (DownloadBinaries.releaseTag skiaVersion graphite)
         (DownloadBinaries.destDir archConfig outputDir)
         (Some (DownloadBinaries.srcSubdir archConfig)) w).
Proof.
  split.
  - intros env archConfig skiaVersion outputDir graphite w es w2 Hf Hne Hloc.
    apply staging_agree_on. rewrite <- downloadUrl_agrees.
    destruct (stage_shapes env
                (DownloadBinaries.downloadUrl archConfig skiaVersion graphite)
                (fresh (tmp w)) (DownloadBinaries.destDir archConfig outputDir)
                (DownloadBinaries.srcSubdir archConfig) (snd (mkdtempSync w)))
      as [-> ->].
    apply (bind_cong_ok _ _ _ _ _ _ Hf). rewrite Hloc.
    destruct es as [|e es]; [congruence|]. reflexivity.
  - intros env archConfig skiaVersion outputDir graphite w r w2 Hf Hr.
    apply staging_agree_on. rewrite <- downloadUrl_agrees.
    destruct (stage_shapes env
                (DownloadBinaries.downloadUrl archConfig skiaVersion graphite)
                (fresh (tmp w)) (DownloadBinaries.destDir archConfig outputDir)
                (DownloadBinaries.srcSubdir archConfig) (snd (mkdtempSync w)))
      as [-> ->].
    exact (bind_cong_fail _ _ _ _ _ _ Hf Hr).
Qed.

Lemma staging_functions_agree_witness :
  DownloadBinaries.downloadArtifact Examples.env Scenarios.ios "m144" ["libs"%string]
    false Scenarios.released
  = GeneratePackages.downloadAndExtractAsset Examples.env
      (DownloadBinaries.artifact Scenarios.ios)
      (DownloadBinaries.releaseTag "m144" false)
      (DownloadBinaries.destDir Scenarios.ios ["libs"%string])
      (Some (DownloadBinaries.srcSubdir Scenarios.ios)) Scenarios.released.
Proof.
  apply (proj1 staging_functions_agree Examples.env Scenarios.ios "m144"%string
           ["libs"%string] false Scenarios.released Examples.wrapped
           (snd (fetch (GeneratePackages.extractTarGz Examples.env)
                   (DownloadBinaries.downloadUrl Scenarios.ios "m144" false) 1
                   (snd (mkdtempSync Scenarios.released))))).
  - reflexivity.
  - discriminate.
  - reflexivity.
Defined.

(* ================================================================== *)
(** * An installation starts from nothing *)





(* ================================================================== *)
(** * The further properties at concrete inputs *)

Lemma sibling_scratch_deleted_witness :
  tmp (snd (DownloadBinaries.downloadArtifact Examples.env Scenarios.arm64 "m144"
              ["libs"%string] false Scenarios.missing)) = [] /\
  tmp_lookup 1
    (tmp (snd (DownloadBinaries.downloadArtifact Examples.env Scenarios.arm64 "m144"
                 ["libs"%string] false Scenarios.missing))) = None /\
  exists w1,
    DownloadBinaries.stage Examples.env
      (DownloadBinaries.downloadUrl Scenarios.arm64 "m144" false) 1
      (DownloadBinaries.destDir Scenarios.arm64 ["libs"%string])
      (DownloadBinaries.srcSubdir Scenarios.arm64)
      (snd (mkdtempSync Scenarios.missing))
    = (Throw Scenarios.notFound, w1) /\
    disk (snd (DownloadBinaries.downloadArtifact Examples.env Scenarios.arm64 "m144"
                 ["libs"%string] false Scenarios.missing)) = disk w1.
Proof.
  apply (proj1 sibling_scratch_deleted Examples.env Scenarios.arm64 "m144"%string
           ["libs"%string] false Scenarios.missing (Throw Scenarios.notFound)
           (snd (DownloadBinaries.downloadArtifact Examples.env Scenarios.arm64 "m144"
                   ["libs"%string] false Scenarios.missing)));
    reflexivity.
Defined.

Lemma staged_content_provenance_witness :
  exists pre res,
    net (snd (mkdtempSync Scenarios.released))
    = pre ++ Resp res
        :: net (snd (fetch (GeneratePackages.extractTarGz Examples.env) Examples.url 1
                       (snd (mkdtempSync Scenarios.released)))) /\
    delivers res Examples.wrapped.
Proof.
  apply (proj1 staged_content_provenance Examples.env Examples.url 1%nat
           (snd (mkdtempSync Scenarios.released)) Examples.wrapped
           (snd (fetch (GeneratePackages.extractTarGz Examples.env) Examples.url 1
                   (snd (mkdtempSync Scenarios.released)))));
    reflexivity.
Defined.



Lemma copyItems_idempotent_witness :
  copyItems Examples.env ["out"%string] (Some (Dir Examples.frameworks))
    (snd (copyItems Examples.env ["out"%string] (Some (Dir Examples.frameworks)) None))
  = (Ok tt,
     snd (copyItems Examples.env ["out"%string] (Some (Dir Examples.frameworks)) None)).
Proof.
  apply (copyItems_idempotent Examples.env ["out"%string] Examples.frameworks None).
  - simpl. repeat split; repeat constructor; simpl; intuition discriminate.
  - reflexivity.
Defined.

Lemma copyItems_frame_witness :
  exists after,
    lookup_path ["out"%string]
      (snd (copyItems Examples.env ["out"%string] (Some (Dir Examples.frameworks))
              Scenarios.kept)) = Some (Dir after) /\
    forall k, ~ In k (names Examples.frameworks) ->
              lookup k after = lookup k [("keep"%string, File "old")].
Proof.
  apply (copyItems_frame Examples.env ["out"%string] Examples.frameworks Scenarios.kept
           [("keep"%string, File "old")] (Ok tt)
           (snd (copyItems Examples.env ["out"%string] (Some (Dir Examples.frameworks))
                   Scenarios.kept)));
    reflexivity.
Defined.




Lemma deriveNpmVersion_injective_witness : "m144c"%string = "m144c"%string.
Proof.
  apply (deriveNpmVersion_injective "m144c" "m144c" "144.3.0"); reflexivity.
Defined.

Lemma srcSubdir_not_directory_witness :
  (exists w',
     DownloadBinaries.downloadArtifact Examples.env Scenarios.ios "m144"
       ["libs"%string] false (Examples.world [Examples.ok Scenarios.odd_archive])
     = (Throw ENOTDIR, w') /\
     disk w' = Some (Dir [("libs"%string, Dir [])]) /\
     tmp w' = tmp (Examples.world [Examples.ok Scenarios.odd_archive])) /\
  locatePayload [("wrapper"%string, Dir [("ios"%string, File "oops")])]
    (Some (DownloadBinaries.srcSubdir Scenarios.ios))
  = Dir [("ios"%string, File "oops")].
Proof.
  apply (srcSubdir_not_directory Examples.env Scenarios.ios "m144"%string
           ["libs"%string] false (Examples.world [Examples.ok Scenarios.odd_archive])
           "wrapper"%string [("ios"%string, File "oops")] (File "oops")
           (snd (fetch (DownloadBinaries.extractTarGz Examples.env)
                   (DownloadBinaries.downloadUrl Scenarios.ios "m144" false) 1
                   (snd (mkdtempSync
                           (Examples.world [Examples.ok Scenarios.odd_archive])))))
           (Some (Dir [("libs"%string, Dir [])])));
    try reflexivity.
  discriminate.
Defined.

Lemma staging_only_adds_witness :
  persists
    (lookup_path ["out"%string; "keep"%string]
       (disk (mkWorld [Examples.ok Examples.wrapped] 0 [] [] Scenarios.kept)))
    (lookup_path ["out"%string; "keep"%string]
       (disk (snd (GeneratePackages.downloadAndExtractAsset Examples.env
                     "skia-apple-ios" "skia-m144" ["out"%string] (Some "ios"%string)
                     (mkWorld [Examples.ok Examples.wrapped] 0 [] [] Scenarios.kept))))).
Proof.
  apply (proj1 staging_only_adds Examples.env "skia-apple-ios"%string
           "skia-m144"%string ["out"%string] (Some "ios"%string)
           (mkWorld [Examples.ok Examples.wrapped] 0 [] [] Scenarios.kept) (Ok tt)
           (snd (GeneratePackages.downloadAndExtractAsset Examples.env
                   "skia-apple-ios" "skia-m144" ["out"%string] (Some "ios"%string)
                   (mkWorld [Examples.ok Examples.wrapped] 0 [] [] Scenarios.kept)))
           ["out"%string; "keep"%string]).
  reflexivity.
Defined.

Lemma parseArgs_last_option_witness :
  get "output-dir" (parseArgs (["--graphite=true"%string] ++ ["--output-dir"%string]))
  = Some ArgTrue /\
  get "output-dir"
    (parseArgs (["--graphite=true"%string] ++ ["--output-dir=out"%string]))
  = Some (ArgString "out") /\
  get "output-dir"
    (parseArgs (["--graphite=true"%string] ++ ["--output-dir=out=x"%string]))
  = Some (ArgString "out") /\
  (forall arg, prefix "--" arg = false ->
     parseArgs (["--graphite=true"%string] ++ [arg])
     = parseArgs ["--graphite=true"%string]).
Proof.
  apply (parseArgs_last_option ["--graphite=true"%string] "output-dir" "out" "x").
  - reflexivity.
  - reflexivity.
  - discriminate.
Defined.

Lemma download_main_usage_errors_witness :
  DownloadBinariesMain.main Scenarios.host Examples.env
    ["--skia-version=m144"%string; "--platform=constructor"%string] Scenarios.released
  = (Ok 1%Z, Scenarios.released).
Proof.
  apply (proj2 download_main_usage_errors Scenarios.host Examples.env
           ["--skia-version=m144"%string; "--platform=constructor"%string]
           Scenarios.released (ArgString "constructor")).
  - reflexivity.
  - reflexivity.
  - discriminate.
Defined.


Lemma generatePackage_layout_witness :
  join Scenarios.host (Default "dist")
    (GeneratePackagesMain.getPackageName Scenarios.apple_ios false)
  = Ok ["repo"%string; "dist"%string; "react-native-skia-apple-ios"%string] /\
  written
    (GeneratePackagesMain.stringify Scenarios.json
       (GeneratePackagesMain.generatePackageJson Scenarios.apple_ios "m144" "144.0.0"
          false) ++ nl)%string
    (lookup_path
       (["repo"%string; "dist"%string; "react-native-skia-apple-ios"%string]
        ++ ["package.json"%string])
       (disk (snd (GeneratePackagesMain.generatePackage Scenarios.json Scenarios.host
                     Examples.env Scenarios.apple_ios (Default "dist") "m144" "144.0.0"
                     false Scenarios.released)))) /\
  written
    (GeneratePackagesMain.generateReadme Scenarios.apple_ios "m144" "144.0.0" false)
    (lookup_path
       (["repo"%string; "dist"%string; "react-native-skia-apple-ios"%string]
        ++ ["README.md"%string])
       (disk (snd (GeneratePackagesMain.generatePackage Scenarios.json Scenarios.host
                     Examples.env Scenarios.apple_ios (Default "dist") "m144" "144.0.0"
                     false Scenarios.released)))) /\
  is_dir
    (lookup_path
       (["repo"%string; "dist"%string; "react-native-skia-apple-ios"%string]
        ++ ["libs"%string])
       (disk (snd (GeneratePackagesMain.generatePackage Scenarios.json Scenarios.host
                     Examples.env Scenarios.apple_ios (Default "dist") "m144" "144.0.0"
                     false Scenarios.released)))) /\
  tmp (snd (GeneratePackagesMain.generatePackage Scenarios.json Scenarios.host
              Examples.env Scenarios.apple_ios (Default "dist") "m144" "144.0.0"
              false Scenarios.released))
  = tmp Scenarios.released.
Proof.
  apply (generatePackage_layout Scenarios.json Scenarios.host Examples.env
           Scenarios.apple_ios (Default "dist") "m144"%string "144.0.0"%string false
           Scenarios.released
           ["repo"%string; "dist"%string; "react-native-skia-apple-ios"%string]
           (snd (GeneratePackagesMain.generatePackage Scenarios.json Scenarios.host
                   Examples.env Scenarios.apple_ios (Default "dist") "m144" "144.0.0"
                   false Scenarios.released))).
  reflexivity.
Defined.


Lemma generate_main_usage_errors_witness :
  GeneratePackagesMain.main Scenarios.json Scenarios.host Examples.env
    ["--skia-version=144"%string] Scenarios.released
  = (Ok 1%Z, Scenarios.released).
Proof.
  apply (proj1 (proj2 generate_main_usage_errors) Scenarios.json Scenarios.host
           Examples.env ["--skia-version=144"%string] Scenarios.released
           (ArgString "144") (invalidVersion "144")); reflexivity.
Defined.

Lemma installer_agrees_with_bundler_witness :
  Postinstall.install Examples.env
    (GenerateInstallers.readBack
       (GenerateInstallers.skiaMetadata Scenarios.apple_ios "m144" false))
    (Scenarios.unpacked [Examples.ok Examples.wrapped])
  = (Ok tt,
     snd ((on_disk (mkdir_p Postinstall.libsDir) ;;
           GeneratePackagesMain.downloadBinaries Examples.env Scenarios.apple_ios
             (GeneratePackagesMain.prefix_of false ++ "-" ++ "m144")%string
             Postinstall.libsDir)%monad
            (Scenarios.unpacked [Examples.ok Examples.wrapped]))).
Proof.
  apply (installer_agrees_with_bundler Examples.env Scenarios.apple_ios "m144"%string
           false (Scenarios.unpacked [Examples.ok Examples.wrapped])); reflexivity.
Defined.

Lemma fresh_installer_not_installed_witness :
  written
    (GeneratePackagesMain.json_name
       (GeneratePackagesMain.generatePackageJson Scenarios.apple_ios "m144" "144.0.0"
          false) ++ nl)%string
    (lookup_path
       (["repo"%string; "dist"%string; "ganesh"%string; "apple-ios"%string]
        ++ ["package.json"%string])
       (disk (snd (GenerateInstallers.generatePackage
                     (fun manifest => GenerateInstallers.json_name manifest)
                     Scenarios.host Examples.env Scenarios.apple_ios (Default "dist")
                     "m144" "144.0.0" false (Scenarios.generating []))))) /\
  Postinstall.isInstalled
    (GenerateInstallers.readBack
       (GenerateInstallers.skiaMetadata Scenarios.apple_ios "m144" false))
    (lookup_path ["repo"%string; "dist"%string; "ganesh"%string; "apple-ios"%string]
       (disk (snd (GenerateInstallers.generatePackage
                     (fun manifest => GenerateInstallers.json_name manifest)
                     Scenarios.host Examples.env Scenarios.apple_ios (Default "dist")
                     "m144" "144.0.0" false (Scenarios.generating [])))))
  = Ok false.
Proof.
  apply (fresh_installer_not_installed
           (fun manifest => GenerateInstallers.json_name manifest)
           Scenarios.host Examples.env Scenarios.apple_ios (Default "dist")
           "m144"%string "144.0.0"%string false (Scenarios.generating [])
           ["repo"%string; "dist"%string; "ganesh"%string; "apple-ios"%string]
           (snd (GenerateInstallers.generatePackage
                   (fun manifest => GenerateInstallers.json_name manifest)
                   Scenarios.host Examples.env Scenarios.apple_ios (Default "dist")
                   "m144" "144.0.0" false (Scenarios.generating [])))).
  - reflexivity.
  - left. reflexivity.
Defined.

Lemma checksum_blind_spots_witness :
  VerifyChecksums.calculateDirectoryChecksum (fun fed => fed) Examples.env
    (Some (Dir [("ab"%string, File "c")]))
  = VerifyChecksums.calculateDirectoryChecksum (fun fed => fed) Examples.env
      (Some (Dir [("a"%string, File "bc")])).
Proof.
  apply (proj1 checksum_blind_spots (fun fed => fed) Examples.env
           "ab"%string "c"%string "a"%string "bc"%string).
  reflexivity.
Defined.

Lemma checksum_order_independent_witness :
  VerifyChecksums.calculateDirectoryChecksum (fun fed => fed) Examples.env
    (Some (Dir [("b"%string, File "2"); ("a"%string, File "1")]))
  = VerifyChecksums.calculateDirectoryChecksum (fun fed => fed) Examples.env
      (Some (Dir [("a"%string, File "1"); ("b"%string, File "2")])).
Proof.
  apply (checksum_order_independent (fun fed => fed) Examples.env
           [("a"%string, File "1"); ("b"%string, File "2")]
           [("b"%string, File "2"); ("a"%string, File "1")]).
  - apply perm_swap.
  - simpl. repeat constructor; simpl; intuition discriminate.
Defined.
